(** * RoboticChess: the rules engine of [src/App/chess.py]

    A shallow embedding of [Chess.Piece], [Chess.Move] and [Chess.Board],
    followed by the properties of the engine.  Python integers are [Z];
    Python strings are [string]s, that is texts whose characters have code
    points below 256, and the primitives of [Py] are those of Python on
    such texts; a raised exception is [None] in the option monad; and the
    mutable [Board] object is a record threaded through every method. *)

From Stdlib Require Import ZArith List String Ascii Bool Lia DecimalString DecimalPos.
Import ListNotations.
Open Scope string_scope.
Open Scope Z_scope.
Open Scope list_scope.

(** ** A small error monad: [None] stands for a raised exception. *)

Definition bind {A B : Type} (x : option A) (f : A -> option B) : option B :=
  match x with Some a => f a | None => None end.

Notation "x <- e1 ;; e2" := (bind e1 (fun x => e2))
  (at level 61, e1 at next level, right associativity).
Notation "' pat <- e1 ;; e2" := (bind e1 (fun x => match x with pat => e2 end))
  (at level 61, pat pattern, e1 at next level, right associativity).

(** ** Python primitives used by the engine *)

Module Py.

(** [str(n)] for an integer. *)
Definition str (n : Z) : string := NilZero.string_of_int (Z.to_int n).

(** [ord(ch)]. *)
Definition ord (ch : ascii) : Z := Z.of_N (N_of_ascii ch).

(** [ch.isdecimal()]: below code point 256 the decimal digits are the ten
    characters '0'..'9'. *)
Definition isdecimal (ch : ascii) : bool := (48 <=? ord ch) && (ord ch <=? 57).

(** [ch.isdigit()]: the decimal digits and, below code point 256, the
    superscripts two, three and one (code points 178, 179 and 185). *)
Definition isdigit (ch : ascii) : bool :=
  isdecimal ch || (ord ch =? 178) || (ord ch =? 179) || (ord ch =? 185).

(** [int(ch)] for a one-character string: raises unless the character is a
    decimal digit (a lone sign, underscore, space or superscript raises). *)
Definition int_char (ch : ascii) : option Z :=
  if isdecimal ch then Some (ord ch - 48) else None.

(** The characters [int] strips from both ends of its argument: below code
    point 256 these are 9..13, 32, 133 and 160. *)
Definition int_space (ch : ascii) : bool :=
  ((9 <=? ord ch) && (ord ch <=? 13)) || (ord ch =? 32)
  || (ord ch =? 133) || (ord ch =? 160).

Fixpoint lstrip (s : string) : string :=
  match s with
  | EmptyString => EmptyString
  | String ch r => if int_space ch then lstrip r else s
  end.

Fixpoint rstrip (s : string) : string :=
  match s with
  | EmptyString => EmptyString
  | String ch r =>
      match rstrip r with
      | EmptyString => if int_space ch then EmptyString else String ch EmptyString
      | t => String ch t
      end
  end.

(** The digits of a decimal literal: at least one digit, single underscores
    allowed between digits only.  [after_digit] tells whether the character
    just read was a digit. *)
Fixpoint digits_value (acc : Z) (after_digit : bool) (s : string) : option Z :=
  match s with
  | EmptyString => if after_digit then Some acc else None
  | String ch r =>
      if Ascii.eqb ch "_" then
        if after_digit then digits_value acc false r else None
      else d <- int_char ch ;; digits_value (10 * acc + d) true r
  end.

(** [int(s)]: surrounding whitespace is stripped, then an optional sign and
    the digits are read; anything else raises [ValueError].  (The limit some
    interpreters put on the number of digits converted by [int] and [str],
    4300 unless reconfigured, is not modelled.) *)
Definition int (s : string) : option Z :=
  match lstrip (rstrip s) with
  | String "-" r => v <- digits_value 0 false r ;; Some (- v)
  | String "+" r => digits_value 0 false r
  | t => digits_value 0 false t
  end.

(** [s.lower()]: below code point 256 the upper-case letters are 'A'..'Z'
    and the code points 192..222 except 215, each 32 below its lower-case
    form. *)
Definition lower_char (ch : ascii) : ascii :=
  if ((65 <=? ord ch) && (ord ch <=? 90))
     || ((192 <=? ord ch) && (ord ch <=? 222) && negb (ord ch =? 215))
  then ascii_of_N (Z.to_N (ord ch + 32)) else ch.

Fixpoint lower (s : string) : string :=
  match s with
  | EmptyString => EmptyString
  | String ch r => String (lower_char ch) (lower r)
  end.

(** [ch in s] for a one-character needle. *)
Fixpoint contains (ch : ascii) (s : string) : bool :=
  match s with
  | EmptyString => false
  | String c r => Ascii.eqb c ch || contains ch r
  end.

(** [s.split(sep)] for a one-character separator. *)
Fixpoint split_aux (sep : ascii) (cur : string) (s : string) : list string :=
  match s with
  | EmptyString => [cur]
  | String ch r =>
      if Ascii.eqb ch sep then cur :: split_aux sep EmptyString r
      else split_aux sep (cur ++ String ch EmptyString)%string r
  end.

Definition split (sep : ascii) (s : string) : list string :=
  split_aux sep EmptyString s.

(** [s[i]] for a non-negative literal index [i]. *)
Definition char_at (i : nat) (s : string) : option ascii := String.get i s.

(** Normalisation of a list subscript: negative subscripts count from the
    end, anything outside [-len, len) raises [IndexError]. *)
Definition index (len : nat) (i : Z) : option nat :=
  let n := Z.of_nat len in
  if (0 <=? i) && (i <? n) then Some (Z.to_nat i)
  else if (- n <=? i) && (i <? 0) then Some (Z.to_nat (i + n))
  else None.

End Py.

(** ** Chess.Piece *)

Module Piece.
Definition NONE : Z := 0.
Definition WHITE_PAWN : Z := 1.
Definition WHITE_ROOK : Z := 2.
Definition WHITE_KNIGHT : Z := 3.
Definition WHITE_BISHOP : Z := 4.
Definition WHITE_QUEEN : Z := 5.
Definition WHITE_KING : Z := 6.
Definition BLACK_PAWN : Z := 7.
Definition BLACK_ROOK : Z := 8.
Definition BLACK_KNIGHT : Z := 9.
Definition BLACK_BISHOP : Z := 10.
Definition BLACK_QUEEN : Z := 11.
Definition BLACK_KING : Z := 12.

(** [Chess.Piece.get_fen]: the FEN letter, or the empty string. *)
Definition get_fen (piece : Z) : string :=
  match piece with
  | 1 => "P" | 2 => "R" | 3 => "N" | 4 => "B" | 5 => "Q" | 6 => "K"
  | 7 => "p" | 8 => "r" | 9 => "n" | 10 => "b" | 11 => "q" | 12 => "k"
  | _ => ""
  end.

(** [Chess.Piece.get_promotion_pieces]. *)
Definition get_promotion_pieces (is_white : bool) : list Z :=
  if is_white then [WHITE_QUEEN; WHITE_ROOK; WHITE_BISHOP; WHITE_KNIGHT]
  else [BLACK_QUEEN; BLACK_ROOK; BLACK_BISHOP; BLACK_KNIGHT].
End Piece.

(** ** Squares *)

Definition FILES : list string := ["A"; "B"; "C"; "D"; "E"; "F"; "G"; "H"].
Definition RANKS : list string := ["8"; "7"; "6"; "5"; "4"; "3"; "2"; "1"].

(** [Chess.coords_to_square] on its documented domain, rows and columns
    0..7: every call of the engine is under a bounds test or inside the
    [range(8)] loops.  Outside that domain Python wraps a subscript in
    -8..-1 and raises [IndexError] from 8 on; this total function is not
    meant for such arguments and no property below uses it there. *)
Definition coords_to_square (r c : Z) : string :=
  (nth (Z.to_nat c) FILES "" ++ nth (Z.to_nat r) RANKS "")%string.

(** [Chess.square_to_coords]: [square[1]] is read and converted first, then
    [square[0]]; either may raise. *)
Definition square_to_coords (square : string) : option (Z * Z) :=
  d <- Py.char_at 1 square ;;
  v <- Py.int_char d ;;
  f <- Py.char_at 0 square ;;
  Some (8 - v, Py.ord f - 65).

Definition in_board (r c : Z) : bool :=
  (0 <=? r) && (r <? 8) && (0 <=? c) && (c <? 8).

(** ** Chess.Move *)

Record Move := mkMove {
  from_sq : string;
  to_sq : string;
  promotion : option Z
}.

Definition option_Z_eqb (a b : option Z) : bool :=
  match a, b with
  | Some x, Some y => x =? y
  | None, None => true
  | _, _ => false
  end.

(** [Move.__eq__]. *)
Definition move_eqb (a b : Move) : bool :=
  String.eqb (from_sq a) (from_sq b) && String.eqb (to_sq a) (to_sq b)
  && option_Z_eqb (promotion a) (promotion b).

(** ** The 8x8 grid: a list of rows *)

Definition grid := list (list Z).

Fixpoint lupd {A : Type} (l : list A) (i : nat) (x : A) : list A :=
  match l, i with
  | [], _ => []
  | _ :: t, O => x :: t
  | h :: t, S j => h :: lupd t j x
  end.

(** The cell at a normalised position, if there is one. *)
Definition cell (b : grid) (i j : nat) : option Z :=
  match nth_error b i with
  | Some row => nth_error row j
  | None => None
  end.

(** Overwrite the cell at a normalised position. *)
Definition upd (b : grid) (i j : nat) (x : Z) : grid :=
  match nth_error b i with
  | Some row => lupd b i (lupd row j x)
  | None => b
  end.

(** [self.board[r][c]] where the code has checked [0 <= r < 8] and
    [0 <= c < 8] (or iterates over [range(8)]): the grid is 8x8 from
    [__init__] on, so the read cannot raise. *)
Definition bd (b : grid) (r c : Z) : Z :=
  match cell b (Z.to_nat r) (Z.to_nat c) with
  | Some x => x
  | None => Piece.NONE
  end.

(** The cell addressed by [self.board[r][c]] with unchecked subscripts:
    [self.board[r]] is resolved first, then the column in that row. *)
Definition grid_pos (b : grid) (r c : Z) : option (nat * nat) :=
  i <- Py.index (List.length b) r ;;
  row <- nth_error b i ;;
  j <- Py.index (List.length row) c ;;
  Some (i, j).

(** [self.board[r][c]] with unchecked subscripts. *)
Definition grid_read (b : grid) (r c : Z) : option Z :=
  '(i, j) <- grid_pos b r c ;; cell b i j.

(** [self.board[r][c] = x] with unchecked subscripts. *)
Definition grid_write (b : grid) (r c : Z) (x : Z) : option grid :=
  '(i, j) <- grid_pos b r c ;; Some (upd b i j x).

Definition grid_wf (b : grid) : bool :=
  (List.length b =? 8)%nat && forallb (fun row => (List.length row =? 8)%nat) b.

Definition range8 : list Z := [0; 1; 2; 3; 4; 5; 6; 7].

(** Row-major enumeration of the squares, as the nested [range(8)] loops. *)
Definition all_coords : list (Z * Z) :=
  flat_map (fun r => map (fun c => (r, c)) range8) range8.

(** ** Chess.Board: the state *)

(** The dictionary pushed on [move_history] by [make_move]. *)
Record UndoRecord := mkUndo {
  u_move : Move;
  u_from_piece : Z;
  u_to_piece : Z;
  u_castling_move : bool;
  u_en_passant_capture : bool;
  u_prev_en_passant : option string;
  u_castling_rights : Z;
  u_halfmove : Z;
  u_fullmove : Z;
  u_promotion : option Z
}.

(** [timeout_result]: [{ 'winner': .., 'reason': .. }]. *)
Record Timeout := mkTimeout {
  t_winner : string;
  t_reason : string
}.

(** The dictionary returned by [is_game_over]. *)
Record GameOver := mkGameOver {
  over : bool;
  reason : option string;
  winner : option string
}.

(** The dictionary returned by [make_move]. *)
Record MoveResult := mkMoveResult {
  m_over : bool;
  m_reason : option string;
  m_winner : option string;
  require_sync : bool
}.

(** The attributes of a [Chess.Board] object.  [moves_cache] is [None] for
    [{'hash': None, 'moves': None}]; [king_white] and [king_black] are the
    two entries of [_king_positions]. *)
Record Board := mkBoard {
  board : grid;
  moves_cache : option (string * list Move);
  king_white : option (Z * Z);
  king_black : option (Z * Z);
  position_history : list string;
  move_history : list UndoRecord;
  white_time : option Z;
  black_time : option Z;
  timers_enabled : bool;
  timeout_result : option Timeout;
  white_to_play : bool;
  castling_rights : Z;
  en_passant : option string;
  halfmove : Z;
  fullmove : Z
}.

Definition with_board (p : Board) (b : grid) : Board :=
  mkBoard b (moves_cache p) (king_white p) (king_black p) (position_history p)
    (move_history p) (white_time p) (black_time p) (timers_enabled p)
    (timeout_result p) (white_to_play p) (castling_rights p) (en_passant p)
    (halfmove p) (fullmove p).

Definition with_cache (p : Board) (k : option (string * list Move)) : Board :=
  mkBoard (board p) k (king_white p) (king_black p) (position_history p)
    (move_history p) (white_time p) (black_time p) (timers_enabled p)
    (timeout_result p) (white_to_play p) (castling_rights p) (en_passant p)
    (halfmove p) (fullmove p).

Definition with_kings (p : Board) (kw kb : option (Z * Z)) : Board :=
  mkBoard (board p) (moves_cache p) kw kb (position_history p)
    (move_history p) (white_time p) (black_time p) (timers_enabled p)
    (timeout_result p) (white_to_play p) (castling_rights p) (en_passant p)
    (halfmove p) (fullmove p).

Definition with_position_history (p : Board) (h : list string) : Board :=
  mkBoard (board p) (moves_cache p) (king_white p) (king_black p) h
    (move_history p) (white_time p) (black_time p) (timers_enabled p)
    (timeout_result p) (white_to_play p) (castling_rights p) (en_passant p)
    (halfmove p) (fullmove p).

Definition with_move_history (p : Board) (h : list UndoRecord) : Board :=
  mkBoard (board p) (moves_cache p) (king_white p) (king_black p)
    (position_history p) h (white_time p) (black_time p) (timers_enabled p)
    (timeout_result p) (white_to_play p) (castling_rights p) (en_passant p)
    (halfmove p) (fullmove p).

Definition with_timers (p : Board) (wt bt : option Z) (en : bool)
    (res : option Timeout) : Board :=
  mkBoard (board p) (moves_cache p) (king_white p) (king_black p)
    (position_history p) (move_history p) wt bt en res (white_to_play p)
    (castling_rights p) (en_passant p) (halfmove p) (fullmove p).

Definition with_white_to_play (p : Board) (w : bool) : Board :=
  mkBoard (board p) (moves_cache p) (king_white p) (king_black p)
    (position_history p) (move_history p) (white_time p) (black_time p)
    (timers_enabled p) (timeout_result p) w (castling_rights p)
    (en_passant p) (halfmove p) (fullmove p).

Definition with_castling_rights (p : Board) (cr : Z) : Board :=
  mkBoard (board p) (moves_cache p) (king_white p) (king_black p)
    (position_history p) (move_history p) (white_time p) (black_time p)
    (timers_enabled p) (timeout_result p) (white_to_play p) cr
    (en_passant p) (halfmove p) (fullmove p).

Definition with_en_passant (p : Board) (ep : option string) : Board :=
  mkBoard (board p) (moves_cache p) (king_white p) (king_black p)
    (position_history p) (move_history p) (white_time p) (black_time p)
    (timers_enabled p) (timeout_result p) (white_to_play p)
    (castling_rights p) ep (halfmove p) (fullmove p).

Definition with_clocks (p : Board) (hm fm : Z) : Board :=
  mkBoard (board p) (moves_cache p) (king_white p) (king_black p)
    (position_history p) (move_history p) (white_time p) (black_time p)
    (timers_enabled p) (timeout_result p) (white_to_play p)
    (castling_rights p) (en_passant p) hm fm.

(** Python truthiness of a string-or-None attribute. *)
Definition truthy_str (s : option string) : bool :=
  match s with
  | Some (String _ _) => true
  | _ => false
  end.

(** Python truthiness of an int-or-None value. *)
Definition truthy_int (z : option Z) : bool :=
  match z with
  | Some v => negb (v =? 0)
  | None => false
  end.

Definition is_empty_str (s : string) : bool :=
  match s with EmptyString => true | _ => false end.

(** ** Timers *)

(** [Board.set_timers]. *)
Definition set_timers (p : Board) (white_ms black_ms : option Z) : Board :=
  with_timers p white_ms black_ms
    (match white_ms, black_ms with None, None => false | _, _ => true end)
    None.

(** [Board.decrement_current_player_timer]: the new state and the returned
    flag. *)
Definition decrement_current_player_timer (p : Board) (ms : Z) : Board * bool :=
  if negb (timers_enabled p) then (p, false)
  else
    match white_to_play p, white_time p, black_time p with
    | true, Some wt, _ =>
        let wt' := wt - ms in
        if wt' <=? 0
        then (with_timers p (Some 0) (black_time p) (timers_enabled p)
                (Some (mkTimeout "black" "timeout")), true)
        else (with_timers p (Some wt') (black_time p) (timers_enabled p)
                (timeout_result p), false)
    | false, _, Some bt =>
        let bt' := bt - ms in
        if bt' <=? 0
        then (with_timers p (white_time p) (Some 0) (timers_enabled p)
                (Some (mkTimeout "white" "timeout")), true)
        else (with_timers p (white_time p) (Some bt') (timers_enabled p)
                (timeout_result p), false)
    | _, _, _ => (p, false)
    end.

(** [Board.get_player_time]. *)
Definition get_player_time (p : Board) (is_white : bool) : option Z :=
  if is_white then white_time p else black_time p.

(** ** Reading and writing squares *)

(** The guarded assignment of [set_piece]. *)
Definition place (b : grid) (r c : Z) (piece : Z) : grid :=
  if in_board r c then upd b (Z.to_nat r) (Z.to_nat c) piece else b.

(** [Board.set_piece]. *)
Definition set_piece (p : Board) (piece : Z) (square : string) : option Board :=
  if is_empty_str square then Some p
  else
    '(r, c) <- square_to_coords square ;;
    if in_board r c then
      let p1 := with_board p (place (board p) r c piece) in
      if piece =? Piece.WHITE_KING then Some (with_kings p1 (Some (r, c)) (king_black p1))
      else if piece =? Piece.BLACK_KING then Some (with_kings p1 (king_white p1) (Some (r, c)))
      else Some p1
    else Some p.

(** [Board.get_piece]. *)
Definition get_piece (p : Board) (square : string) : option Z :=
  if is_empty_str square then Some Piece.NONE
  else
    '(r, c) <- square_to_coords square ;;
    if in_board r c then Some (bd (board p) r c) else Some Piece.NONE.

(** [Board._update_king_positions]: the last king met in row-major order. *)
Definition _update_king_positions (p : Board) : Board :=
  let scan := fold_left (fun (acc : option (Z * Z) * option (Z * Z)) '(r, c) =>
      let piece := bd (board p) r c in
      if piece =? Piece.WHITE_KING then (Some (r, c), snd acc)
      else if piece =? Piece.BLACK_KING then (fst acc, Some (r, c))
      else acc) all_coords (None, None) in
  with_kings p (fst scan) (snd scan).

(** ** Position hash *)

Definition join (sep : string) (l : list string) : string :=
  match l with
  | [] => ""
  | x :: r => fold_left (fun acc y => (acc ++ sep ++ y)%string) r x
  end.

(** [Board._get_position_hash]. *)
Definition _get_position_hash (p : Board) : string :=
  ((if white_to_play p then "w" else "b")
   ++ "|" ++ Py.str (castling_rights p)
   ++ "|" ++ (if truthy_str (en_passant p)
              then match en_passant p with Some s => s | None => "-" end
              else "-")
   ++ "|"
   ++ join "/" (map (fun r =>
         join "," (map (fun c => Py.str (bd (board p) r c)) range8)) range8))%string.

(** [Board.is_threefold_repetition]. *)
Definition is_threefold_repetition (p : Board) : bool :=
  if (List.length (position_history p) <? 4)%nat then false
  else
    let current_hash := _get_position_hash p in
    let count := List.length
      (filter (fun h => String.eqb h current_hash) (position_history p)) in
    (3 <=? count)%nat.

(** ** Attack detection *)

Definition knight_moves : list (Z * Z) :=
  [(-2,-1); (-2,1); (-1,-2); (-1,2); (1,-2); (1,2); (2,-1); (2,1)].

Definition king_moves : list (Z * Z) :=
  [(-1,-1); (-1,0); (-1,1); (0,-1); (0,1); (1,-1); (1,0); (1,1)].

Definition rook_directions : list (Z * Z) := [(0,1); (0,-1); (1,0); (-1,0)].
Definition bishop_directions : list (Z * Z) := [(1,1); (1,-1); (-1,1); (-1,-1)].
Definition queen_directions : list (Z * Z) :=
  [(0,1); (0,-1); (1,0); (-1,0); (1,1); (1,-1); (-1,1); (-1,-1)].

(** [enumerate(l)]. *)
Fixpoint enumerate_from {A : Type} (i : Z) (l : list A) : list (Z * A) :=
  match l with
  | [] => []
  | x :: r => (i, x) :: enumerate_from (i + 1) r
  end.

(** One [while 0<=nr<8 and 0<=nc<8] scan of [_is_square_attacked], started
    at [(nr, nc)]: [true] when the first piece met is an attacking slider.
    A ray leaves the board after at most eight squares; [fuel] counts them. *)
Fixpoint attack_ray (fuel : nat) (b : grid) (by_white is_rook_dir : bool)
    (nr nc dr dc : Z) : bool :=
  match fuel with
  | O => false
  | S k =>
      if in_board nr nc then
        let piece := bd b nr nc in
        if negb (piece =? Piece.NONE) then
          let attacker_start := if by_white then Piece.WHITE_PAWN else Piece.BLACK_PAWN in
          let attacker_end := if by_white then Piece.WHITE_KING else Piece.BLACK_KING in
          (attacker_start <=? piece) && (piece <=? attacker_end)
          && ((piece =? (if by_white then Piece.WHITE_QUEEN else Piece.BLACK_QUEEN))
              || (is_rook_dir && (piece =? (if by_white then Piece.WHITE_ROOK else Piece.BLACK_ROOK)))
              || (negb is_rook_dir && (piece =? (if by_white then Piece.WHITE_BISHOP else Piece.BLACK_BISHOP))))
        else attack_ray k b by_white is_rook_dir (nr + dr) (nc + dc) dr dc
      else false
  end.

(** [Board._is_square_attacked], on the grid alone. *)
Definition _is_square_attacked (b : grid) (r c : Z) (by_white : bool) : bool :=
  let pawn_dir := if by_white then 1 else -1 in
  let pawn_r := r + pawn_dir in
  ((0 <=? pawn_r) && (pawn_r <? 8)
   && existsb (fun dc =>
        let pawn_c := c + dc in
        (0 <=? pawn_c) && (pawn_c <? 8)
        && (bd b pawn_r pawn_c =? (if by_white then Piece.WHITE_PAWN else Piece.BLACK_PAWN)))
      [-1; 1])
  || existsb (fun '(dr, dc) =>
        let nr := r + dr in let nc := c + dc in
        in_board nr nc
        && (bd b nr nc =? (if by_white then Piece.WHITE_KNIGHT else Piece.BLACK_KNIGHT)))
      knight_moves
  || existsb (fun '(i, (dr, dc)) =>
        attack_ray 8 b by_white (i <? 4) (r + dr) (c + dc) dr dc)
      (enumerate_from 0 queen_directions)
  || existsb (fun '(dr, dc) =>
        let nr := r + dr in let nc := c + dc in
        in_board nr nc
        && (bd b nr nc =? (if by_white then Piece.WHITE_KING else Piece.BLACK_KING)))
      king_moves.

(** [Board.is_king_attacked] with an explicit colour. *)
Definition is_king_attacked (p : Board) (is_white : bool) : bool :=
  match (if is_white then king_white p else king_black p) with
  | None => false
  | Some (kr, kc) => _is_square_attacked (board p) kr kc (negb is_white)
  end.

(** ** Pseudo-legal move generation *)

(** [Board._generate_pawn_moves]; decoding the en passant target may raise. *)
Definition _generate_pawn_moves (p : Board) (r c : Z) (from_sq : string)
    (is_white : bool) : option (list Move) :=
  let b := board p in
  let direction := if is_white then -1 else 1 in
  let start_rank := if is_white then 6 else 1 in
  let promotion_rank := if is_white then 0 else 7 in
  let enemy_start := if is_white then Piece.BLACK_PAWN else Piece.WHITE_PAWN in
  let enemy_end := if is_white then Piece.BLACK_KING else Piece.WHITE_KING in
  let new_r := r + direction in
  let pushes :=
    if (0 <=? new_r) && (new_r <? 8) && (bd b new_r c =? Piece.NONE) then
      let to := coords_to_square new_r c in
      if new_r =? promotion_rank then
        map (fun piece => mkMove from_sq to (Some piece))
            (Piece.get_promotion_pieces is_white)
      else
        mkMove from_sq to None ::
        (if (r =? start_rank) && (bd b (r + 2 * direction) c =? Piece.NONE)
         then [mkMove from_sq (coords_to_square (r + 2 * direction) c) None]
         else [])
    else [] in
  let captures :=
    flat_map (fun dc =>
      let new_c := c + dc in
      if (0 <=? new_r) && (new_r <? 8) && (0 <=? new_c) && (new_c <? 8) then
        let target := bd b new_r new_c in
        if (enemy_start <=? target) && (target <=? enemy_end) then
          let to := coords_to_square new_r new_c in
          if new_r =? promotion_rank then
            map (fun piece => mkMove from_sq to (Some piece))
                (Piece.get_promotion_pieces is_white)
          else [mkMove from_sq to None]
        else []
      else []) [-1; 1] in
  ep <- (if truthy_str (en_passant p) then
           match en_passant p with
           | Some eps =>
               '(_, ep_c) <- square_to_coords eps ;;
               let correct_rank := if is_white then 3 else 4 in
               if (r =? correct_rank) && (Z.abs (c - ep_c) =? 1)
               then Some [mkMove from_sq eps None] else Some []
           | None => Some []
           end
         else Some []) ;;
  Some (pushes ++ captures ++ ep).

(** One [while] scan of [_generate_sliding_moves], started at [(nr, nc)]. *)
Fixpoint slide_ray (fuel : nat) (b : grid) (from_sq : string) (is_white : bool)
    (nr nc dr dc : Z) : list Move :=
  match fuel with
  | O => []
  | S k =>
      if in_board nr nc then
        let friendly_start := if is_white then Piece.WHITE_PAWN else Piece.BLACK_PAWN in
        let friendly_end := if is_white then Piece.WHITE_KING else Piece.BLACK_KING in
        let enemy_start := if is_white then Piece.BLACK_PAWN else Piece.WHITE_PAWN in
        let enemy_end := if is_white then Piece.BLACK_KING else Piece.WHITE_KING in
        let target := bd b nr nc in
        if target =? Piece.NONE then
          mkMove from_sq (coords_to_square nr nc) None
          :: slide_ray k b from_sq is_white (nr + dr) (nc + dc) dr dc
        else if (enemy_start <=? target) && (target <=? enemy_end) then
          [mkMove from_sq (coords_to_square nr nc) None]
        else if (friendly_start <=? target) && (target <=? friendly_end) then []
        else slide_ray k b from_sq is_white (nr + dr) (nc + dc) dr dc
      else []
  end.

(** [Board._generate_sliding_moves]. *)
Definition _generate_sliding_moves (p : Board) (r c : Z) (from_sq : string)
    (is_white : bool) (directions : list (Z * Z)) : list Move :=
  flat_map (fun '(dr, dc) =>
    slide_ray 8 (board p) from_sq is_white (r + dr) (c + dc) dr dc) directions.

Definition _generate_rook_moves (p : Board) (r c : Z) (from_sq : string)
    (is_white : bool) : list Move :=
  _generate_sliding_moves p r c from_sq is_white rook_directions.

Definition _generate_bishop_moves (p : Board) (r c : Z) (from_sq : string)
    (is_white : bool) : list Move :=
  _generate_sliding_moves p r c from_sq is_white bishop_directions.

Definition _generate_queen_moves (p : Board) (r c : Z) (from_sq : string)
    (is_white : bool) : list Move :=
  _generate_sliding_moves p r c from_sq is_white queen_directions.

(** The offset loop shared by knights and kings: a target is kept unless a
    friendly piece stands on it. *)
Definition offset_moves (b : grid) (r c : Z) (from_sq : string)
    (is_white : bool) (offsets : list (Z * Z)) : list Move :=
  let friendly_start := if is_white then Piece.WHITE_PAWN else Piece.BLACK_PAWN in
  let friendly_end := if is_white then Piece.WHITE_KING else Piece.BLACK_KING in
  flat_map (fun '(dr, dc) =>
    let nr := r + dr in let nc := c + dc in
    if in_board nr nc then
      let target := bd b nr nc in
      if (target =? Piece.NONE)
         || negb ((friendly_start <=? target) && (target <=? friendly_end))
      then [mkMove from_sq (coords_to_square nr nc) None] else []
    else []) offsets.

(** [Board._generate_knight_moves]. *)
Definition _generate_knight_moves (p : Board) (r c : Z) (from_sq : string)
    (is_white : bool) : list Move :=
  offset_moves (board p) r c from_sq is_white knight_moves.

(** Python truthiness of [self.castling_rights & mask]. *)
Definition has_right (p : Board) (mask : Z) : bool :=
  negb (Z.land (castling_rights p) mask =? 0).

(** [Board._generate_king_moves]: the eight steps, then the castling block. *)
Definition _generate_king_moves (p : Board) (r c : Z) (from_sq : string)
    (is_white : bool) : list Move :=
  let b := board p in
  offset_moves b r c from_sq is_white king_moves
  ++
  (if is_white && (r =? 7) && (c =? 4) then
     (if has_right p 1 && negb (is_king_attacked p true)
         && ((bd b 7 5 =? Piece.NONE) && (bd b 7 6 =? Piece.NONE))
         && (negb (_is_square_attacked b 7 5 false)
             && negb (_is_square_attacked b 7 6 false))
      then [mkMove from_sq "G1" None] else [])
     ++
     (if has_right p 2 && negb (is_king_attacked p true)
         && ((bd b 7 3 =? Piece.NONE) && (bd b 7 2 =? Piece.NONE)
             && (bd b 7 1 =? Piece.NONE))
         && (negb (_is_square_attacked b 7 3 false)
             && negb (_is_square_attacked b 7 2 false))
      then [mkMove from_sq "C1" None] else [])
   else if negb is_white && (r =? 0) && (c =? 4) then
     (if has_right p 4 && negb (is_king_attacked p false)
         && ((bd b 0 5 =? Piece.NONE) && (bd b 0 6 =? Piece.NONE))
         && (negb (_is_square_attacked b 0 5 true)
             && negb (_is_square_attacked b 0 6 true))
      then [mkMove from_sq "G8" None] else [])
     ++
     (if has_right p 8 && negb (is_king_attacked p false)
         && ((bd b 0 3 =? Piece.NONE) && (bd b 0 2 =? Piece.NONE)
             && (bd b 0 1 =? Piece.NONE))
         && (negb (_is_square_attacked b 0 3 true)
             && negb (_is_square_attacked b 0 2 true))
      then [mkMove from_sq "C8" None] else [])
   else []).

(** [Board._generate_moves_for_piece]: the moves it appends. *)
Definition _generate_moves_for_piece (p : Board) (r c : Z) (piece : Z)
    : option (list Move) :=
  let from_sq := coords_to_square r c in
  let is_white := piece <=? Piece.WHITE_KING in
  if (piece =? Piece.WHITE_PAWN) || (piece =? Piece.BLACK_PAWN) then
    _generate_pawn_moves p r c from_sq is_white
  else if (piece =? Piece.WHITE_ROOK) || (piece =? Piece.BLACK_ROOK) then
    Some (_generate_rook_moves p r c from_sq is_white)
  else if (piece =? Piece.WHITE_KNIGHT) || (piece =? Piece.BLACK_KNIGHT) then
    Some (_generate_knight_moves p r c from_sq is_white)
  else if (piece =? Piece.WHITE_BISHOP) || (piece =? Piece.BLACK_BISHOP) then
    Some (_generate_bishop_moves p r c from_sq is_white)
  else if (piece =? Piece.WHITE_QUEEN) || (piece =? Piece.BLACK_QUEEN) then
    Some (_generate_queen_moves p r c from_sq is_white)
  else if (piece =? Piece.WHITE_KING) || (piece =? Piece.BLACK_KING) then
    Some (_generate_king_moves p r c from_sq is_white)
  else Some [].

(** The moves gathered by the two nested loops of [get_moves], before the
    legality filter. *)
Fixpoint pseudo_moves_over (p : Board) (cs : list (Z * Z)) : option (list Move) :=
  match cs with
  | [] => Some []
  | (r, c) :: rest =>
      let piece := bd (board p) r c in
      here <- (if piece =? Piece.NONE then Some []
               else if negb (Bool.eqb (piece <=? Piece.WHITE_KING) (white_to_play p))
                    then Some []
               else _generate_moves_for_piece p r c piece) ;;
      more <- pseudo_moves_over p rest ;;
      Some (here ++ more)
  end.

Definition pseudo_legal_moves (p : Board) : option (list Move) :=
  pseudo_moves_over p all_coords.

(** ** Legality filter *)

Definition is_king_piece (piece : Z) : bool :=
  (piece =? Piece.WHITE_KING) || (piece =? Piece.BLACK_KING).

(** [Board._is_move_legal]: the grid is written twice, probed, and written
    back; the grid after the call is returned with the verdict. *)
Definition _is_move_legal (b : grid) (white_to_play : bool) (move : Move)
    (king_pos : option (Z * Z)) : option (grid * bool) :=
  '(fr, fc) <- square_to_coords (from_sq move) ;;
  '(tr, tc) <- square_to_coords (to_sq move) ;;
  from_piece <- grid_read b fr fc ;;
  to_piece <- grid_read b tr tc ;;
  b1 <- grid_write b fr fc Piece.NONE ;;
  b2 <- grid_write b1 tr tc from_piece ;;
  let new_king_pos := if is_king_piece from_piece then Some (tr, tc) else king_pos in
  '(kr, kc) <- new_king_pos ;;
  let is_legal := negb (_is_square_attacked b2 kr kc (negb white_to_play)) in
  b3 <- grid_write b2 fr fc from_piece ;;
  b4 <- grid_write b3 tr tc to_piece ;;
  Some (b4, is_legal).

(** The loop of [Board._filter_legal_moves]. *)
Fixpoint filter_legal_loop (b : grid) (white_to_play : bool)
    (king_pos : option (Z * Z)) (moves : list Move) : option (grid * list Move) :=
  match moves with
  | [] => Some (b, [])
  | move :: rest =>
      '(b1, ok) <- _is_move_legal b white_to_play move king_pos ;;
      '(b2, legal) <- filter_legal_loop b1 white_to_play king_pos rest ;;
      Some (b2, if ok then move :: legal else legal)
  end.

(** [Board._filter_legal_moves]. *)
Definition _filter_legal_moves (p : Board) (moves : list Move)
    : option (Board * list Move) :=
  let king_pos := if white_to_play p then king_white p else king_black p in
  '(b, legal) <- filter_legal_loop (board p) (white_to_play p) king_pos moves ;;
  Some (with_board p b, legal).

(** The body of [get_moves] after a cache miss. *)
Definition compute_moves (p : Board) : option (Board * list Move) :=
  moves <- pseudo_legal_moves p ;;
  '(p1, legal_moves) <- _filter_legal_moves p moves ;;
  Some (with_cache p1 (Some (_get_position_hash p, legal_moves)), legal_moves).

(** [Board.get_moves]. *)
Definition get_moves (p : Board) : option (Board * list Move) :=
  let position_hash := _get_position_hash p in
  match moves_cache p with
  | Some (h, moves) =>
      if String.eqb h position_hash then Some (p, moves) else compute_moves p
  | None => compute_moves p
  end.

(** ** Terminal states *)

(** The six counters of [is_insufficient_material]:
    white_bishops, black_bishops, white_knights, black_knights,
    white_other, black_other. *)
Record Material := mkMaterial {
  white_bishops : Z; black_bishops : Z;
  white_knights : Z; black_knights : Z;
  white_other : Z; black_other : Z
}.

Definition count_piece (m : Material) (piece : Z) : Material :=
  if (piece =? Piece.WHITE_PAWN) || (piece =? Piece.WHITE_ROOK) || (piece =? Piece.WHITE_QUEEN)
  then mkMaterial (white_bishops m) (black_bishops m) (white_knights m) (black_knights m)
         (white_other m + 1) (black_other m)
  else if (piece =? Piece.BLACK_PAWN) || (piece =? Piece.BLACK_ROOK) || (piece =? Piece.BLACK_QUEEN)
  then mkMaterial (white_bishops m) (black_bishops m) (white_knights m) (black_knights m)
         (white_other m) (black_other m + 1)
  else if piece =? Piece.WHITE_BISHOP
  then mkMaterial (white_bishops m + 1) (black_bishops m) (white_knights m) (black_knights m)
         (white_other m) (black_other m)
  else if piece =? Piece.BLACK_BISHOP
  then mkMaterial (white_bishops m) (black_bishops m + 1) (white_knights m) (black_knights m)
         (white_other m) (black_other m)
  else if piece =? Piece.WHITE_KNIGHT
  then mkMaterial (white_bishops m) (black_bishops m) (white_knights m + 1) (black_knights m)
         (white_other m) (black_other m)
  else if piece =? Piece.BLACK_KNIGHT
  then mkMaterial (white_bishops m) (black_bishops m) (white_knights m) (black_knights m + 1)
         (white_other m) (black_other m)
  else m.

Definition all_zero (l : list Z) : bool := forallb (fun x => x =? 0) l.

(** [Board.is_insufficient_material]. *)
Definition is_insufficient_material (p : Board) : bool :=
  let b := board p in
  let m := fold_left (fun m '(r, c) => count_piece m (bd b r c)) all_coords
             (mkMaterial 0 0 0 0 0 0) in
  if all_zero [white_other m; black_other m; white_bishops m; black_bishops m;
               white_knights m; black_knights m] then true
  else if all_zero [white_other m; black_other m]
       && (((white_bishops m =? 1)
            && all_zero [white_knights m; black_bishops m; black_knights m])
           || ((black_bishops m =? 1)
            && all_zero [black_knights m; white_bishops m; white_knights m])) then true
  else if all_zero [white_other m; black_other m]
       && (((white_knights m =? 1)
            && all_zero [white_bishops m; black_bishops m; black_knights m])
           || ((black_knights m =? 1)
            && all_zero [black_bishops m; white_bishops m; white_knights m])) then true
  else if all_zero [white_other m; black_other m]
       && all_zero [white_knights m; black_knights m]
       && (1 <? white_bishops m + black_bishops m) then
    let bishop_colors :=
      flat_map (fun '(r, c) =>
        let piece := bd b r c in
        if (piece =? Piece.WHITE_BISHOP) || (piece =? Piece.BLACK_BISHOP)
        then [(r + c) mod 2] else []) all_coords in
    match bishop_colors with
    | [] => false
    | first :: _ => forallb (fun color => color =? first) bishop_colors
    end
  else false.

Definition opponent_name (white_to_play : bool) : string :=
  if white_to_play then "black" else "white".

(** [Board.is_game_over]; [get_moves] may refresh the cache, so the state
    is returned too. *)
Definition is_game_over (p : Board) : option (Board * GameOver) :=
  match (if timers_enabled p then timeout_result p else None) with
  | Some t => Some (p, mkGameOver true (Some (t_reason t)) (Some (t_winner t)))
  | None =>
      if 100 <=? halfmove p then
        Some (p, mkGameOver true (Some "50-move rule") (Some "draw"))
      else if is_insufficient_material p then
        Some (p, mkGameOver true (Some "insufficient material") (Some "draw"))
      else if is_threefold_repetition p then
        Some (p, mkGameOver true (Some "threefold repetition") (Some "draw"))
      else
        '(p1, moves) <- get_moves p ;;
        match moves with
        | [] =>
            if is_king_attacked p1 (white_to_play p1) then
              Some (p1, mkGameOver true (Some "checkmate")
                          (Some (opponent_name (white_to_play p1))))
            else Some (p1, mkGameOver true (Some "stalemate") (Some "draw"))
        | _ :: _ => Some (p1, mkGameOver false None None)
        end
  end.

(** ** Applying a move *)

Definition clear_bits (cr mask : Z) : Z := Z.land cr (Z.lnot mask).

Definition char_str (ch : ascii) : string := String ch EmptyString.

(** The [# Castling] block of [make_move]: relocates king and rook when the
    move is a castle, and clears both rights of a king leaving its home
    square.  Returns the flag [castling_move]. *)
Definition make_move_castling (p : Board) (from_piece : Z) (move : Move)
    : option (Board * bool) :=
  if (from_piece =? Piece.WHITE_KING) && String.eqb (from_sq move) "E1" then
    '(p1, castling_move) <-
      (if String.eqb (to_sq move) "G1" && has_right p 1 then
         a <- set_piece p Piece.WHITE_KING "G1" ;;
         b <- set_piece a Piece.NONE "E1" ;;
         c <- set_piece b Piece.WHITE_ROOK "F1" ;;
         d <- set_piece c Piece.NONE "H1" ;;
         Some (d, true)
       else if String.eqb (to_sq move) "C1" && has_right p 2 then
         a <- set_piece p Piece.WHITE_KING "C1" ;;
         b <- set_piece a Piece.NONE "E1" ;;
         c <- set_piece b Piece.WHITE_ROOK "D1" ;;
         d <- set_piece c Piece.NONE "A1" ;;
         Some (d, true)
       else Some (p, false)) ;;
    Some (with_castling_rights p1 (clear_bits (castling_rights p1) 3), castling_move)
  else if (from_piece =? Piece.BLACK_KING) && String.eqb (from_sq move) "E8" then
    '(p1, castling_move) <-
      (if String.eqb (to_sq move) "G8" && has_right p 4 then
         a <- set_piece p Piece.BLACK_KING "G8" ;;
         b <- set_piece a Piece.NONE "E8" ;;
         c <- set_piece b Piece.BLACK_ROOK "F8" ;;
         d <- set_piece c Piece.NONE "H8" ;;
         Some (d, true)
       else if String.eqb (to_sq move) "C8" && has_right p 8 then
         a <- set_piece p Piece.BLACK_KING "C8" ;;
         b <- set_piece a Piece.NONE "E8" ;;
         c <- set_piece b Piece.BLACK_ROOK "D8" ;;
         d <- set_piece c Piece.NONE "A8" ;;
         Some (d, true)
       else Some (p, false)) ;;
    Some (with_castling_rights p1 (clear_bits (castling_rights p1) 12), castling_move)
  else Some (p, false).

(** The [# Rook move/capture updates] block: eight independent tests. *)
Definition make_move_rook_rights (cr : Z) (from_piece to_piece : Z) (move : Move) : Z :=
  let cr := if (from_piece =? Piece.WHITE_ROOK) && String.eqb (from_sq move) "A1"
            then clear_bits cr 2 else cr in
  let cr := if (from_piece =? Piece.WHITE_ROOK) && String.eqb (from_sq move) "H1"
            then clear_bits cr 1 else cr in
  let cr := if (from_piece =? Piece.BLACK_ROOK) && String.eqb (from_sq move) "A8"
            then clear_bits cr 8 else cr in
  let cr := if (from_piece =? Piece.BLACK_ROOK) && String.eqb (from_sq move) "H8"
            then clear_bits cr 4 else cr in
  let cr := if String.eqb (to_sq move) "A1" && (to_piece =? Piece.WHITE_ROOK)
            then clear_bits cr 2 else cr in
  let cr := if String.eqb (to_sq move) "H1" && (to_piece =? Piece.WHITE_ROOK)
            then clear_bits cr 1 else cr in
  let cr := if String.eqb (to_sq move) "A8" && (to_piece =? Piece.BLACK_ROOK)
            then clear_bits cr 8 else cr in
  let cr := if String.eqb (to_sq move) "H8" && (to_piece =? Piece.BLACK_ROOK)
            then clear_bits cr 4 else cr in
  cr.

Definition option_string_eqb (s : string) (o : option string) : bool :=
  match o with
  | Some t => String.eqb s t
  | None => false
  end.

(** The pawn half of the [# En passant] block for one colour: [start] and
    [landing] are the rank digits of a double push, [mid] the rank of the
    new target, [delta] the rank offset of the captured pawn. *)
Definition make_move_pawn_en_passant (p : Board) (move : Move)
    (prev_en_passant : option string) (start landing : ascii) (mid : string)
    (delta : Z) : option (Board * bool) :=
  f1 <- Py.char_at 1 (from_sq move) ;;
  double <- (if Ascii.eqb f1 start
             then t1 <- Py.char_at 1 (to_sq move) ;; Some (Ascii.eqb t1 landing)
             else Some false) ;;
  p1 <- (if double
         then f0 <- Py.char_at 0 (from_sq move) ;;
              Some (with_en_passant p (Some (char_str f0 ++ mid)%string))
         else Some p) ;;
  capture <- (if option_string_eqb (to_sq move) prev_en_passant
              then f0 <- Py.char_at 0 (from_sq move) ;;
                   t0 <- Py.char_at 0 (to_sq move) ;;
                   Some (negb (Ascii.eqb f0 t0))
              else Some false) ;;
  if capture then
    t0 <- Py.char_at 0 (to_sq move) ;;
    t1 <- Py.char_at 1 (to_sq move) ;;
    v <- Py.int_char t1 ;;
    let cap_sq := (char_str t0 ++ Py.str (v + delta))%string in
    p2 <- set_piece p1 Piece.NONE cap_sq ;;
    Some (p2, true)
  else Some (p1, false).

(** The [# En passant] block.  Returns the flag [en_passant_capture]. *)
Definition make_move_en_passant (p : Board) (from_piece : Z) (move : Move)
    (prev_en_passant : option string) : option (Board * bool) :=
  let p0 := with_en_passant p None in
  '(p1, cap_w) <-
    (if from_piece =? Piece.WHITE_PAWN
     then make_move_pawn_en_passant p0 move prev_en_passant "2" "4" "3" (-1)
     else Some (p0, false)) ;;
  '(p2, cap_b) <-
    (if from_piece =? Piece.BLACK_PAWN
     then make_move_pawn_en_passant p1 move prev_en_passant "7" "5" "6" 1
     else Some (p1, false)) ;;
  Some (p2, cap_w || cap_b).

(** [x or default] on a piece-or-None value. *)
Definition or_default (x : option Z) (default : Z) : Z :=
  if truthy_int x then match x with Some v => v | None => default end
  else default.

(** The [# Promotion] block: the value of [promotion]. *)
Definition make_move_promotion (from_piece : Z) (move : Move) : option (option Z) :=
  white <- (if from_piece =? Piece.WHITE_PAWN
            then t1 <- Py.char_at 1 (to_sq move) ;; Some (Ascii.eqb t1 "8")
            else Some false) ;;
  if white then Some (Some (or_default (promotion move) Piece.WHITE_QUEEN))
  else
    black <- (if from_piece =? Piece.BLACK_PAWN
              then t1 <- Py.char_at 1 (to_sq move) ;; Some (Ascii.eqb t1 "1")
              else Some false) ;;
    if black then Some (Some (or_default (promotion move) Piece.BLACK_QUEEN))
    else Some None.

Definition is_pawn_piece (piece : Z) : bool :=
  (piece =? Piece.WHITE_PAWN) || (piece =? Piece.BLACK_PAWN).

(** Lines 406-414 of [make_move]: push the undo record, update the two
    counters, flip the side to move and append the new position hash. *)
Definition make_move_bookkeeping (p : Board) (record : UndoRecord) : Board :=
  let p5 := with_move_history p (move_history p ++ [record]) in
  let hm := if is_pawn_piece (u_from_piece record)
               || negb (u_to_piece record =? Piece.NONE)
               || u_en_passant_capture record
            then 0 else halfmove p5 + 1 in
  let fm := if negb (white_to_play p5) then fullmove p5 + 1 else fullmove p5 in
  let p6 := with_white_to_play (with_clocks p5 hm fm) (negb (white_to_play p5)) in
  with_position_history p6 (position_history p6 ++ [_get_position_hash p6]).

(** The board update of lines 399-405, skipped after a castle. *)
Definition make_move_board (p : Board) (from_piece : Z) (move : Move)
    (castling_move : bool) (promo : option Z) : option Board :=
  if negb castling_move then
    if truthy_int promo then
      a <- set_piece p (match promo with Some v => v | None => from_piece end)
             (to_sq move) ;;
      set_piece a Piece.NONE (from_sq move)
    else
      a <- set_piece p from_piece (to_sq move) ;;
      set_piece a Piece.NONE (from_sq move)
  else Some p.

(** Lines 327-418 of [make_move]: everything after the two early returns. *)
Definition apply_move (p : Board) (move : Move) : option (Board * MoveResult) :=
  from_piece <- get_piece p (from_sq move) ;;
  to_piece <- get_piece p (to_sq move) ;;
  let old_castling_rights := castling_rights p in
  let prev_en_passant := en_passant p in
  '(p1, castling_move) <- make_move_castling p from_piece move ;;
  let p2 := with_castling_rights p1
              (make_move_rook_rights (castling_rights p1) from_piece to_piece move) in
  '(p3, en_passant_capture) <- make_move_en_passant p2 from_piece move prev_en_passant ;;
  promo <- make_move_promotion from_piece move ;;
  let require_sync := castling_move || en_passant_capture || truthy_int promo in
  p4 <- make_move_board p3 from_piece move castling_move promo ;;
  let p7 := make_move_bookkeeping p4
    (mkUndo (mkMove (from_sq move) (to_sq move) None) from_piece to_piece
       castling_move en_passant_capture prev_en_passant old_castling_rights
       (halfmove p4) (fullmove p4) promo) in
  '(p8, final) <- is_game_over p7 ;;
  if over final
  then Some (p8, mkMoveResult (over final) (reason final) (winner final) require_sync)
  else Some (p8, mkMoveResult false None None require_sync).

Definition same_squares (move : Move) (m : Move) : bool :=
  String.eqb (from_sq m) (from_sq move) && String.eqb (to_sq m) (to_sq move).

(** [Board.make_move]. *)
Definition make_move (p : Board) (move : Move) (check_legal : bool)
    : option (Board * MoveResult) :=
  '(p0, initial) <- is_game_over p ;;
  if over initial
  then Some (p0, mkMoveResult (over initial) (reason initial) (winner initial) false)
  else
    '(p1, found) <-
      (if check_legal
       then '(q, legal_moves) <- get_moves p0 ;;
            Some (q, existsb (same_squares move) legal_moves)
       else Some (p0, true)) ;;
    if negb found
    then Some (p1, mkMoveResult true (Some "illegal move")
                     (Some (opponent_name (white_to_play p1))) false)
    else apply_move p1 move.

(** ** Undoing a move *)

(** [list.pop()]: the list without its last element, and that element. *)
Definition pop_last {A : Type} (l : list A) : option (list A * A) :=
  match rev l with
  | [] => None
  | x :: r => Some (rev r, x)
  end.

(** The rook put back by [undo_move] after a castle. *)
Definition undo_castling (p : Board) (move : Move) : option Board :=
  if String.eqb (from_sq move) "E1" && String.eqb (to_sq move) "G1" then
    a <- set_piece p Piece.WHITE_ROOK "H1" ;; set_piece a Piece.NONE "F1"
  else if String.eqb (from_sq move) "E1" && String.eqb (to_sq move) "C1" then
    a <- set_piece p Piece.WHITE_ROOK "A1" ;; set_piece a Piece.NONE "D1"
  else if String.eqb (from_sq move) "E8" && String.eqb (to_sq move) "G8" then
    a <- set_piece p Piece.BLACK_ROOK "H8" ;; set_piece a Piece.NONE "F8"
  else if String.eqb (from_sq move) "E8" && String.eqb (to_sq move) "C8" then
    a <- set_piece p Piece.BLACK_ROOK "A8" ;; set_piece a Piece.NONE "D8"
  else Some p.

(** The pawn put back by [undo_move] after an en passant capture. *)
Definition undo_en_passant (p : Board) (from_piece : Z) (move : Move) : option Board :=
  if from_piece =? Piece.WHITE_PAWN then
    t0 <- Py.char_at 0 (to_sq move) ;;
    t1 <- Py.char_at 1 (to_sq move) ;;
    v <- Py.int_char t1 ;;
    set_piece p Piece.BLACK_PAWN (char_str t0 ++ Py.str (v - 1))%string
  else if from_piece =? Piece.BLACK_PAWN then
    t0 <- Py.char_at 0 (to_sq move) ;;
    t1 <- Py.char_at 1 (to_sq move) ;;
    v <- Py.int_char t1 ;;
    set_piece p Piece.WHITE_PAWN (char_str t0 ++ Py.str (v + 1))%string
  else Some p.

(** [Board.undo_move]. *)
Definition undo_move (p : Board) : option Board :=
  match pop_last (move_history p) with
  | None => Some p
  | Some (hist, last) =>
      let p0 := with_move_history p hist in
      p1 <- set_piece p0 (u_from_piece last) (from_sq (u_move last)) ;;
      p2 <- set_piece p1 (u_to_piece last) (to_sq (u_move last)) ;;
      p3 <- (if u_castling_move last then undo_castling p2 (u_move last) else Some p2) ;;
      p4 <- (if u_en_passant_capture last
             then undo_en_passant p3 (u_from_piece last) (u_move last)
             else Some p3) ;;
      let p5 := with_en_passant (with_castling_rights p4 (u_castling_rights last))
                  (u_prev_en_passant last) in
      let p6 := with_white_to_play (with_clocks p5 (u_halfmove last) (u_fullmove last))
                  (negb (white_to_play p5)) in
      match pop_last (position_history p6) with
      | None => Some p6
      | Some (h, _) => Some (with_position_history p6 h)
      end
  end.

(** ** FEN *)

(** One rank of the placement field, as the inner loop of [get_fen]. *)
Definition fen_row (b : grid) (r : Z) : string :=
  let '(fen, empty) :=
    fold_left (fun (acc : string * Z) c =>
      let '(fen, empty) := acc in
      let ch := Piece.get_fen (bd b r c) in
      if is_empty_str ch then (fen, empty + 1)
      else
        let flushed := if 0 <? empty then (fen ++ Py.str empty)%string else fen in
        ((flushed ++ ch)%string, 0))
      range8 ("", 0) in
  if 0 <? empty then (fen ++ Py.str empty)%string else fen.

(** [Board.get_fen]. *)
Definition get_fen (p : Board) : string :=
  let castling :=
    ((if has_right p 1 then "K" else "")
     ++ (if has_right p 2 then "Q" else "")
     ++ (if has_right p 4 then "k" else "")
     ++ (if has_right p 8 then "q" else ""))%string in
  (join "/" (map (fen_row (board p)) range8)
   ++ " " ++ (if white_to_play p then "w" else "b")
   ++ " " ++ (if is_empty_str castling then "-" else castling)
   ++ " " ++ (if truthy_str (en_passant p)
              then match en_passant p with Some s => Py.lower s | None => "-" end
              else "-")
   ++ " " ++ Py.str (halfmove p)
   ++ " " ++ Py.str (fullmove p))%string.

(** [piece_map.get(ch, Chess.Piece.NONE)] in [load_fen]. *)
Definition piece_map (ch : ascii) : Z :=
  if Ascii.eqb ch "P" then Piece.WHITE_PAWN
  else if Ascii.eqb ch "N" then Piece.WHITE_KNIGHT
  else if Ascii.eqb ch "B" then Piece.WHITE_BISHOP
  else if Ascii.eqb ch "R" then Piece.WHITE_ROOK
  else if Ascii.eqb ch "Q" then Piece.WHITE_QUEEN
  else if Ascii.eqb ch "K" then Piece.WHITE_KING
  else if Ascii.eqb ch "p" then Piece.BLACK_PAWN
  else if Ascii.eqb ch "n" then Piece.BLACK_KNIGHT
  else if Ascii.eqb ch "b" then Piece.BLACK_BISHOP
  else if Ascii.eqb ch "r" then Piece.BLACK_ROOK
  else if Ascii.eqb ch "q" then Piece.BLACK_QUEEN
  else if Ascii.eqb ch "k" then Piece.BLACK_KING
  else Piece.NONE.

(** The inner loop of [load_fen] over the characters of one rank. *)
Fixpoint load_row (b : grid) (r c : Z) (row : string) : option grid :=
  match row with
  | EmptyString => Some b
  | String ch rest =>
      if Py.isdigit ch then
        v <- Py.int_char ch ;; load_row b r (c + v) rest
      else
        b1 <- grid_write b r c (piece_map ch) ;; load_row b1 r (c + 1) rest
  end.

(** The outer loop of [load_fen] over [range(8)]. *)
Fixpoint load_rows (b : grid) (rows : list string) (rs : list Z) : option grid :=
  match rs with
  | [] => Some b
  | r :: more =>
      row <- nth_error rows (Z.to_nat r) ;;
      b1 <- load_row b r 0 row ;;
      load_rows b1 rows more
  end.

Definition empty_grid : grid := repeat (repeat Piece.NONE 8%nat) 8%nat.

(** [Board.load_fen]. *)
Definition load_fen (p : Board) (fen : string) : option Board :=
  let parts := Py.split " " fen in
  match parts with
  | piece_placement :: active_color :: castling :: ep :: rest =>
      let cr := 0 in
      let cr := if Py.contains "K" castling then Z.lor cr 1 else cr in
      let cr := if Py.contains "Q" castling then Z.lor cr 2 else cr in
      let cr := if Py.contains "k" castling then Z.lor cr 4 else cr in
      let cr := if Py.contains "q" castling then Z.lor cr 8 else cr in
      hm <- match rest with h :: _ => Py.int h | [] => Some 0 end ;;
      fm <- match rest with _ :: f :: _ => Py.int f | _ => Some 1 end ;;
      let cleared :=
        fold_left (fun b '(r, c) => place b r c Piece.NONE) all_coords (board p) in
      b <- load_rows cleared (Py.split "/" piece_placement) range8 ;;
      let p1 := with_clocks
                  (with_en_passant
                     (with_castling_rights
                        (with_white_to_play (with_board p b)
                           (String.eqb active_color "w")) cr)
                     (if String.eqb ep "-" then None else Some ep)) hm fm in
      let p2 := _update_king_positions p1 in
      Some (with_position_history p2 [_get_position_hash p2])
  | _ => None
  end.

Definition DefaultFEN : string :=
  "rnbqkbnr/pppppppp/8/8/8/8/PPPPPPPP/RNBQKBNR w KQkq - 0 1".

(** [Board.__init__]: [None] or an empty string loads [DefaultFEN]. *)
Definition new_board (fen : option string) : option Board :=
  let fresh := mkBoard empty_grid None None None [] [] None None false None
                 true 0 None 0 1 in
  load_fen fresh (if truthy_str fen
                  then match fen with Some s => s | None => DefaultFEN end
                  else DefaultFEN).

(** ** The engine runs: the examples of the specification *)

Definition start : option Board := new_board None.

Definition play (p : option Board) (from to : string) : option Board :=
  q <- p ;; '(q1, _) <- make_move q (mkMove from to None) true ;; Some q1.

Definition legal_count (p : option Board) : option nat :=
  q <- p ;; '(_, ms) <- get_moves q ;; Some (List.length ms).


(** ** Vocabulary of the properties *)

(** The fields of a position named by the specification: everything the
    engine exposes except the move cache, the king cache and the timers. *)
Definition same_position (p q : Board) : Prop :=
  board q = board p
  /\ white_to_play q = white_to_play p
  /\ castling_rights q = castling_rights p
  /\ en_passant q = en_passant p
  /\ halfmove q = halfmove p
  /\ fullmove q = fullmove p
  /\ position_history q = position_history p
  /\ move_history q = move_history p.

(** The memo is usable: if its key is the hash of the position, its value
    is what a fresh computation returns. *)
Definition cache_ok (p : Board) : Prop :=
  forall ms, moves_cache p = Some (_get_position_hash p, ms) ->
             exists q, compute_moves p = Some (q, ms).

(** [make_move p move check_legal] gets past its two early returns. *)
Definition applied (p : Board) (move : Move) (check_legal : bool) : Prop :=
  exists p0 g,
    is_game_over p = Some (p0, g) /\ over g = false
    /\ (check_legal = true ->
        exists q ms, get_moves p0 = Some (q, ms)
                     /\ existsb (same_squares move) ms = true).

(** [make_move p move check_legal] takes one of its two early returns. *)
Definition refused (p : Board) (move : Move) (check_legal : bool) : Prop :=
  exists p0 g,
    is_game_over p = Some (p0, g)
    /\ (over g = true
        \/ (check_legal = true
            /\ exists q ms, get_moves p0 = Some (q, ms)
                            /\ existsb (same_squares move) ms = false)).

(** The starting position as a value. *)
Definition start_board : Board :=
  Eval vm_compute in
    match start with
    | Some p => p
    | None => mkBoard [] None None None [] [] None None false None true 0 None 0 1
    end.

(** The starting position with both timers set. *)
Definition timed_start (white_ms black_ms : option Z) : option Board :=
  option_map (fun p => set_timers p white_ms black_ms) start.

(** *** The terminal-state order, in the words of the specification *)







(** *** Castling, in the words of the specification *)


(** The attributes that the board-editing blocks of [make_move] and
    [undo_move] never assign. *)
Definition untouched (p q : Board) : Prop :=
  white_to_play q = white_to_play p
  /\ halfmove q = halfmove p
  /\ fullmove q = fullmove p
  /\ position_history q = position_history p
  /\ move_history q = move_history p
  /\ white_time q = white_time p
  /\ black_time q = black_time p
  /\ timers_enabled q = timers_enabled p
  /\ timeout_result q = timeout_result p
  /\ moves_cache q = moves_cache p.

(** *** The legality probe, in the words of the specification *)

(** Move the piece from its source to its destination square, nothing
    else: the grid after that, the piece moved and the destination. *)
Definition simulate (b : grid) (move : Move) : option (grid * Z * (Z * Z)) :=
  '(fr, fc) <- square_to_coords (from_sq move) ;;
  '(tr, tc) <- square_to_coords (to_sq move) ;;
  from_piece <- grid_read b fr fc ;;
  b1 <- grid_write b fr fc Piece.NONE ;;
  b2 <- grid_write b1 tr tc from_piece ;;
  Some (b2, from_piece, (tr, tc)).

(** After the simulated move, is the square of the mover's king attacked
    by the opponent?  The king stands on the destination if it is the piece
    that moved, on its recorded square otherwise. *)
Definition king_exposed (b : grid) (white_to_play : bool)
    (king_pos : option (Z * Z)) (move : Move) : option bool :=
  '(b2, from_piece, dest) <- simulate b move ;;
  '(kr, kc) <- (if is_king_piece from_piece then Some dest else king_pos) ;;
  Some (_is_square_attacked b2 kr kc (negb white_to_play)).

Definition mover_king (p : Board) : option (Z * Z) :=
  if white_to_play p then king_white p else king_black p.

Definition leaves_king_attacked (p : Board) (move : Move) : option bool :=
  king_exposed (board p) (white_to_play p) (mover_king p) move.

(** The verdict of the probe as a filter predicate. *)
Definition probe_ok (b : grid) (w : bool) (kp : option (Z * Z)) (m : Move) : bool :=
  match king_exposed b w kp m with
  | Some false => true
  | _ => false
  end.

(** A pinned bishop: white king e1, white bishop e2, black rook e8. *)
Definition pinned_board : Board :=
  Eval vm_compute in
    match new_board (Some "k3r3/8/8/8/8/8/4B3/4K3 w - - 0 1") with
    | Some p => p
    | None => mkBoard [] None None None [] [] None None false None true 0 None 0 1
    end.

(** The position after 1.e4 a6 2.e5 d5: white may capture en passant on
    d6. *)
Definition en_passant_board : Board :=
  Eval vm_compute in
    match play (play (play (play start "E2" "E4") "A7" "A6") "E4" "E5") "D7" "D5" with
    | Some p => p
    | None => mkBoard [] None None None [] [] None None false None true 0 None 0 1
    end.

(** The legal moves of a position that start on a given square. *)
Definition legal_moves_from (p : Board) (square : string) : option (list Move) :=
  '(_, ms) <- get_moves p ;;
  Some (filter (fun m => String.eqb (from_sq m) square) ms).

(** *** Squares as cells *)

(** The guarded read of [get_piece]. *)
Definition peek (b : grid) (r c : Z) : Z :=
  if in_board r c then bd b r c else Piece.NONE.

(** [set_piece] once its square is decoded. *)
Definition set_at (p : Board) (r c : Z) (piece : Z) : Board :=
  if in_board r c then
    let p1 := with_board p (place (board p) r c piece) in
    if piece =? Piece.WHITE_KING then with_kings p1 (Some (r, c)) (king_black p1)
    else if piece =? Piece.BLACK_KING then with_kings p1 (king_white p1) (Some (r, c))
    else p1
  else p.

(** The cell [(r, c)] is the one [set_piece] and [get_piece] reach through
    the text [square]: its decoding, or any cell off the board for the
    empty text, on which both do nothing. *)
Definition locates (square : string) (r c : Z) : Prop :=
  (is_empty_str square = true /\ in_board r c = false)
  \/ (is_empty_str square = false /\ square_to_coords square = Some (r, c)).

(** *** Bookkeeping that agrees with the grid *)

(** Every castling right still held has its rook on the corner square. *)
Definition castling_consistent (p : Board) : Prop :=
  (has_right p 1 = true -> bd (board p) 7 7 = Piece.WHITE_ROOK)
  /\ (has_right p 2 = true -> bd (board p) 7 0 = Piece.WHITE_ROOK)
  /\ (has_right p 4 = true -> bd (board p) 0 7 = Piece.BLACK_ROOK)
  /\ (has_right p 8 = true -> bd (board p) 0 0 = Piece.BLACK_ROOK).

(** The square of the pawn taken by an en passant capture onto [target],
    as [make_move] and [undo_move] compute it. *)
Definition captured_square (target : string) (white_to_play : bool) : option string :=
  t0 <- Py.char_at 0 target ;;
  t1 <- Py.char_at 1 target ;;
  v <- Py.int_char t1 ;;
  Some (char_str t0 ++ Py.str (v + (if white_to_play then -1 else 1)))%string.

(** A recorded en passant target has an enemy pawn on the square behind
    it, seen from the side to move. *)
Definition en_passant_consistent (p : Board) : Prop :=
  forall target cap r c,
    en_passant p = Some target ->
    captured_square target (white_to_play p) = Some cap ->
    square_to_coords cap = Some (r, c) ->
    in_board r c = true ->
    bd (board p) r c
    = (if white_to_play p then Piece.BLACK_PAWN else Piece.WHITE_PAWN).

(** *** The four castles *)

(** One line per castle: the king, its two squares, the rights mask, the
    home row, the columns the king and the rook land on, the rook and the
    rook's corner column. *)
Record Castle := mkCastle {
  c_king : Z;
  c_from : string;
  c_to : string;
  c_mask : Z;
  c_row : Z;
  c_king_to : Z;
  c_rook : Z;
  c_rook_to : Z;
  c_rook_from : Z
}.

Definition castles : list Castle :=
  [ mkCastle Piece.WHITE_KING "E1" "G1" 1 7 6 Piece.WHITE_ROOK 5 7;
    mkCastle Piece.WHITE_KING "E1" "C1" 2 7 2 Piece.WHITE_ROOK 3 0;
    mkCastle Piece.BLACK_KING "E8" "G8" 4 0 6 Piece.BLACK_ROOK 5 7;
    mkCastle Piece.BLACK_KING "E8" "C8" 8 0 2 Piece.BLACK_ROOK 3 0 ].

(** The grid after the king and rook of a castle have been relocated. *)
Definition castled (b : grid) (cs : Castle) : grid :=
  place (place (place (place b (c_row cs) (c_king_to cs) (c_king cs))
                  (c_row cs) 4 Piece.NONE)
           (c_row cs) (c_rook_to cs) (c_rook cs))
    (c_row cs) (c_rook_from cs) Piece.NONE.

(** Everything but the memo: the fields of [same_position], the king
    cache and the timers. *)
Definition same_but_memo (p q : Board) : Prop :=
  same_position p q
  /\ king_white q = king_white p /\ king_black q = king_black p
  /\ white_time q = white_time p /\ black_time q = black_time p
  /\ timers_enabled q = timers_enabled p
  /\ timeout_result q = timeout_result p.

(** *** What a loaded position satisfies *)

(** Every cell holds NONE or one of the twelve piece codes. *)
Definition grid_pieces_ok (b : grid) : bool :=
  forallb (forallb (fun x => (0 <=? x) && (x <=? 12))) b.

(** The king cache agrees with the grid: a recorded square is on the board
    and holds that king; no record means no such king on the board. *)
Definition king_cache_ok (p : Board) : Prop :=
  match king_white p with
  | Some (r, c) => in_board r c = true /\ bd (board p) r c = Piece.WHITE_KING
  | None => forall r c, in_board r c = true -> bd (board p) r c <> Piece.WHITE_KING
  end
  /\ match king_black p with
     | Some (r, c) => in_board r c = true /\ bd (board p) r c = Piece.BLACK_KING
     | None => forall r c, in_board r c = true -> bd (board p) r c <> Piece.BLACK_KING
     end.

(** *** Where a generated move lands *)

(** The test [friendly_start <= target <= friendly_end] of the generators. *)
Definition is_friendly (is_white : bool) (piece : Z) : bool :=
  ((if is_white then Piece.WHITE_PAWN else Piece.BLACK_PAWN) <=? piece)
  && (piece <=? (if is_white then Piece.WHITE_KING else Piece.BLACK_KING)).

(** The move lands on the board, on a square that holds no piece of the
    mover's colour. *)
Definition lands_on_board (b : grid) (is_white : bool) (m : Move) : Prop :=
  exists tr tc,
    in_board tr tc = true
    /\ to_sq m = coords_to_square tr tc
    /\ is_friendly is_white (bd b tr tc) = false.

(** The move is the one [_generate_pawn_moves] appends for the recorded
    en passant target: a pawn of the mover on row 3 (white) or 4 (black),
    the target as destination, no promotion. *)
Definition en_passant_move (p : Board) (m : Move) : Prop :=
  en_passant p = Some (to_sq m)
  /\ promotion m = None
  /\ exists r c,
       in_board r c = true
       /\ from_sq m = coords_to_square r c
       /\ is_pawn_piece (bd (board p) r c) = true
       /\ r = (if white_to_play p then 3 else 4).

(** A white pawn on a7 about to promote: kings on e1 and e8. *)
Definition promotion_board : Board :=
  Eval vm_compute in
    match new_board (Some "4k3/P7/8/8/8/8/8/4K3 w - - 0 1") with
    | Some p => p
    | None => mkBoard [] None None None [] [] None None false None true 0 None 0 1
    end.

(** *** The placement field, rank by rank *)

(** The text [get_fen] emits for a pending run of [empty] squares. *)
Definition flush (empty : Z) : string :=
  if 0 <? empty then Py.str empty else "".

(** The inner loop of [get_fen] as a function of the cells still to visit
    and of the pending run of empty squares. *)
Fixpoint enc (empty : Z) (cells : list Z) : string :=
  match cells with
  | [] => flush empty
  | x :: rest =>
      if is_empty_str (Piece.get_fen x) then enc (empty + 1) rest
      else (flush empty ++ Piece.get_fen x ++ enc 0 rest)%string
  end.

(** What the inner loop of [load_fen] writes when it reads the text of
    [cells] from column [c] on: a cell without a letter only advances the
    column. *)
Fixpoint write_cells (g : grid) (r c : Z) (cells : list Z) : grid :=
  match cells with
  | [] => g
  | x :: rest =>
      write_cells (if is_empty_str (Piece.get_fen x) then g else place g r c x)
        r (c + 1) rest
  end.

(** A recorded en passant target that [get_fen] can write as one field:
    it holds no space and is not the text "-". *)
Definition en_passant_writable (p : Board) : Prop :=
  forall s, en_passant p = Some s -> Py.contains " " s = false /\ s <> "-".

(** The en passant target after [get_fen] and [load_fen]: in lower case. *)
Definition lowered_en_passant (p : Board) : option string :=
  if truthy_str (en_passant p) then option_map Py.lower (en_passant p) else None.

(** *** Positions that bound the claims *)


(** Black to move after 1.Kd1 from a position loaded with a halfmove clock
    of 99: the clock is 100 and the game is drawn, yet black has moves. *)
Definition fifty_move_board : Board :=
  Eval vm_compute in
    match play (new_board (Some "4k3/8/8/8/8/8/4P3/4K3 w - - 99 60")) "E1" "D1" with
    | Some p => p
    | None => mkBoard [] None None None [] [] None None false None true 0 None 0 1
    end.

(** The kingside right without a rook on h1. *)
Definition rookless_board : Board :=
  Eval vm_compute in
    match new_board (Some "4k3/p7/8/8/8/8/P7/4K3 w K - 0 1") with
    | Some p => p
    | None => mkBoard [] None None None [] [] None None false None true 0 None 0 1
    end.

(** An en passant target d3 without a white pawn on d4. *)
Definition phantom_en_passant_board : Board :=
  Eval vm_compute in
    match new_board (Some "4k3/8/8/8/4p3/8/8/4K3 b - D3 0 1") with
    | Some p => p
    | None => mkBoard [] None None None [] [] None None false None true 0 None 0 1
    end.


(** *** Boards of a game in play *)

(** The Boards obtained from [Board(fen)] by calls of [get_moves],
    [is_game_over], [make_move], [set_timers] and
    [decrement_current_player_timer] that return. *)
Inductive in_play : Board -> Prop :=
| in_play_new (fen : option string) (p : Board) :
    new_board fen = Some p -> in_play p
| in_play_get_moves (p q : Board) (ms : list Move) :
    in_play p -> get_moves p = Some (q, ms) -> in_play q
| in_play_is_game_over (p q : Board) (g : GameOver) :
    in_play p -> is_game_over p = Some (q, g) -> in_play q
| in_play_make_move (p q : Board) (m : Move) (cl : bool) (res : MoveResult) :
    in_play p -> make_move p m cl = Some (q, res) -> in_play q
| in_play_set_timers (p : Board) (white_ms black_ms : option Z) :
    in_play p -> in_play (set_timers p white_ms black_ms)
| in_play_decrement (p : Board) (ms : Z) :
    in_play p -> in_play (fst (decrement_current_player_timer p ms)).

(** *** Square names for any arguments *)

(** [Chess.coords_to_square] as Python evaluates [FILES[c] + RANKS[r]] for
    arbitrary integers: each subscript wraps once from the end and raises
    [IndexError] outside -8..7. *)
Definition coords_to_square_unchecked (r c : Z) : option string :=
  i <- Py.index (List.length FILES) c ;;
  j <- Py.index (List.length RANKS) r ;;
  Some (nth i FILES "" ++ nth j RANKS "")%string.

(** King e1, bishop f1 and rook h1 with the kingside right, and a memo
    that was changed after [get_moves] stored it: it lists the castle
    e1-g1, which the generator withholds because f1 is occupied. *)
Definition blocked_castle_board : Board :=
  Eval vm_compute in
    match new_board (Some "4k3/8/8/8/8/8/8/4KB1R w K - 0 1") with
    | Some p => p
    | None => mkBoard [] None None None [] [] None None false None true 0 None 0 1
    end.

Definition stale_castle_board : Board :=
  with_cache blocked_castle_board
    (Some (_get_position_hash blocked_castle_board, [mkMove "E1" "G1" None])).

(*DEFS-END*)

(** * Properties of the engine *)

(** ** Lists and the grid *)

Lemma lupd_length {A : Type} (l : list A) (i : nat) (x : A) :
  List.length (lupd l i x) = List.length l.
Proof.
  revert i; induction l as [|h t IH]; intros [|i]; simpl; auto.
Qed.

Lemma nth_error_lupd {A : Type} (l : list A) (i k : nat) (x : A) :
  nth_error (lupd l i x) k =
  if Nat.eqb i k
  then match nth_error l i with Some _ => Some x | None => None end
  else nth_error l k.
Proof.
  revert i k; induction l as [|h t IH]; intros [|i] [|k]; simpl; auto;
    try (destruct (Nat.eqb i k); reflexivity).
Qed.

Lemma lupd_same {A : Type} (l : list A) (i : nat) (x : A) :
  nth_error l i = Some x -> lupd l i x = l.
Proof.
  intros H. apply nth_error_ext. intros k. rewrite nth_error_lupd.
  destruct (Nat.eqb_spec i k) as [->|]; [rewrite H|]; reflexivity.
Qed.

Lemma nth_error_upd (b : grid) (i j k : nat) (x : Z) :
  nth_error (upd b i j x) k =
  if Nat.eqb i k
  then option_map (fun row => lupd row j x) (nth_error b i)
  else nth_error b k.
Proof.
  unfold upd. destruct (nth_error b i) as [row|] eqn:E.
  - rewrite nth_error_lupd, E. reflexivity.
  - destruct (Nat.eqb_spec i k) as [->|]; [rewrite E|]; reflexivity.
Qed.

Lemma upd_length (b : grid) (i j : nat) (x : Z) :
  List.length (upd b i j x) = List.length b.
Proof.
  unfold upd. destruct (nth_error b i); [apply lupd_length | reflexivity].
Qed.

Lemma upd_row_length (b : grid) (i j k : nat) (x : Z) :
  option_map (@List.length Z) (nth_error (upd b i j x) k)
  = option_map (@List.length Z) (nth_error b k).
Proof.
  rewrite nth_error_upd. destruct (Nat.eqb_spec i k) as [->|]; [|reflexivity].
  destruct (nth_error b k); simpl; [rewrite lupd_length|]; reflexivity.
Qed.

Lemma cell_upd (b : grid) (i j k l : nat) (x : Z) :
  cell (upd b i j x) k l =
  if Nat.eqb i k && Nat.eqb j l
  then match cell b i j with Some _ => Some x | None => None end
  else cell b k l.
Proof.
  unfold cell. rewrite nth_error_upd.
  destruct (Nat.eqb_spec i k) as [->|]; simpl; [|reflexivity].
  destruct (nth_error b k) as [row|]; simpl.
  - apply nth_error_lupd.
  - destruct (Nat.eqb j l); reflexivity.
Qed.

(** Two grids of the same shape with the same cells are equal. *)
Lemma grid_ext (b1 b2 : grid) :
  map (@List.length Z) b1 = map (@List.length Z) b2 ->
  (forall k l, cell b1 k l = cell b2 k l) ->
  b1 = b2.
Proof.
  intros Hshape Hcell. apply nth_error_ext. intros k.
  assert (Hk : option_map (@List.length Z) (nth_error b1 k)
               = option_map (@List.length Z) (nth_error b2 k)).
  { rewrite <- !nth_error_map, Hshape. reflexivity. }
  specialize (Hcell k). unfold cell in Hcell.
  destruct (nth_error b1 k) as [r1|], (nth_error b2 k) as [r2|];
    simpl in Hk; try discriminate; [|reflexivity].
  f_equal. apply nth_error_ext. exact Hcell.
Qed.

Lemma upd_shape (b : grid) (i j : nat) (x : Z) :
  map (@List.length Z) (upd b i j x) = map (@List.length Z) b.
Proof.
  apply nth_error_ext. intros k. rewrite !nth_error_map. apply upd_row_length.
Qed.

Lemma upd_same (b : grid) (i j : nat) (x : Z) :
  cell b i j = Some x -> upd b i j x = b.
Proof.
  intros H. apply grid_ext; [apply upd_shape|].
  intros k l. rewrite cell_upd.
  destruct (Nat.eqb_spec i k) as [->|]; simpl; [|reflexivity].
  destruct (Nat.eqb_spec j l) as [->|]; [rewrite H|]; reflexivity.
Qed.

Lemma upd_upd (b : grid) (i j : nat) (x y : Z) :
  upd (upd b i j x) i j y = upd b i j y.
Proof.
  apply grid_ext; [rewrite !upd_shape; reflexivity|].
  intros k l. rewrite !cell_upd.
  destruct (Nat.eqb i k && Nat.eqb j l) eqn:E; [|reflexivity].
  rewrite !Nat.eqb_refl. simpl. destruct (cell b i j); reflexivity.
Qed.

Lemma upd_comm (b : grid) (i j i' j' : nat) (x y : Z) :
  (i, j) <> (i', j') ->
  upd (upd b i j x) i' j' y = upd (upd b i' j' y) i j x.
Proof.
  intros Hne. apply grid_ext; [rewrite !upd_shape; reflexivity|].
  intros k l. rewrite !cell_upd.
  repeat match goal with
         | |- context [Nat.eqb ?a ?b] => destruct (Nat.eqb_spec a b); subst; simpl
         end;
    try reflexivity; try congruence.
Qed.

Lemma index_bound (n : nat) (i : Z) (k : nat) :
  Py.index n i = Some k -> (k < n)%nat.
Proof.
  unfold Py.index. intros H.
  destruct ((0 <=? i) && (i <? Z.of_nat n)) eqn:E1.
  - injection H as <-. lia.
  - destruct ((- Z.of_nat n <=? i) && (i <? 0)) eqn:E2; [|discriminate].
    injection H as <-. lia.
Qed.

Lemma grid_pos_upd (b : grid) (i j : nat) (x : Z) (r c : Z) :
  grid_pos (upd b i j x) r c = grid_pos b r c.
Proof.
  unfold grid_pos. rewrite upd_length.
  destruct (Py.index (List.length b) r) as [k|]; simpl; [|reflexivity].
  pose proof (upd_row_length b i j k x) as Hrow.
  destruct (nth_error (upd b i j x) k) as [r1|], (nth_error b k) as [r2|];
    simpl in *; try discriminate; [|reflexivity].
  injection Hrow as ->. reflexivity.
Qed.

Lemma grid_pos_cell (b : grid) (r c : Z) (i j : nat) :
  grid_pos b r c = Some (i, j) -> exists v, cell b i j = Some v.
Proof.
  unfold grid_pos, cell. intros H.
  destruct (Py.index (List.length b) r) as [k|]; simpl in H; [|discriminate].
  destruct (nth_error b k) as [row|] eqn:Erow; simpl in H; [|discriminate].
  destruct (Py.index (List.length row) c) as [l|] eqn:El; simpl in H; [|discriminate].
  injection H as <- <-. rewrite Erow.
  apply index_bound in El. apply nth_error_Some in El.
  destruct (nth_error row l) as [v|]; [eauto | congruence].
Qed.

(** ** The legality probe leaves the grid as it found it *)

Ltac bind_inv H :=
  match type of H with
  | bind ?e _ = Some _ =>
      let E := fresh "E" in
      revert H; destruct e eqn:E; cbn [bind]; intros H; [|discriminate H]
  end.

Lemma is_move_legal_restores (b b' : grid) (w ok : bool) (m : Move)
    (kp : option (Z * Z)) :
  _is_move_legal b w m kp = Some (b', ok) -> b' = b.
Proof.
  unfold _is_move_legal, grid_read, grid_write. intros H.
  bind_inv H. destruct p as [fr fc].
  bind_inv H. destruct p as [tr tc].
  bind_inv H. rename z into from_piece.
  bind_inv H. rename z into to_piece.
  destruct (grid_pos b fr fc) as [[i j]|] eqn:Pf; [|discriminate].
  destruct (grid_pos b tr tc) as [[i' j']|] eqn:Pt; [|discriminate].
  cbn [bind] in *. rewrite grid_pos_upd, Pt in H. cbn [bind] in H.
  destruct (if is_king_piece from_piece then Some (tr, tc) else kp) as [[kr kc]|];
    cbn [bind] in H; [|discriminate].
  rewrite !grid_pos_upd, Pf in H. cbn [bind] in H.
  rewrite !grid_pos_upd, Pt in H. cbn [bind] in H.
  injection H as <- _.
  assert (Hcases : (i, j) = (i', j') \/ (i, j) <> (i', j')).
  { destruct (Nat.eq_dec i i') as [->|]; [destruct (Nat.eq_dec j j') as [->|]|];
      [left; reflexivity | right; congruence | right; congruence]. }
  destruct Hcases as [Heq|Hne].
  - injection Heq as <- <-. rewrite !upd_upd. apply upd_same. assumption.
  - rewrite <- (upd_comm (upd b i j Piece.NONE) i j i' j') by assumption.
    rewrite !upd_upd.
    match goal with
    | Hf : cell b i j = Some from_piece |- _ => rewrite (upd_same b i j from_piece Hf)
    end.
    apply upd_same. assumption.
Qed.

Lemma filter_legal_loop_restores (moves : list Move) :
  forall b b' w kp legal,
    filter_legal_loop b w kp moves = Some (b', legal) -> b' = b.
Proof.
  induction moves as [|m rest IH]; simpl; intros b b' w kp legal H.
  - injection H as <- _. reflexivity.
  - bind_inv H. destruct p as [b1 ok].
    bind_inv H. destruct p as [b2 l2].
    injection H as <- _.
    match goal with
    | H1 : _is_move_legal _ _ _ _ = _, H2 : filter_legal_loop _ _ _ _ = _ |- _ =>
        apply is_move_legal_restores in H1; apply IH in H2; congruence
    end.
Qed.

(** ** What the queries change: only the memo *)

Lemma with_board_id (p : Board) : with_board p (board p) = p.
Proof. destruct p; reflexivity. Qed.

Lemma with_cache_id (p : Board) : with_cache p (moves_cache p) = p.
Proof. destruct p; reflexivity. Qed.

Lemma filter_legal_moves_state (p q : Board) (moves legal : list Move) :
  _filter_legal_moves p moves = Some (q, legal) -> q = p.
Proof.
  unfold _filter_legal_moves. intros H. bind_inv H. destruct p0 as [b l].
  injection H as <- _.
  match goal with
  | H1 : filter_legal_loop _ _ _ _ = _ |- _ =>
      apply filter_legal_loop_restores in H1; subst b
  end.
  apply with_board_id.
Qed.

Lemma compute_moves_state (p q : Board) (ms : list Move) :
  compute_moves p = Some (q, ms) ->
  q = with_cache p (Some (_get_position_hash p, ms)).
Proof.
  unfold compute_moves. intros H. bind_inv H. bind_inv H. destruct p0 as [p1 legal].
  injection H as <- <-.
  match goal with
  | H1 : _filter_legal_moves _ _ = _ |- _ =>
      apply filter_legal_moves_state in H1; subst p1
  end.
  reflexivity.
Qed.

Lemma get_moves_state (p q : Board) (ms : list Move) :
  get_moves p = Some (q, ms) ->
  q = with_cache p (Some (_get_position_hash p, ms)).
Proof.
  unfold get_moves. intros H.
  destruct (moves_cache p) as [[h cached]|] eqn:Ec;
    [destruct (String.eqb_spec h (_get_position_hash p)) as [->|]|];
    try (apply compute_moves_state; exact H).
  injection H as <- <-. rewrite <- Ec. symmetry. apply with_cache_id.
Qed.

(** A second query is a cache hit and returns the same list. *)
Lemma get_moves_again (p q : Board) (ms : list Move) :
  get_moves p = Some (q, ms) -> get_moves q = Some (q, ms).
Proof.
  intros H. apply get_moves_state in H. subst q.
  unfold get_moves. cbn [moves_cache with_cache].
  change (_get_position_hash (with_cache p (Some (_get_position_hash p, ms))))
    with (_get_position_hash p).
  rewrite String.eqb_refl. reflexivity.
Qed.

Lemma is_game_over_state (p q : Board) (g : GameOver) :
  is_game_over p = Some (q, g) -> q = with_cache p (moves_cache q).
Proof.
  unfold is_game_over. intros H.
  destruct (if timers_enabled p then timeout_result p else None).
  { injection H as <- _. symmetry; apply with_cache_id. }
  destruct (100 <=? halfmove p).
  { injection H as <- _. symmetry; apply with_cache_id. }
  destruct (is_insufficient_material p).
  { injection H as <- _. symmetry; apply with_cache_id. }
  destruct (is_threefold_repetition p).
  { injection H as <- _. symmetry; apply with_cache_id. }
  bind_inv H. destruct p0 as [p1 moves].
  match goal with
  | H1 : get_moves _ = _ |- _ => apply get_moves_state in H1; subst p1
  end.
  destruct moves;
    [destruct (is_king_attacked _ _)|]; injection H as <- _; reflexivity.
Qed.

(** A game that is not over has been asked for its moves, and has some. *)
Lemma is_game_over_continue (p q : Board) (g : GameOver) :
  is_game_over p = Some (q, g) -> over g = false ->
  exists m ms, get_moves p = Some (q, m :: ms).
Proof.
  unfold is_game_over. intros H Hover.
  destruct (if timers_enabled p then timeout_result p else None).
  { injection H as _ <-. discriminate. }
  destruct (100 <=? halfmove p).
  { injection H as _ <-. discriminate. }
  destruct (is_insufficient_material p).
  { injection H as _ <-. discriminate. }
  destruct (is_threefold_repetition p).
  { injection H as _ <-. discriminate. }
  bind_inv H. destruct p0 as [p1 moves].
  destruct moves as [|m ms].
  - destruct (is_king_attacked _ _); injection H as _ <-; discriminate.
  - injection H as <- _. eauto.
Qed.

Lemma same_position_with_cache (p : Board) (k : option (string * list Move)) :
  same_position p (with_cache p k).
Proof. repeat split. Qed.

(** ** Early returns of [make_move] *)

(** An early return hands back the position with at most a new memo. *)
Lemma make_move_refused_state (p q : Board) (move : Move) (check_legal : bool)
    (res : MoveResult) :
  make_move p move check_legal = Some (q, res) ->
  refused p move check_legal ->
  exists k, q = with_cache p k.
Proof.
  intros Hmm (p0 & g & Hgo & Hwhy).
  unfold make_move in Hmm. rewrite Hgo in Hmm. cbn [bind] in Hmm.
  pose proof (is_game_over_state _ _ _ Hgo) as Hp0.
  destruct (over g) eqn:Hover.
  - injection Hmm as <- _. eauto.
  - destruct Hwhy as [Habs | (-> & q1 & ms & Hq1 & Hnone)]; [discriminate|].
    rewrite Hq1 in Hmm. cbn [bind] in Hmm. rewrite Hnone in Hmm. cbn [negb] in Hmm.
    injection Hmm as <- _.
    apply get_moves_state in Hq1. rewrite Hq1, Hp0. eexists. reflexivity.
Qed.

(** C4.  In a position where the game is not over, [make_move] with
    [check_legal] set, given a move whose from/to pair matches no legal
    move, returns (it does not raise) the result "over, illegal move, won
    by the opponent of the side to move", with no synchronisation
    required. *)
Theorem illegal_move_forfeits (p p0 : Board) (g : GameOver) (move : Move) :
  is_game_over p = Some (p0, g) ->
  over g = false ->
  (forall q ms, get_moves p = Some (q, ms) ->
                existsb (same_squares move) ms = false) ->
  make_move p move true
  = Some (p0, mkMoveResult true (Some "illegal move")
                (Some (opponent_name (white_to_play p))) false).
Proof.
  intros Hgo Hover Hnone.
  destruct (is_game_over_continue _ _ _ Hgo Hover) as (m & ms & Hmoves).
  unfold make_move. rewrite Hgo. cbn [bind]. rewrite Hover.
  rewrite (get_moves_again _ _ _ Hmoves). cbn [bind].
  rewrite (Hnone _ _ Hmoves). cbn [negb].
  apply get_moves_state in Hmoves. subst p0. reflexivity.
Qed.

Lemma illegal_move_forfeits_witness :
  exists p, start = Some p
    /\ option_map snd (make_move p (mkMove "E2" "E5" None) true)
       = Some (mkMoveResult true (Some "illegal move") (Some "black") false).
Proof.
  eexists. split; [vm_compute; reflexivity|].
  erewrite illegal_move_forfeits.
  - reflexivity.
  - vm_compute. reflexivity.
  - reflexivity.
  - intros q ms H. vm_compute in H. injection H as _ <-. reflexivity.
Defined.

(** C10.  When [make_move] returns through one of its early exits (the
    game was already over, or [check_legal] is set and no legal move has
    the requested from/to pair), the board, side to move, castling rights,
    en passant target, both counters and both histories are those of the
    position before the call. *)
Theorem refused_move_leaves_position (p q : Board) (move : Move)
    (check_legal : bool) (res : MoveResult) :
  make_move p move check_legal = Some (q, res) ->
  refused p move check_legal ->
  same_position p q.
Proof.
  intros Hmm Href.
  destruct (make_move_refused_state _ _ _ _ _ Hmm Href) as (k & ->).
  apply same_position_with_cache.
Qed.

Lemma refused_move_leaves_position_witness :
  exists p q res,
    new_board (Some "rnbqkbnr/pppppppp/8/8/8/8/PPPPPPPP/RNBQKBNR w KQkq - 100 60") = Some p
    /\ make_move p (mkMove "E2" "E4" None) true = Some (q, res)
    /\ m_reason res = Some "50-move rule"
    /\ same_position p q.
Proof.
  eexists. eexists. eexists.
  split; [vm_compute; reflexivity|].
  split; [vm_compute; reflexivity|].
  split; [reflexivity|].
  match goal with
  | |- same_position ?p ?q =>
      apply (refused_move_leaves_position p q (mkMove "E2" "E4" None) true
               (mkMoveResult true (Some "50-move rule") (Some "draw") false))
  end.
  - vm_compute. reflexivity.
  - eexists. eexists. split; [vm_compute; reflexivity|]. left. reflexivity.
Defined.

(** ** Timers *)

(** C9.  With timers enabled and a timer set for the side to move,
    [decrement_current_player_timer p ms] subtracts [ms] from that side's
    time; when the difference is zero or below, the time becomes exactly 0,
    the timeout "won by the opponent, reason timeout" is latched and the
    call returns true; when it is positive the call returns false and the
    latch keeps its value.  With timers disabled, or no timer for the side
    to move, the call returns false and changes nothing. *)
Theorem decrement_timer_spec (p : Board) (ms : Z) :
  (forall t,
      timers_enabled p = true ->
      get_player_time p (white_to_play p) = Some t ->
      let q := fst (decrement_current_player_timer p ms) in
      let timed_out := snd (decrement_current_player_timer p ms) in
      white_to_play q = white_to_play p
      /\ get_player_time q (negb (white_to_play p))
         = get_player_time p (negb (white_to_play p))
      /\ if t - ms <=? 0
         then get_player_time q (white_to_play p) = Some 0
              /\ timeout_result q
                 = Some (mkTimeout (opponent_name (white_to_play p)) "timeout")
              /\ timed_out = true
         else get_player_time q (white_to_play p) = Some (t - ms)
              /\ timeout_result q = timeout_result p
              /\ timed_out = false)
  /\ (timers_enabled p = false \/ get_player_time p (white_to_play p) = None ->
      decrement_current_player_timer p ms = (p, false)).
Proof.
  unfold decrement_current_player_timer, get_player_time. split.
  - intros t Hen Ht. rewrite Hen. cbn [negb].
    destruct (white_to_play p) eqn:Hw; rewrite Ht.
    + destruct (t - ms <=? 0); cbn; rewrite ?Hw; auto.
    + destruct (white_time p); destruct (t - ms <=? 0); cbn; rewrite ?Hw; auto.
  - intros [Hoff | Hnone].
    + rewrite Hoff. reflexivity.
    + destruct (timers_enabled p); [|reflexivity]. cbn [negb].
      destruct (white_to_play p); rewrite Hnone; [reflexivity|].
      destruct (white_time p); reflexivity.
Qed.

Lemma decrement_timer_spec_witness :
  exists p, timed_start (Some 500) (Some 900) = Some p
    /\ snd (decrement_current_player_timer p 500) = true
    /\ timeout_result (fst (decrement_current_player_timer p 500))
       = Some (mkTimeout "black" "timeout")
    /\ white_time (fst (decrement_current_player_timer p 500)) = Some 0
    /\ snd (decrement_current_player_timer p 499) = false.
Proof.
  eexists. split; [vm_compute; reflexivity|].
  match goal with
  | |- snd (decrement_current_player_timer ?p _) = _ /\ _ =>
      pose proof (proj1 (decrement_timer_spec p 500) 500 eq_refl eq_refl) as H1;
      pose proof (proj1 (decrement_timer_spec p 499) 500 eq_refl eq_refl) as H2
  end.
  cbv zeta in H1, H2.
  destruct H1 as (_ & _ & H1). destruct H2 as (_ & _ & H2).
  change (500 - 500 <=? 0) with true in H1. change (500 - 499 <=? 0) with false in H2.
  cbv iota in H1, H2.
  destruct H1 as (Ha & Hb & Hc). destruct H2 as (_ & _ & Hd).
  repeat split; assumption.
Defined.

(** ** Terminal states *)





(** ** Castling rights as bits *)



(** ** Castling generation *)

Lemma offset_moves_in (b : grid) (r c : Z) (from : string) (w : bool)
    (offs : list (Z * Z)) (m : Move) :
  In m (offset_moves b r c from w offs) ->
  exists dr dc, In (dr, dc) offs /\ in_board (r + dr) (c + dc) = true
                /\ m = mkMove from (coords_to_square (r + dr) (c + dc)) None.
Proof.
  unfold offset_moves. intros H. apply in_flat_map in H.
  destruct H as ([dr dc] & Hin & Hm). exists dr, dc.
  destruct (in_board (r + dr) (c + dc)); [|contradiction].
  match type of Hm with
  | In _ (if ?cond then _ else _) => destruct cond
  end; [|contradiction].
  destruct Hm as [<-|[]]. auto.
Qed.

(** A king's step from its home square never lands two files away. *)
Lemma king_step_not_castle (b : grid) (r c : Z) (w : bool) (m : Move) :
  (r, c) = (7, 4) \/ (r, c) = (0, 4) ->
  In m (offset_moves b r c (coords_to_square r c) w king_moves) ->
  ~ In (to_sq m) ["G1"; "C1"; "G8"; "C8"].
Proof.
  intros Hhome H. apply offset_moves_in in H.
  destruct H as (dr & dc & Hin & _ & ->).
  destruct Hhome as [E|E]; injection E as -> ->;
    repeat (destruct Hin as [E|Hin]; [injection E as <- <-; vm_compute; intuition discriminate|]);
    destruct Hin.
Qed.

Lemma in_singleton_if (A : Type) (cond : bool) (x y : A) :
  In x (if cond then [y] else []) <-> cond = true /\ y = x.
Proof.
  destruct cond; simpl; intuition congruence.
Qed.



(** A rook on the f-file attacks f1: kingside castling is withheld while
    queenside castling stays available. *)
Example castling_through_check :
  exists p, new_board (Some "4kr2/8/8/8/8/8/8/R3K2R w KQ - 0 1") = Some p
    /\ ~ In (mkMove "E1" "G1" None) (_generate_king_moves p 7 4 "E1" true)
    /\ In (mkMove "E1" "C1" None) (_generate_king_moves p 7 4 "E1" true).
Proof.
  eexists. split; [vm_compute; reflexivity|].
  split.
  - vm_compute. intuition discriminate.
  - vm_compute. intuition.
Qed.

(** ** What the blocks of [make_move] change *)

Lemma untouched_refl (p : Board) : untouched p p.
Proof. repeat split. Qed.

Lemma untouched_trans (p q r : Board) :
  untouched p q -> untouched q r -> untouched p r.
Proof.
  unfold untouched. intuition congruence.
Qed.

Lemma set_piece_frame (p q : Board) (x : Z) (sq : string) :
  set_piece p x sq = Some q ->
  untouched p q /\ castling_rights q = castling_rights p
  /\ en_passant q = en_passant p.
Proof.
  unfold set_piece. intros H.
  destruct (is_empty_str sq).
  { injection H as <-. repeat split. }
  bind_inv H. destruct p0 as [r c].
  destruct (in_board r c); [|injection H as <-; repeat split].
  destruct (x =? Piece.WHITE_KING); [injection H as <-; repeat split|].
  destruct (x =? Piece.BLACK_KING); injection H as <-; repeat split.
Qed.

Ltac frame_step H :=
  let U := fresh "U" in let R := fresh "R" in let P := fresh "P" in
  apply set_piece_frame in H; destruct H as (U & R & P).

Lemma set_piece4_frame (p q : Board) (x1 x2 x3 x4 : Z) (s1 s2 s3 s4 : string) :
  (a <- set_piece p x1 s1 ;; b <- set_piece a x2 s2 ;;
   c <- set_piece b x3 s3 ;; d <- set_piece c x4 s4 ;; Some (d, true))
  = Some (q, true) ->
  untouched p q /\ castling_rights q = castling_rights p
  /\ en_passant q = en_passant p.
Proof.
  intros H. bind_inv H. bind_inv H. bind_inv H. bind_inv H.
  injection H as <-.
  repeat match goal with
         | H1 : set_piece _ _ _ = Some _ |- _ => frame_step H1
         end.
  unfold untouched in *. intuition congruence.
Qed.

Lemma make_move_castling_frame (p q : Board) (fp : Z) (m : Move) (cm : bool) :
  make_move_castling p fp m = Some (q, cm) ->
  untouched p q /\ en_passant q = en_passant p
  /\ (castling_rights q = castling_rights p
      \/ castling_rights q = clear_bits (castling_rights p) 3
      \/ castling_rights q = clear_bits (castling_rights p) 12).
Proof.
  unfold make_move_castling. intros H.
  destruct ((fp =? Piece.WHITE_KING) && String.eqb (from_sq m) "E1").
  { bind_inv H. destruct p0 as [p1 c]. injection H as <- <-.
    assert (F : untouched p p1 /\ castling_rights p1 = castling_rights p
                /\ en_passant p1 = en_passant p).
    { destruct (String.eqb (to_sq m) "G1" && has_right p 1);
        [|destruct (String.eqb (to_sq m) "C1" && has_right p 2)].
      - match goal with
        | H1 : _ = Some (p1, c) |- _ =>
            assert (c = true) by (repeat bind_inv H1; congruence); subst c;
            exact (set_piece4_frame _ _ _ _ _ _ _ _ _ _ H1)
        end.
      - match goal with
        | H1 : _ = Some (p1, c) |- _ =>
            assert (c = true) by (repeat bind_inv H1; congruence); subst c;
            exact (set_piece4_frame _ _ _ _ _ _ _ _ _ _ H1)
        end.
      - match goal with
        | H1 : Some _ = Some (p1, c) |- _ => injection H1 as <- <-
        end. repeat split. }
    destruct F as (U & R & P). cbn. rewrite R. unfold untouched in *. intuition. }
  destruct ((fp =? Piece.BLACK_KING) && String.eqb (from_sq m) "E8").
  { bind_inv H. destruct p0 as [p1 c]. injection H as <- <-.
    assert (F : untouched p p1 /\ castling_rights p1 = castling_rights p
                /\ en_passant p1 = en_passant p).
    { destruct (String.eqb (to_sq m) "G8" && has_right p 4);
        [|destruct (String.eqb (to_sq m) "C8" && has_right p 8)].
      - match goal with
        | H1 : _ = Some (p1, c) |- _ =>
            assert (c = true) by (repeat bind_inv H1; congruence); subst c;
            exact (set_piece4_frame _ _ _ _ _ _ _ _ _ _ H1)
        end.
      - match goal with
        | H1 : _ = Some (p1, c) |- _ =>
            assert (c = true) by (repeat bind_inv H1; congruence); subst c;
            exact (set_piece4_frame _ _ _ _ _ _ _ _ _ _ H1)
        end.
      - match goal with
        | H1 : Some _ = Some (p1, c) |- _ => injection H1 as <- <-
        end. repeat split. }
    destruct F as (U & R & P). cbn. rewrite R. unfold untouched in *. intuition. }
  injection H as <- _. split; [apply untouched_refl|]. auto.
Qed.

Lemma make_move_pawn_en_passant_frame (p q : Board) (m : Move)
    (prev : option string) (start landing : ascii) (mid : string) (delta : Z)
    (cap : bool) :
  make_move_pawn_en_passant p m prev start landing mid delta = Some (q, cap) ->
  untouched p q /\ castling_rights q = castling_rights p.
Proof.
  unfold make_move_pawn_en_passant. intros H.
  bind_inv H. bind_inv H. bind_inv H. bind_inv H.
  assert (F : untouched p b0 /\ castling_rights b0 = castling_rights p).
  { match goal with
    | H1 : (if b then _ else _) = Some b0 |- _ =>
        destruct b; [bind_inv H1|]; injection H1 as <-; repeat split
    end. }
  destruct F as (U & R).
  destruct b1.
  - bind_inv H. bind_inv H. bind_inv H. bind_inv H. injection H as <- _.
    match goal with
    | H1 : set_piece _ _ _ = Some _ |- _ => frame_step H1
    end.
    split; [eapply untouched_trans; eassumption | congruence].
  - injection H as <- _. auto.
Qed.

Lemma make_move_en_passant_frame (p q : Board) (fp : Z) (m : Move)
    (prev : option string) (cap : bool) :
  make_move_en_passant p fp m prev = Some (q, cap) ->
  untouched p q /\ castling_rights q = castling_rights p.
Proof.
  unfold make_move_en_passant. intros H.
  bind_inv H. destruct p0 as [p1 cw]. bind_inv H. destruct p0 as [p2 cb].
  injection H as <- _.
  assert (F1 : untouched p p1 /\ castling_rights p1 = castling_rights p).
  { match goal with
    | H1 : (if fp =? Piece.WHITE_PAWN then _ else _) = Some (p1, cw) |- _ =>
        destruct (fp =? Piece.WHITE_PAWN);
        [apply make_move_pawn_en_passant_frame in H1; exact H1
        |injection H1 as <- _; repeat split]
    end. }
  assert (F2 : untouched p1 p2 /\ castling_rights p2 = castling_rights p1).
  { match goal with
    | H1 : (if fp =? Piece.BLACK_PAWN then _ else _) = Some (p2, cb) |- _ =>
        destruct (fp =? Piece.BLACK_PAWN);
        [apply make_move_pawn_en_passant_frame in H1; exact H1
        |injection H1 as <- _; repeat split]
    end. }
  destruct F1, F2. split; [eapply untouched_trans; eassumption | congruence].
Qed.

Lemma make_move_board_frame (p q : Board) (fp : Z) (m : Move) (cm : bool)
    (promo : option Z) :
  make_move_board p fp m cm promo = Some q ->
  untouched p q /\ castling_rights q = castling_rights p
  /\ en_passant q = en_passant p.
Proof.
  unfold make_move_board. intros H.
  destruct cm; cbn [negb] in H.
  { injection H as <-. repeat split. }
  destruct (truthy_int promo); bind_inv H;
    repeat match goal with
           | H1 : set_piece _ _ _ = Some _ |- _ => frame_step H1
           end;
    unfold untouched in *; intuition congruence.
Qed.

Lemma make_move_en_passant_flag (p q : Board) (fp : Z) (m : Move)
    (prev : option string) :
  make_move_en_passant p fp m prev = Some (q, true) -> is_pawn_piece fp = true.
Proof.
  unfold make_move_en_passant, is_pawn_piece. intros H.
  destruct (fp =? Piece.WHITE_PAWN); [reflexivity|].
  destruct (fp =? Piece.BLACK_PAWN); [reflexivity|].
  cbn [bind] in H. discriminate.
Qed.

(** The decomposition of a successful [apply_move]. *)
Lemma apply_move_inv (p q : Board) (m : Move) (res : MoveResult) :
  apply_move p m = Some (q, res) ->
  exists fp tp p1 cm p3 epc promo p4 final,
    get_piece p (from_sq m) = Some fp
    /\ get_piece p (to_sq m) = Some tp
    /\ make_move_castling p fp m = Some (p1, cm)
    /\ make_move_en_passant
         (with_castling_rights p1
            (make_move_rook_rights (castling_rights p1) fp tp m))
         fp m (en_passant p) = Some (p3, epc)
    /\ make_move_promotion fp m = Some promo
    /\ make_move_board p3 fp m cm promo = Some p4
    /\ is_game_over
         (make_move_bookkeeping p4
            (mkUndo (mkMove (from_sq m) (to_sq m) None) fp tp cm epc
               (en_passant p) (castling_rights p) (halfmove p4) (fullmove p4)
               promo))
       = Some (q, final)
    /\ require_sync res = cm || epc || truthy_int promo
    /\ m_over res = over final
    /\ (if over final
        then m_reason res = reason final /\ m_winner res = winner final
        else m_reason res = None /\ m_winner res = None).
Proof.
  unfold apply_move. intros H.
  bind_inv H. bind_inv H. bind_inv H. destruct p0 as [p1 cm].
  bind_inv H. destruct p0 as [p3 epc]. bind_inv H. bind_inv H.
  bind_inv H. destruct p0 as [p8 final].
  exists z, z0, p1, cm, p3, epc, o, b, final.
  repeat (split; [first [assumption | reflexivity]|]).
  split; [destruct (over final); injection H as <- _; assumption|].
  destruct (over final) eqn:Hov; injection H as _ <-; cbn; rewrite ?Hov; auto.
Qed.

(** The state that reaches [is_game_over] at the end of [apply_move] has
    the counters, side and histories of the state it started from. *)
Lemma apply_move_frame (p q : Board) (m : Move) (res : MoveResult) :
  apply_move p m = Some (q, res) ->
  exists record p4,
    untouched p p4
    /\ get_piece p (from_sq m) = Some (u_from_piece record)
    /\ get_piece p (to_sq m) = Some (u_to_piece record)
    /\ u_halfmove record = halfmove p /\ u_fullmove record = fullmove p
    /\ u_castling_rights record = castling_rights p
    /\ u_prev_en_passant record = en_passant p
    /\ u_move record = mkMove (from_sq m) (to_sq m) None
    /\ (u_en_passant_capture record = true ->
        is_pawn_piece (u_from_piece record) = true)
    /\ q = with_cache (make_move_bookkeeping p4 record) (moves_cache q).
Proof.
  intros H. apply apply_move_inv in H.
  destruct H as (fp & tp & p1 & cm & p3 & epc & promo & p4 & final
                 & Hfp & Htp & Hc & He & Hp & Hb & Hgo & _).
  apply make_move_castling_frame in Hc. destruct Hc as (U1 & _).
  assert (Hflag : epc = true -> is_pawn_piece fp = true).
  { intros ->. eapply make_move_en_passant_flag. exact He. }
  apply make_move_en_passant_frame in He. destruct He as (U2 & _).
  apply make_move_board_frame in Hb. destruct Hb as (U3 & _).
  assert (U : untouched p p4).
  { eapply untouched_trans; [|exact U3]. eapply untouched_trans; [exact U1|].
    eapply untouched_trans; [|exact U2]. repeat split. }
  exists (mkUndo (mkMove (from_sq m) (to_sq m) None) fp tp cm epc
            (en_passant p) (castling_rights p) (halfmove p4) (fullmove p4) promo).
  exists p4. split; [exact U|].
  cbn [u_from_piece u_to_piece u_halfmove u_fullmove u_castling_rights
       u_prev_en_passant u_move u_en_passant_capture].
  repeat (split; [first [assumption | reflexivity | apply U]|]).
  apply is_game_over_state in Hgo. exact Hgo.
Qed.

(** Past the early returns, [make_move] is [apply_move] on the position
    with a refreshed memo. *)
Lemma make_move_applied (p q : Board) (m : Move) (cl : bool) (res : MoveResult) :
  make_move p m cl = Some (q, res) -> applied p m cl ->
  exists k, apply_move (with_cache p k) m = Some (q, res).
Proof.
  intros Hmm (p0 & g & Hgo & Hover & Hlegal).
  unfold make_move in Hmm. rewrite Hgo in Hmm. cbn [bind] in Hmm.
  rewrite Hover in Hmm.
  pose proof (is_game_over_state _ _ _ Hgo) as Hp0.
  destruct cl.
  - destruct (Hlegal eq_refl) as (q1 & ms & Hq1 & Hfound).
    rewrite Hq1 in Hmm. cbn [bind] in Hmm. rewrite Hfound in Hmm. cbn [negb] in Hmm.
    apply get_moves_state in Hq1. rewrite Hp0 in Hq1. cbn in Hq1.
    exists (moves_cache q1). rewrite Hq1 in Hmm. rewrite Hq1. exact Hmm.
  - cbn [bind negb] in Hmm. exists (moves_cache p0). rewrite <- Hp0. exact Hmm.
Qed.

Lemma make_move_cases (p q : Board) (m : Move) (cl : bool) (res : MoveResult) :
  make_move p m cl = Some (q, res) -> refused p m cl \/ applied p m cl.
Proof.
  intros Hmm. unfold make_move in Hmm.
  destruct (is_game_over p) as [[p0 g]|] eqn:Hgo; [|discriminate].
  cbn [bind] in Hmm.
  destruct (over g) eqn:Hover.
  { left. exists p0, g. auto. }
  destruct cl.
  - destruct (get_moves p0) as [[q1 ms]|] eqn:Hq1; [|discriminate].
    cbn [bind] in Hmm.
    destruct (existsb (same_squares m) ms) eqn:Hfound.
    + right. exists p0, g. repeat split; try assumption. intros _. eauto.
    + left. exists p0, g. split; [assumption|]. right. split; [reflexivity|]. eauto.
  - right. exists p0, g. repeat split; try assumption. discriminate.
Qed.

(** ** Counters, side to move and history after an applied move *)

(** C7.  After a move that is applied: the halfmove clock is 0 when the
    moved piece is a pawn, the destination held a piece or the move was an
    en passant capture (which only a pawn makes), and its former value plus
    1 otherwise; the fullmove
    number grows by one exactly when black moved; the side to move flips;
    one hash, that of the new position, is appended to the position
    history (and one record to the move history). *)
Theorem applied_move_counters (p q : Board) (m : Move) (cl : bool)
    (res : MoveResult) :
  make_move p m cl = Some (q, res) ->
  applied p m cl ->
  exists record,
    move_history q = move_history p ++ [record]
    /\ get_piece p (from_sq m) = Some (u_from_piece record)
    /\ get_piece p (to_sq m) = Some (u_to_piece record)
    /\ halfmove q
       = (if is_pawn_piece (u_from_piece record)
             || negb (u_to_piece record =? Piece.NONE)
             || u_en_passant_capture record
          then 0 else halfmove p + 1)
    /\ (u_en_passant_capture record = true ->
        is_pawn_piece (u_from_piece record) = true)
    /\ fullmove q = (if white_to_play p then fullmove p else fullmove p + 1)
    /\ white_to_play q = negb (white_to_play p)
    /\ position_history q = position_history p ++ [_get_position_hash q].
Proof.
  intros Hmm Happ.
  destruct (make_move_applied _ _ _ _ _ Hmm Happ) as (k & Hap).
  apply apply_move_frame in Hap.
  destruct Hap as (record & p4 & U & Hfp & Htp & _ & _ & _ & _ & _ & Hflag & Hq).
  destruct U as (Uw & Uh & Uf & Uph & Umh & _).
  cbn in Uw, Uh, Uf, Uph, Umh.
  exists record. rewrite Hq.
  unfold make_move_bookkeeping, _get_position_hash. cbn.
  rewrite Uw, Uh, Uf, Uph, Umh.
  repeat split; try assumption.
  destruct (white_to_play p); reflexivity.
Qed.

Lemma applied_move_counters_witness :
  exists q res,
    make_move start_board (mkMove "G1" "F3" None) true = Some (q, res)
    /\ halfmove q = 1 /\ fullmove q = 1 /\ white_to_play q = false.
Proof.
  assert (Hex : exists q res,
             make_move start_board (mkMove "G1" "F3" None) true = Some (q, res))
    by (vm_compute; eauto).
  destruct Hex as (q & res & Hmm). exists q, res. split; [exact Hmm|].
  destruct (applied_move_counters _ _ _ _ _ Hmm)
    as (record & _ & Hf & Ht & Hh & Hflag & Hfm & Hw & _).
  { eexists. eexists. split; [vm_compute; reflexivity|].
    split; [reflexivity|]. intros _. eexists. eexists.
    split; [vm_compute; reflexivity|]. vm_compute. reflexivity. }
  assert (Hg1 : get_piece start_board "G1" = Some 3) by (vm_compute; reflexivity).
  assert (Hf3 : get_piece start_board "F3" = Some 0) by (vm_compute; reflexivity).
  cbn [from_sq to_sq] in Hf, Ht. rewrite Hg1 in Hf. rewrite Hf3 in Ht.
  injection Hf as Hf. injection Ht as Ht.
  rewrite <- Hf, <- Ht in Hh. rewrite <- Hf in Hflag.
  destruct (u_en_passant_capture record);
    [specialize (Hflag eq_refl); discriminate|].
  rewrite Hh, Hfm, Hw. repeat split.
Defined.

(** ** Castling rights only shrink *)

Lemma clear_bits_sub (cr mask i : Z) :
  Z.testbit (clear_bits cr mask) i = true -> Z.testbit cr i = true.
Proof.
  unfold clear_bits. destruct (Z.ltb_spec i 0) as [Hneg|Hpos].
  - rewrite Z.testbit_neg_r by assumption. discriminate.
  - rewrite Z.land_spec. intros H. apply andb_prop in H. apply H.
Qed.

Lemma make_move_rook_rights_sub (cr fp tp : Z) (m : Move) (i : Z) :
  Z.testbit (make_move_rook_rights cr fp tp m) i = true -> Z.testbit cr i = true.
Proof.
  unfold make_move_rook_rights. cbv zeta.
  repeat match goal with
         | |- context [if ?c then clear_bits ?x ?k else ?x] => destruct c
         end;
    intros H; repeat (apply clear_bits_sub in H); exact H.
Qed.

(** C8.  Whatever [make_move] does (apply the move or return early), every
    castling-rights bit set afterwards was set before: the new mask is a
    bitwise subset of the old one. *)
Theorem make_move_rights_shrink (p q : Board) (m : Move) (cl : bool)
    (res : MoveResult) :
  make_move p m cl = Some (q, res) ->
  (forall i, Z.testbit (castling_rights q) i = true ->
             Z.testbit (castling_rights p) i = true)
  /\ Z.land (castling_rights q) (castling_rights p) = castling_rights q.
Proof.
  intros Hmm.
  assert (Hbits : forall i, Z.testbit (castling_rights q) i = true ->
                            Z.testbit (castling_rights p) i = true).
  { destruct (make_move_cases _ _ _ _ _ Hmm) as [Href|Happ].
    - assert (Hsame : same_position p q).
      { destruct (make_move_refused_state _ _ _ _ _ Hmm Href) as (k & ->).
        apply same_position_with_cache. }
      destruct Hsame as (_ & _ & -> & _). auto.
    - destruct (make_move_applied _ _ _ _ _ Hmm Happ) as (k & Hap).
      apply apply_move_inv in Hap.
      destruct Hap as (fp & tp & p1 & cm & p3 & epc & promo & p4 & final
                       & _ & _ & Hc & He & _ & Hb & Hgo & _).
      apply make_move_castling_frame in Hc. destruct Hc as (_ & _ & Hr1).
      apply make_move_en_passant_frame in He. destruct He as (_ & Hr3).
      apply make_move_board_frame in Hb. destruct Hb as (_ & Hr4 & _).
      apply is_game_over_state in Hgo.
      assert (Hq : castling_rights q = castling_rights p4) by (rewrite Hgo; reflexivity).
      rewrite Hq, Hr4, Hr3. cbn [castling_rights with_castling_rights with_cache] in *.
      intros i Hi. apply make_move_rook_rights_sub in Hi.
      destruct Hr1 as [E|[E|E]]; rewrite E in Hi;
        [assumption | apply clear_bits_sub in Hi; assumption
        | apply clear_bits_sub in Hi; assumption]. }
  split; [exact Hbits|].
  apply Z.bits_inj'. intros n _. rewrite Z.land_spec.
  destruct (Z.testbit (castling_rights q) n) eqn:E; [|reflexivity].
  rewrite (Hbits n E). reflexivity.
Qed.

Lemma make_move_rights_shrink_witness :
  exists p q res,
    new_board (Some "r3k2r/8/8/8/8/8/8/R3K2R w KQkq - 0 1") = Some p
    /\ make_move p (mkMove "H1" "H8" None) true = Some (q, res)
    /\ castling_rights p = 15 /\ castling_rights q = 10
    /\ Z.land (castling_rights q) (castling_rights p) = castling_rights q.
Proof.
  eexists. eexists. eexists.
  split; [vm_compute; reflexivity|].
  split; [vm_compute; reflexivity|].
  split; [reflexivity|]. split; [reflexivity|].
  match goal with
  | |- Z.land (castling_rights ?q) (castling_rights ?p) = _ =>
      apply (make_move_rights_shrink p q (mkMove "H1" "H8" None) true
               (mkMoveResult false None None false))
  end.
  vm_compute. reflexivity.
Defined.

(** ** Legality filter *)

Lemma is_move_legal_probe (b b' : grid) (w ok : bool) (m : Move)
    (kp : option (Z * Z)) :
  _is_move_legal b w m kp = Some (b', ok) ->
  king_exposed b w kp m = Some (negb ok).
Proof.
  unfold _is_move_legal, king_exposed, simulate. intros H.
  bind_inv H. destruct p as [fr fc]. bind_inv H. destruct p as [tr tc].
  bind_inv H. bind_inv H. bind_inv H. bind_inv H.
  cbn [bind].
  destruct (if is_king_piece z then Some (tr, tc) else kp) as [[kr kc]|];
    cbn [bind] in *; [|discriminate].
  bind_inv H. bind_inv H. injection H as _ <-.
  rewrite negb_involutive. reflexivity.
Qed.

Lemma filter_legal_loop_spec (moves : list Move) :
  forall b b' w kp legal,
    filter_legal_loop b w kp moves = Some (b', legal) ->
    legal = filter (probe_ok b w kp) moves
    /\ forall m, In m moves -> exists e, king_exposed b w kp m = Some e.
Proof.
  induction moves as [|m rest IH]; simpl; intros b b' w kp legal H.
  - injection H as _ <-. split; [reflexivity | intros m []].
  - bind_inv H. destruct p as [b1 ok]. bind_inv H. destruct p as [b2 l2].
    injection H as _ <-.
    match goal with
    | H1 : _is_move_legal _ _ _ _ = _, H2 : filter_legal_loop _ _ _ _ = _ |- _ =>
        pose proof (is_move_legal_restores _ _ _ _ _ _ H1); subst b1;
        apply is_move_legal_probe in H1; apply IH in H2;
        destruct H2 as (-> & Hall); rename H1 into Hprobe
    end.
    split.
    + assert (Hm : probe_ok b w kp m = ok)
        by (unfold probe_ok; rewrite Hprobe; destruct ok; reflexivity).
      rewrite Hm. reflexivity.
    + intros m' [<-|Hin]; [eauto | auto].
Qed.

Lemma get_moves_computed (p q : Board) (ms : list Move) :
  cache_ok p -> get_moves p = Some (q, ms) ->
  exists q', compute_moves p = Some (q', ms).
Proof.
  unfold get_moves. intros Hok H.
  destruct (moves_cache p) as [[h cached]|] eqn:Ec; [|eauto].
  destruct (String.eqb_spec h (_get_position_hash p)) as [->|]; [|eauto].
  injection H as _ <-. apply Hok. exact Ec.
Qed.

(** The list returned by [get_moves] is the pseudo-legal list filtered by
    the probe, and the probe ran to completion on every candidate. *)
Lemma get_moves_filter (p q : Board) (ms : list Move) :
  cache_ok p -> get_moves p = Some (q, ms) ->
  exists pseudo,
    pseudo_legal_moves p = Some pseudo
    /\ ms = filter (probe_ok (board p) (white_to_play p) (mover_king p)) pseudo
    /\ forall m, In m pseudo -> exists e, leaves_king_attacked p m = Some e.
Proof.
  intros Hok H. destruct (get_moves_computed _ _ _ Hok H) as (q' & Hc).
  unfold compute_moves in Hc. bind_inv Hc. bind_inv Hc. destruct p0 as [p1 legal].
  injection Hc as _ <-.
  match goal with
  | H1 : _filter_legal_moves _ _ = _ |- _ =>
      unfold _filter_legal_moves in H1; bind_inv H1;
      match goal with
      | H2 : filter_legal_loop _ _ _ _ = Some ?x |- _ =>
          destruct x as [b' legal']; injection H1 as _ <-;
          apply filter_legal_loop_spec in H2; destruct H2 as (-> & Hall)
      end
  end.
  eexists. split; [reflexivity|]. split; [reflexivity | exact Hall].
Qed.

(** Legality soundness.  With a usable memo, every move returned by
    [get_moves] is a pseudo-legal move which, simulated by moving the piece
    from its source to its destination square, leaves the mover's recorded
    king square unattacked by the opponent; and a pseudo-legal move whose
    simulation leaves that square attacked is not in the returned list. *)
Theorem legal_moves_keep_king_safe (p q : Board) (ms : list Move) :
  cache_ok p ->
  get_moves p = Some (q, ms) ->
  exists pseudo,
    pseudo_legal_moves p = Some pseudo
    /\ (forall m, In m ms ->
          In m pseudo /\ leaves_king_attacked p m = Some false)
    /\ (forall m, In m pseudo -> leaves_king_attacked p m = Some true ->
          ~ In m ms).
Proof.
  intros Hok H.
  destruct (get_moves_filter _ _ _ Hok H) as (pseudo & Hps & -> & Hall).
  exists pseudo. split; [exact Hps|]. split.
  - intros m Hin. apply filter_In in Hin. destruct Hin as (Hin & Hprobe).
    split; [exact Hin|].
    unfold probe_ok in Hprobe. unfold leaves_king_attacked.
    destruct (king_exposed _ _ _ m) as [[|]|]; try discriminate. reflexivity.
  - intros m _ Hbad Hin. apply filter_In in Hin. destruct Hin as (_ & Hprobe).
    unfold probe_ok in Hprobe. unfold leaves_king_attacked in Hbad.
    rewrite Hbad in Hprobe. discriminate.
Qed.

Lemma legal_moves_keep_king_safe_witness :
  exists q ms,
    get_moves pinned_board = Some (q, ms)
    /\ In (mkMove "E1" "D1" None) ms
    /\ leaves_king_attacked pinned_board (mkMove "E1" "D1" None) = Some false
    /\ ~ In (mkMove "E2" "D3" None) ms.
Proof.
  assert (Hex : exists q ms, get_moves pinned_board = Some (q, ms)
                             /\ In (mkMove "E1" "D1" None) ms).
  { vm_compute. eexists. eexists. split; [reflexivity|]. simpl. tauto. }
  destruct Hex as (q & ms & Hgm & Hin). exists q, ms.
  assert (Hok : cache_ok pinned_board).
  { intros l Hl. vm_compute in Hl. discriminate. }
  destruct (legal_moves_keep_king_safe _ _ _ Hok Hgm) as (pseudo & Hps & Hsafe & Hexcl).
  split; [exact Hgm|]. split; [exact Hin|].
  split; [apply (Hsafe _ Hin)|].
  apply Hexcl.
  - assert (Hl : exists l, pseudo_legal_moves pinned_board = Some l
                           /\ In (mkMove "E2" "D3" None) l).
    { vm_compute. eexists. split; [reflexivity|]. simpl. tauto. }
    destruct Hl as (l & Hl & Hinl). rewrite Hps in Hl. injection Hl as <-. exact Hinl.
  - vm_compute. reflexivity.
Defined.

(** ** FEN round trip *)

(** C2 (the code departs from the claim).  The position after 1.e4 a6 2.e5
    d5 records the en passant target as "D6"; [get_fen] writes it in lower
    case and [load_fen] stores the text as read, so the reloaded position
    has the target "d6": board, side to move and castling rights are the
    same, the en passant target is not, and the capture e5xd6 that was legal
    before the round trip is no longer generated after it. *)
Theorem fen_round_trip_en_passant :
  get_fen en_passant_board
  = "rnbqkbnr/1pp1pppp/p7/3pP3/8/8/PPPP1PPP/RNBQKBNR w KQkq d6 0 3"
  /\ en_passant en_passant_board = Some "D6"
  /\ legal_moves_from en_passant_board "E5"
     = Some [mkMove "E5" "E6" None; mkMove "E5" "D6" None]
  /\ exists q,
       load_fen en_passant_board (get_fen en_passant_board) = Some q
       /\ new_board (Some (get_fen en_passant_board))
          = Some (with_move_history (with_cache q None) [])
       /\ board q = board en_passant_board
       /\ white_to_play q = white_to_play en_passant_board
       /\ castling_rights q = castling_rights en_passant_board
       /\ en_passant q = Some "d6"
       /\ en_passant q <> en_passant en_passant_board
       /\ legal_moves_from (with_cache q None) "E5" = Some [mkMove "E5" "E6" None].
Proof.
  split; [vm_compute; reflexivity|].
  split; [reflexivity|].
  split; [vm_compute; reflexivity|].
  eexists. split; [vm_compute; reflexivity|].
  split; [vm_compute; reflexivity|].
  split; [reflexivity|]. split; [reflexivity|]. split; [reflexivity|].
  split; [reflexivity|].
  split; [discriminate|].
  vm_compute. reflexivity.
Qed.

(** ** Squares as cells *)

Lemma set_piece_locates (p : Board) (x : Z) (sq : string) (r c : Z) :
  locates sq r c -> set_piece p x sq = Some (set_at p r c x).
Proof.
  unfold locates, set_piece, set_at. intros [[He Hout]|[He Hdec]]; rewrite He.
  - rewrite Hout. reflexivity.
  - rewrite Hdec. cbn [bind]. destruct (in_board r c); [|reflexivity].
    destruct (x =? Piece.WHITE_KING); [reflexivity|].
    destruct (x =? Piece.BLACK_KING); reflexivity.
Qed.

Lemma get_piece_locates (p : Board) (sq : string) (r c : Z) :
  locates sq r c -> get_piece p sq = Some (peek (board p) r c).
Proof.
  unfold locates, get_piece, peek. intros [[He Hout]|[He Hdec]]; rewrite He.
  - rewrite Hout. reflexivity.
  - rewrite Hdec. cbn [bind]. destruct (in_board r c); reflexivity.
Qed.

Lemma get_piece_located (p : Board) (sq : string) (x : Z) :
  get_piece p sq = Some x -> exists r c, locates sq r c.
Proof.
  unfold get_piece, locates. intros H. destruct (is_empty_str sq).
  - exists (-1), (-1). left. split; reflexivity.
  - bind_inv H. destruct p0 as [r c]. exists r, c. right. auto.
Qed.

Lemma set_piece_located (p q : Board) (sq : string) (x : Z) :
  set_piece p x sq = Some q -> exists r c, locates sq r c.
Proof.
  unfold set_piece, locates. intros H. destruct (is_empty_str sq).
  - exists (-1), (-1). left. split; reflexivity.
  - bind_inv H. destruct p0 as [r c]. exists r, c. right. auto.
Qed.

Lemma locates_fun (sq : string) (r c r' c' : Z) :
  locates sq r c -> locates sq r' c' ->
  is_empty_str sq = false -> (r, c) = (r', c').
Proof.
  intros [[He _]|[_ H1]] [[He' _]|[_ H2]] Hne; congruence.
Qed.

Lemma board_set_at (p : Board) (r c x : Z) :
  board (set_at p r c x) = place (board p) r c x.
Proof.
  unfold set_at, place. destruct (in_board r c); [|reflexivity].
  destruct (x =? Piece.WHITE_KING); [reflexivity|].
  destruct (x =? Piece.BLACK_KING); reflexivity.
Qed.

Lemma set_at_frame (p : Board) (r c x : Z) :
  untouched p (set_at p r c x)
  /\ castling_rights (set_at p r c x) = castling_rights p
  /\ en_passant (set_at p r c x) = en_passant p.
Proof.
  unfold set_at. destruct (in_board r c); [|repeat split].
  destruct (x =? Piece.WHITE_KING); [repeat split|].
  destruct (x =? Piece.BLACK_KING); repeat split.
Qed.

(** ** The grid under guarded writes *)

Lemma grid_wf_rows (b : grid) :
  grid_wf b = true -> map (@List.length Z) b = repeat 8%nat 8.
Proof.
  unfold grid_wf. intros H. apply andb_prop in H. destruct H as (Hlen & Hrows).
  apply Nat.eqb_eq in Hlen.
  rewrite forallb_forall in Hrows.
  assert (Hall : forall n, In n (map (@List.length Z) b) -> n = 8%nat).
  { intros n Hn. apply in_map_iff in Hn. destruct Hn as (row & <- & Hin).
    apply Nat.eqb_eq. auto. }
  rewrite <- (length_map (@List.length Z)) in Hlen.
  revert Hlen Hall. generalize (map (@List.length Z) b). intros l Hlen Hall.
  do 9 (destruct l as [|? l]; try discriminate).
  rewrite (Hall n), (Hall n0), (Hall n1), (Hall n2), (Hall n3), (Hall n4),
    (Hall n5), (Hall n6) by (simpl; tauto).
  reflexivity.
Qed.

Lemma grid_wf_cell (b : grid) (r c : Z) :
  grid_wf b = true -> in_board r c = true ->
  cell b (Z.to_nat r) (Z.to_nat c) = Some (bd b r c).
Proof.
  intros Hwf Hin. unfold bd.
  destruct (cell b (Z.to_nat r) (Z.to_nat c)) eqn:E; [reflexivity|exfalso].
  unfold in_board in Hin. unfold cell in E.
  pose proof (grid_wf_rows b Hwf) as Hrows.
  assert (Hr : (Z.to_nat r < 8)%nat) by lia.
  assert (Hc : (Z.to_nat c < 8)%nat) by lia.
  assert (Hrow : option_map (@List.length Z) (nth_error b (Z.to_nat r)) = Some 8%nat).
  { rewrite <- nth_error_map, Hrows. apply nth_error_repeat. exact Hr. }
  destruct (nth_error b (Z.to_nat r)) as [row|]; [|discriminate].
  injection Hrow as Hrow. apply nth_error_None in E. lia.
Qed.

Lemma grid_wf_place (b : grid) (r c x : Z) :
  grid_wf b = true -> grid_wf (place b r c x) = true.
Proof.
  intros Hwf. unfold place. destruct (in_board r c); [|exact Hwf].
  pose proof (grid_wf_rows b Hwf) as Hrows.
  pose proof (upd_shape b (Z.to_nat r) (Z.to_nat c) x) as Hs. rewrite Hrows in Hs.
  unfold grid_wf. rewrite upd_length.
  unfold grid_wf in Hwf. apply andb_prop in Hwf. destruct Hwf as (-> & _).
  cbn [andb]. apply forallb_forall. intros row Hin.
  apply Nat.eqb_eq.
  assert (Hl : In (List.length row) (map (@List.length Z) (upd b (Z.to_nat r) (Z.to_nat c) x))).
  { apply in_map. exact Hin. }
  rewrite Hs in Hl. apply repeat_spec in Hl. exact Hl.
Qed.

Lemma peek_place (b : grid) (r c x r' c' : Z) :
  grid_wf b = true ->
  peek (place b r c x) r' c'
  = if in_board r c && (r =? r') && (c =? c') then x else peek b r' c'.
Proof.
  intros Hwf. unfold peek, place.
  destruct (in_board r c) eqn:Hin; cbn [andb]; [|reflexivity].
  destruct (in_board r' c') eqn:Hin'.
  - unfold bd at 1. rewrite cell_upd.
    rewrite (grid_wf_cell b r c Hwf Hin).
    unfold in_board in Hin, Hin'.
    destruct (Z.eqb_spec r r') as [->|Hr]; [destruct (Z.eqb_spec c c') as [->|Hc]|].
    + rewrite !Nat.eqb_refl. reflexivity.
    + assert (E : Nat.eqb (Z.to_nat c) (Z.to_nat c') = false)
        by (apply Nat.eqb_neq; lia).
      rewrite E, andb_false_r. reflexivity.
    + assert (E : Nat.eqb (Z.to_nat r) (Z.to_nat r') = false)
        by (apply Nat.eqb_neq; lia).
      rewrite E. reflexivity.
  - destruct (Z.eqb_spec r r') as [->|]; [|reflexivity].
    destruct (Z.eqb_spec c c') as [->|]; [congruence | reflexivity].
Qed.

(** Two well-formed grids that agree on every square of the board are
    equal. *)
Lemma grid_wf_ext (b1 b2 : grid) :
  grid_wf b1 = true -> grid_wf b2 = true ->
  (forall r c, in_board r c = true -> peek b1 r c = peek b2 r c) ->
  b1 = b2.
Proof.
  intros H1 H2 Hsame. apply grid_ext.
  - rewrite (grid_wf_rows b1 H1), (grid_wf_rows b2 H2). reflexivity.
  - intros k l.
    destruct (Nat.ltb_spec k 8) as [Hk|Hk]; [destruct (Nat.ltb_spec l 8) as [Hl|Hl]|].
    + assert (Hin : in_board (Z.of_nat k) (Z.of_nat l) = true)
        by (unfold in_board; lia).
      pose proof (grid_wf_cell b1 _ _ H1 Hin) as E1.
      pose proof (grid_wf_cell b2 _ _ H2 Hin) as E2.
      rewrite !Nat2Z.id in E1, E2. rewrite E1, E2. f_equal.
      specialize (Hsame _ _ Hin). unfold peek in Hsame. rewrite Hin in Hsame.
      exact Hsame.
    + unfold cell.
      pose proof (grid_wf_rows b1 H1) as R1. pose proof (grid_wf_rows b2 H2) as R2.
      assert (Hrow : forall b, map (@List.length Z) b = repeat 8%nat 8 ->
                match nth_error b k with
                | Some row => nth_error row l
                | None => None
                end = None).
      { intros b Hb.
        assert (Hr : option_map (@List.length Z) (nth_error b k) = Some 8%nat)
          by (rewrite <- nth_error_map, Hb; apply nth_error_repeat; exact Hk).
        destruct (nth_error b k) as [row|]; [|reflexivity].
        injection Hr as Hr. apply nth_error_None. lia. }
      rewrite (Hrow b1 R1), (Hrow b2 R2). reflexivity.
    + unfold cell.
      assert (Hnone : forall b, grid_wf b = true -> nth_error b k = None).
      { intros b Hb. apply nth_error_None. unfold grid_wf in Hb.
        apply andb_prop in Hb. destruct Hb as (Hb & _). apply Nat.eqb_eq in Hb. lia. }
      rewrite (Hnone b1 H1), (Hnone b2 H2). reflexivity.
Qed.

(** ** Where generated moves come from *)

Lemma slide_ray_from (fuel : nat) (b : grid) (from : string) (w : bool)
    (dr dc : Z) (m : Move) :
  forall nr nc, In m (slide_ray fuel b from w nr nc dr dc) -> from_sq m = from.
Proof.
  induction fuel as [|k IH]; simpl; intros nr nc H; [contradiction|].
  destruct (in_board nr nc); [|contradiction].
  destruct (bd b nr nc =? Piece.NONE).
  { destruct H as [<-|H]; [reflexivity | eauto]. }
  match type of H with
  | In _ (if ?c then _ else _) => destruct c
  end.
  { destruct H as [<-|[]]. reflexivity. }
  match type of H with
  | In _ (if ?c then _ else _) => destruct c
  end; [contradiction | eauto].
Qed.

Lemma sliding_moves_from (p : Board) (r c : Z) (from : string) (w : bool)
    (dirs : list (Z * Z)) (m : Move) :
  In m (_generate_sliding_moves p r c from w dirs) -> from_sq m = from.
Proof.
  unfold _generate_sliding_moves. intros H. apply in_flat_map in H.
  destruct H as ([dr dc] & _ & H). eapply slide_ray_from. exact H.
Qed.

Lemma offset_moves_from (b : grid) (r c : Z) (from : string) (w : bool)
    (offs : list (Z * Z)) (m : Move) :
  In m (offset_moves b r c from w offs) -> from_sq m = from.
Proof.
  intros H. apply offset_moves_in in H. destruct H as (dr & dc & _ & _ & ->).
  reflexivity.
Qed.

Lemma king_moves_from (p : Board) (r c : Z) (from : string) (w : bool) (m : Move) :
  In m (_generate_king_moves p r c from w) -> from_sq m = from.
Proof.
  unfold _generate_king_moves. intros H. apply in_app_or in H.
  destruct H as [H|H]; [eapply offset_moves_from; exact H|].
  repeat match type of H with
         | In _ (if ?c then _ else _) => destruct c
         | In _ (_ ++ _) => apply in_app_or in H; destruct H as [H|H]
         | In _ [_] => destruct H as [<-|[]]; reflexivity
         | In _ [] => contradiction
         end.
Qed.

Ltac crack_in H :=
  repeat match type of H with
         | In _ (_ ++ _) => apply in_app_or in H; destruct H as [H|H]
         | In _ (if ?c then _ else _) => destruct c
         | In _ (map _ _) =>
             let x := fresh "x" in
             apply in_map_iff in H; destruct H as (x & <- & _)
         | In _ (_ :: _) => destruct H as [<-|H]
         | In _ [] => contradiction
         end.

Lemma pawn_moves_from (p : Board) (r c : Z) (from : string) (w : bool)
    (l : list Move) (m : Move) :
  _generate_pawn_moves p r c from w = Some l -> In m l -> from_sq m = from.
Proof.
  unfold _generate_pawn_moves. intros H Hin. bind_inv H. injection H as <-.
  cbn [flat_map] in Hin.
  match goal with
  | E : (if truthy_str (en_passant p) then _ else _) = Some _ |- _ =>
      destruct (truthy_str (en_passant p));
      [destruct (en_passant p) as [eps|];
       [bind_inv E;
        match goal with
        | x : (Z * Z)%type |- _ => destruct x as [er ec]
        end;
        match type of E with
        | (if ?c then _ else _) = _ => destruct c
        end|]|];
      injection E as <-
  end;
  crack_in Hin; reflexivity.
Qed.

Lemma generated_moves_from (p : Board) (r c piece : Z) (l : list Move) (m : Move) :
  _generate_moves_for_piece p r c piece = Some l -> In m l ->
  from_sq m = coords_to_square r c.
Proof.
  unfold _generate_moves_for_piece. intros H Hin.
  repeat match type of H with
         | (if ?c then _ else _) = _ => destruct c
         end;
    try (eapply pawn_moves_from; eassumption);
    injection H as <-;
    solve [ eapply sliding_moves_from; exact Hin
          | eapply offset_moves_from; exact Hin
          | eapply king_moves_from; exact Hin
          | contradiction ].
Qed.

(** A pseudo-legal move starts on a square holding a piece of the side to
    move, and was generated for that piece. *)
Lemma pseudo_moves_origin (p : Board) (m : Move) (cs : list (Z * Z)) :
  forall pm,
    pseudo_moves_over p cs = Some pm -> In m pm ->
    exists r c l,
      In (r, c) cs
      /\ bd (board p) r c <> Piece.NONE
      /\ (bd (board p) r c <=? Piece.WHITE_KING) = white_to_play p
      /\ _generate_moves_for_piece p r c (bd (board p) r c) = Some l
      /\ In m l.
Proof.
  induction cs as [|[r c] rest IH]; simpl; intros pm H Hin.
  - injection H as <-. contradiction.
  - bind_inv H. bind_inv H. injection H as <-.
    apply in_app_or in Hin. destruct Hin as [Hin|Hin].
    + exists r, c, l.
      match goal with
      | E : (if bd (board p) r c =? Piece.NONE then _ else _) = Some l |- _ =>
          destruct (Z.eqb_spec (bd (board p) r c) Piece.NONE) as [|Hne];
          [injection E as <-; contradiction|];
          destruct (Bool.eqb (bd (board p) r c <=? Piece.WHITE_KING) (white_to_play p))
            eqn:Hcol; cbn [negb] in E; [|injection E as <-; contradiction];
          apply Bool.eqb_prop in Hcol; repeat split; auto
      end.
    + destruct (IH _ eq_refl Hin) as (r' & c' & l' & Hc & Hrest).
      exists r', c', l'. split; [right; exact Hc | exact Hrest].
Qed.

Lemma coords_round_trip (r c : Z) :
  In (r, c) all_coords ->
  is_empty_str (coords_to_square r c) = false
  /\ square_to_coords (coords_to_square r c) = Some (r, c)
  /\ in_board r c = true.
Proof.
  intros H. vm_compute in H.
  repeat (destruct H as [H|H]; [injection H as <- <-; vm_compute; auto|]).
  contradiction.
Qed.

(** ** The castling block and its undoing *)

Lemma locates_const (sq : string) (r c : Z) :
  is_empty_str sq = false -> square_to_coords sq = Some (r, c) -> locates sq r c.
Proof. intros; right; auto. Qed.

Ltac locate_const :=
  apply locates_const; vm_compute; reflexivity.

Ltac finish_castle :=
  repeat (split; [first [reflexivity | assumption]|]);
  cbn [board with_castling_rights]; rewrite !board_set_at; reflexivity.

Lemma make_move_castling_cases (p p1 : Board) (fp : Z) (m : Move) (cm : bool) :
  make_move_castling p fp m = Some (p1, cm) ->
  (cm = false /\ board p1 = board p)
  \/ (cm = true
      /\ exists cs, In cs castles /\ fp = c_king cs
                    /\ from_sq m = c_from cs /\ to_sq m = c_to cs
                    /\ has_right p (c_mask cs) = true
                    /\ board p1 = castled (board p) cs).
Proof.
  unfold make_move_castling. intros H.
  destruct (Z.eqb_spec fp Piece.WHITE_KING) as [->|Hw]; cbn [andb] in H.
  - destruct (String.eqb_spec (from_sq m) "E1") as [Hf|Hf].
    + destruct (String.eqb_spec (to_sq m) "G1") as [Ht|Ht]; cbn [andb] in H.
      * destruct (has_right p 1) eqn:Hr.
        -- rewrite (set_piece_locates _ _ "G1" 7 6) in H by locate_const.
           cbn [bind] in H.
           rewrite (set_piece_locates _ _ "E1" 7 4) in H by locate_const.
           cbn [bind] in H.
           rewrite (set_piece_locates _ _ "F1" 7 5) in H by locate_const.
           cbn [bind] in H.
           rewrite (set_piece_locates _ _ "H1" 7 7) in H by locate_const.
           cbn [bind] in H. injection H as <- <-. right. split; [reflexivity|].
           eexists. split; [left; reflexivity|].
           finish_castle.
        -- destruct (String.eqb_spec (to_sq m) "C1") as [Ht'|Ht']; [congruence|].
           cbn [andb bind] in H. injection H as <- <-. left. auto.
      * destruct (String.eqb_spec (to_sq m) "C1") as [Ht'|Ht']; cbn [andb] in H.
        -- destruct (has_right p 2) eqn:Hr.
           ++ rewrite (set_piece_locates _ _ "C1" 7 2) in H by locate_const.
              cbn [bind] in H.
              rewrite (set_piece_locates _ _ "E1" 7 4) in H by locate_const.
              cbn [bind] in H.
              rewrite (set_piece_locates _ _ "D1" 7 3) in H by locate_const.
              cbn [bind] in H.
              rewrite (set_piece_locates _ _ "A1" 7 0) in H by locate_const.
              cbn [bind] in H. injection H as <- <-. right. split; [reflexivity|].
              eexists. split; [right; left; reflexivity|].
              finish_castle.
           ++ cbn [bind] in H. injection H as <- <-. left. auto.
        -- cbn [bind] in H. injection H as <- <-. left. auto.
    + destruct (Z.eqb_spec Piece.WHITE_KING Piece.BLACK_KING); [discriminate|].
      cbn [andb] in H. injection H as <- <-. left. auto.
  - destruct (Z.eqb_spec fp Piece.BLACK_KING) as [->|Hb]; cbn [andb] in H.
    + destruct (String.eqb_spec (from_sq m) "E8") as [Hf|Hf].
      * destruct (String.eqb_spec (to_sq m) "G8") as [Ht|Ht]; cbn [andb] in H.
        -- destruct (has_right p 4) eqn:Hr.
           ++ rewrite (set_piece_locates _ _ "G8" 0 6) in H by locate_const.
              cbn [bind] in H.
              rewrite (set_piece_locates _ _ "E8" 0 4) in H by locate_const.
              cbn [bind] in H.
              rewrite (set_piece_locates _ _ "F8" 0 5) in H by locate_const.
              cbn [bind] in H.
              rewrite (set_piece_locates _ _ "H8" 0 7) in H by locate_const.
              cbn [bind] in H. injection H as <- <-. right. split; [reflexivity|].
              eexists. split; [right; right; left; reflexivity|].
              finish_castle.
           ++ destruct (String.eqb_spec (to_sq m) "C8") as [Ht'|Ht']; [congruence|].
              cbn [andb bind] in H. injection H as <- <-. left. auto.
        -- destruct (String.eqb_spec (to_sq m) "C8") as [Ht'|Ht']; cbn [andb] in H.
           ++ destruct (has_right p 8) eqn:Hr.
              ** rewrite (set_piece_locates _ _ "C8" 0 2) in H by locate_const.
                 cbn [bind] in H.
                 rewrite (set_piece_locates _ _ "E8" 0 4) in H by locate_const.
                 cbn [bind] in H.
                 rewrite (set_piece_locates _ _ "D8" 0 3) in H by locate_const.
                 cbn [bind] in H.
                 rewrite (set_piece_locates _ _ "A8" 0 0) in H by locate_const.
                 cbn [bind] in H. injection H as <- <-. right. split; [reflexivity|].
                 eexists. split; [right; right; right; left; reflexivity|].
                 finish_castle.
              ** cbn [bind] in H. injection H as <- <-. left. auto.
           ++ cbn [bind] in H. injection H as <- <-. left. auto.
      * injection H as <- <-. left. auto.
    + injection H as <- <-. left. auto.
Qed.

Lemma undo_castling_spec (p : Board) (mv : Move) (cs : Castle) :
  In cs castles -> from_sq mv = c_from cs -> to_sq mv = c_to cs ->
  undo_castling p mv
  = Some (set_at (set_at p (c_row cs) (c_rook_from cs) (c_rook cs))
            (c_row cs) (c_rook_to cs) Piece.NONE).
Proof.
  intros Hin Hf Ht. unfold undo_castling. rewrite Hf, Ht.
  destruct Hin as [<-|[<-|[<-|[<-|[]]]]]; cbn [c_from c_to c_row c_rook_from
    c_rook c_rook_to String.eqb Ascii.eqb Bool.eqb andb].
  - rewrite (set_piece_locates _ _ "H1" 7 7) by locate_const. cbn [bind].
    apply set_piece_locates. locate_const.
  - rewrite (set_piece_locates _ _ "A1" 7 0) by locate_const. cbn [bind].
    apply set_piece_locates. locate_const.
  - rewrite (set_piece_locates _ _ "H8" 0 7) by locate_const. cbn [bind].
    apply set_piece_locates. locate_const.
  - rewrite (set_piece_locates _ _ "A8" 0 0) by locate_const. cbn [bind].
    apply set_piece_locates. locate_const.
Qed.

(** A castle in the king's generated moves went through the castling block:
    the square the rook lands on was empty. *)
Lemma castle_rook_square_empty (p : Board) (m : Move) (cs : Castle) :
  In cs castles ->
  In m (_generate_king_moves p (c_row cs) 4 (coords_to_square (c_row cs) 4)
          (c_king cs <=? Piece.WHITE_KING)) ->
  to_sq m = c_to cs ->
  bd (board p) (c_row cs) (c_rook_to cs) = Piece.NONE.
Proof.
  intros Hcs Hin Hto. unfold _generate_king_moves in Hin.
  apply in_app_or in Hin. destruct Hin as [Hin|Hin].
  { exfalso.
    apply (king_step_not_castle (board p) (c_row cs) 4
             (c_king cs <=? Piece.WHITE_KING) m).
    - destruct Hcs as [<-|[<-|[<-|[<-|[]]]]]; cbn; auto.
    - exact Hin.
    - rewrite Hto. destruct Hcs as [<-|[<-|[<-|[<-|[]]]]]; cbn; auto. }
  destruct Hcs as [<-|[<-|[<-|[<-|[]]]]];
    cbn [c_row c_king c_to c_rook_to] in *;
    change (Piece.WHITE_KING <=? Piece.WHITE_KING) with true in Hin;
    change (Piece.BLACK_KING <=? Piece.WHITE_KING) with false in Hin;
    cbn [andb negb Z.eqb Pos.eqb] in Hin;
    apply in_app_or in Hin; rewrite !in_singleton_if in Hin;
    destruct Hin as [[Hc Hm]|[Hc Hm]];
    try (rewrite <- Hm in Hto; discriminate Hto);
    repeat (apply andb_prop in Hc; destruct Hc as [Hc ?]);
    repeat match goal with
           | H : (_ && _) = true |- _ => apply andb_prop in H; destruct H
           end;
    apply Z.eqb_eq; assumption.
Qed.

(** ** The en passant block and its undoing *)

Lemma pawn_en_passant_cases (p q : Board) (m : Move) (prev : option string)
    (start landing : ascii) (mid : string) (delta : Z) (cap : bool) :
  make_move_pawn_en_passant p m prev start landing mid delta = Some (q, cap) ->
  (cap = false /\ board q = board p)
  \/ (cap = true /\ prev = Some (to_sq m)
      /\ exists t0 t1 v r c,
           Py.char_at 0 (to_sq m) = Some t0
           /\ Py.char_at 1 (to_sq m) = Some t1
           /\ Py.int_char t1 = Some v
           /\ locates (char_str t0 ++ Py.str (v + delta))%string r c
           /\ board q = place (board p) r c Piece.NONE).
Proof.
  unfold make_move_pawn_en_passant. intros H.
  bind_inv H. bind_inv H. bind_inv H. bind_inv H.
  assert (Hb0 : board b0 = board p).
  { match goal with
    | H1 : (if b then _ else _) = Some b0 |- _ =>
        destruct b; [bind_inv H1|]; injection H1 as <-; reflexivity
    end. }
  destruct b1.
  - bind_inv H. bind_inv H. bind_inv H. bind_inv H. injection H as <- <-.
    right. split; [reflexivity|].
    assert (Hprev : prev = Some (to_sq m)).
    { match goal with
      | H1 : (if option_string_eqb (to_sq m) prev then _ else _) = Some true |- _ =>
          unfold option_string_eqb in H1; destruct prev as [s|];
          [destruct (String.eqb_spec (to_sq m) s); [congruence | discriminate]
          |discriminate]
      end. }
    split; [exact Hprev|].
    match goal with
    | H1 : set_piece b0 Piece.NONE ?sq = Some _ |- _ =>
        destruct (set_piece_located _ _ _ _ H1) as (r & c & Hloc);
        rewrite (set_piece_locates _ _ _ _ _ Hloc) in H1; injection H1 as <-;
        exists a0, a1, z, r, c
    end.
    repeat (split; [first [assumption | reflexivity]|]).
    rewrite board_set_at, Hb0. reflexivity.
  - injection H as <- <-. left. auto.
Qed.

Lemma make_move_en_passant_cases (p q : Board) (fp : Z) (m : Move)
    (prev : option string) (epc : bool) :
  make_move_en_passant p fp m prev = Some (q, epc) ->
  (epc = false /\ board q = board p)
  \/ (epc = true /\ prev = Some (to_sq m)
      /\ exists (w : bool) cap r c,
           fp = (if w then Piece.WHITE_PAWN else Piece.BLACK_PAWN)
           /\ captured_square (to_sq m) w = Some cap
           /\ locates cap r c
           /\ board q = place (board p) r c Piece.NONE).
Proof.
  unfold make_move_en_passant.
  destruct (Z.eqb_spec fp Piece.WHITE_PAWN) as [->|Hw].
  - change (Piece.WHITE_PAWN =? Piece.BLACK_PAWN) with false.
    intros H. bind_inv H. destruct p0 as [p1 cw]. cbn [bind] in H.
    injection H as <- <-. rewrite orb_false_r.
    match goal with
    | H1 : make_move_pawn_en_passant _ _ _ _ _ _ _ = _ |- _ =>
        apply pawn_en_passant_cases in H1;
        destruct H1 as [(-> & Hb)|(-> & Hprev & t0 & t1 & v & r & c & H0 & H1' & Hv & Hloc & Hb)]
    end.
    + left. auto.
    + right. split; [reflexivity|]. split; [exact Hprev|].
      exists true, (char_str t0 ++ Py.str (v + -1))%string, r, c.
      repeat split; try assumption.
      unfold captured_square. rewrite H0, H1'. cbn [bind]. rewrite Hv. reflexivity.
  - cbn [bind orb].
    destruct (Z.eqb_spec fp Piece.BLACK_PAWN) as [->|Hb'].
    + intros H. bind_inv H. destruct p0 as [p2 cb]. injection H as <- <-.
      match goal with
      | H1 : make_move_pawn_en_passant _ _ _ _ _ _ _ = _ |- _ =>
          apply pawn_en_passant_cases in H1;
          destruct H1 as [(-> & Hb)|(-> & Hprev & t0 & t1 & v & r & c & H0 & H1' & Hv & Hloc & Hb)]
      end.
      * left. auto.
      * right. split; [reflexivity|]. split; [exact Hprev|].
        exists false, (char_str t0 ++ Py.str (v + 1))%string, r, c.
        repeat split; try assumption.
        unfold captured_square. rewrite H0, H1'. cbn [bind]. rewrite Hv. reflexivity.
    + cbn [bind]. intros H. injection H as <- <-. left. auto.
Qed.

Lemma undo_en_passant_spec (p : Board) (mv : Move) (w : bool) (cap : string)
    (r c : Z) :
  captured_square (to_sq mv) w = Some cap -> locates cap r c ->
  undo_en_passant p (if w then Piece.WHITE_PAWN else Piece.BLACK_PAWN) mv
  = Some (set_at p r c (if w then Piece.BLACK_PAWN else Piece.WHITE_PAWN)).
Proof.
  unfold captured_square, undo_en_passant. intros H Hloc.
  bind_inv H. bind_inv H. bind_inv H. injection H as <-.
  destruct w.
  - change (Piece.WHITE_PAWN =? Piece.WHITE_PAWN) with true. cbn [bind].
    change (z - 1) with (z + -1). apply set_piece_locates. exact Hloc.
  - change (Piece.BLACK_PAWN =? Piece.WHITE_PAWN) with false.
    change (Piece.BLACK_PAWN =? Piece.BLACK_PAWN) with true. cbn [bind].
    apply set_piece_locates. exact Hloc.
Qed.

(** ** The board update *)

Lemma make_move_board_cases (p q : Board) (fp : Z) (m : Move) (cm : bool)
    (promo : option Z) (fr fc tr tc : Z) :
  make_move_board p fp m cm promo = Some q ->
  locates (from_sq m) fr fc -> locates (to_sq m) tr tc ->
  (cm = true /\ q = p)
  \/ (cm = false
      /\ exists x, board q = place (place (board p) tr tc x) fr fc Piece.NONE).
Proof.
  unfold make_move_board. intros H Hf Ht. destruct cm; cbn [negb] in H.
  - left. injection H as <-. auto.
  - right. split; [reflexivity|].
    destruct (truthy_int promo);
      rewrite (set_piece_locates _ _ _ _ _ Ht) in H; cbn [bind] in H;
      rewrite (set_piece_locates _ _ _ _ _ Hf) in H; injection H as <-;
      eexists; rewrite !board_set_at; reflexivity.
Qed.

(** ** Undoing *)

Lemma pop_last_app {A : Type} (l : list A) (x : A) :
  pop_last (l ++ [x]) = Some (l, x).
Proof.
  unfold pop_last. rewrite rev_unit, rev_involutive. reflexivity.
Qed.

Lemma pop_last_nil {A : Type} : pop_last (@nil A) = None.
Proof. reflexivity. Qed.

(** [undo_move] on a state whose last record and last hash are known,
    once the two squares of the record are decoded: the position it
    returns, in terms of the state [p4] reached by its board edits. *)
Lemma undo_move_spec (q p3 p4 : Board) (h : list UndoRecord) (rec : UndoRecord)
    (ph : list string) (hsh : string) (fr fc tr tc : Z) :
  move_history q = h ++ [rec] ->
  position_history q = ph ++ [hsh] ->
  locates (from_sq (u_move rec)) fr fc ->
  locates (to_sq (u_move rec)) tr tc ->
  (if u_castling_move rec
   then undo_castling
          (set_at (set_at (with_move_history q h) fr fc (u_from_piece rec))
             tr tc (u_to_piece rec)) (u_move rec)
   else Some (set_at (set_at (with_move_history q h) fr fc (u_from_piece rec))
                tr tc (u_to_piece rec))) = Some p3 ->
  (if u_en_passant_capture rec
   then undo_en_passant p3 (u_from_piece rec) (u_move rec)
   else Some p3) = Some p4 ->
  untouched (with_move_history q h) p4 ->
  exists q',
    undo_move q = Some q'
    /\ board q' = board p4
    /\ white_to_play q' = negb (white_to_play q)
    /\ castling_rights q' = u_castling_rights rec
    /\ en_passant q' = u_prev_en_passant rec
    /\ halfmove q' = u_halfmove rec
    /\ fullmove q' = u_fullmove rec
    /\ position_history q' = ph
    /\ move_history q' = h.
Proof.
  intros Hmh Hph Lf Lt H3 H4 U.
  unfold undo_move. rewrite Hmh, pop_last_app.
  rewrite (set_piece_locates _ _ _ _ _ Lf). cbn [bind].
  rewrite (set_piece_locates _ _ _ _ _ Lt). cbn [bind].
  rewrite H3. cbn [bind]. rewrite H4. cbn [bind].
  destruct U as (Uw & _ & _ & Uph & Umh & _).
  cbn [white_to_play position_history move_history with_move_history] in Uw, Uph, Umh.
  cbn [position_history with_white_to_play with_clocks with_en_passant
       with_castling_rights].
  rewrite Uph, Hph, pop_last_app.
  eexists. split; [reflexivity|].
  cbn. rewrite Uw, Umh. repeat split.
Qed.

Lemma cell_cond (a b r c : Z) :
  in_board a b && (a =? r) && (b =? c) = true ->
  in_board r c = true /\ a = r /\ b = c.
Proof.
  intros H. apply andb_prop in H. destruct H as (H & Hc).
  apply andb_prop in H. destruct H as (Hin & Hr).
  apply Z.eqb_eq in Hr. apply Z.eqb_eq in Hc. subst. auto.
Qed.

Lemma get_fen_same (p q : Board) : same_position p q -> get_fen q = get_fen p.
Proof.
  intros (Hb & Hw & Hc & He & Hh & Hf & _).
  unfold get_fen, has_right. rewrite Hb, Hw, Hc, He, Hh, Hf. reflexivity.
Qed.

Lemma existsb_same_squares (m : Move) (ms : list Move) :
  In m ms -> existsb (same_squares m) ms = true.
Proof.
  intros H. apply existsb_exists. exists m. split; [exact H|].
  unfold same_squares. rewrite !String.eqb_refl. reflexivity.
Qed.

(** A legal move of a position that is not over gets past both early
    returns of [make_move]. *)
Lemma legal_move_applied (p p0 q0 : Board) (g : GameOver) (m : Move)
    (ms : list Move) (cl : bool) :
  is_game_over p = Some (p0, g) -> over g = false ->
  get_moves p = Some (q0, ms) -> In m ms ->
  applied p m cl.
Proof.
  intros Hgo Hover Hgm Hin. exists p0, g. repeat split; try assumption.
  intros _. destruct (is_game_over_continue _ _ _ Hgo Hover) as (m0 & ms0 & Hc).
  rewrite Hgm in Hc. injection Hc as -> ->.
  exists p0, (m0 :: ms0). split; [eapply get_moves_again; exact Hgm|].
  apply existsb_same_squares. exact Hin.
Qed.

(** What the generator tells about a legal move: it starts on a square of
    the board holding a piece of the side to move, for which it was
    generated. *)
Lemma legal_move_origin (p q0 : Board) (m : Move) (ms : list Move) :
  cache_ok p -> get_moves p = Some (q0, ms) -> In m ms ->
  exists r c l,
    in_board r c = true
    /\ locates (from_sq m) r c
    /\ is_empty_str (from_sq m) = false
    /\ bd (board p) r c <> Piece.NONE
    /\ (bd (board p) r c <=? Piece.WHITE_KING) = white_to_play p
    /\ _generate_moves_for_piece p r c (bd (board p) r c) = Some l
    /\ from_sq m = coords_to_square r c
    /\ In m l.
Proof.
  intros Hok Hgm Hin.
  destruct (get_moves_filter _ _ _ Hok Hgm) as (pseudo & Hps & -> & _).
  apply filter_In in Hin. destruct Hin as (Hin & _).
  destruct (pseudo_moves_origin p m all_coords pseudo Hps Hin)
    as (r & c & l & Hrc & Hne & Hcol & Hgen & Hl).
  pose proof (generated_moves_from _ _ _ _ _ _ Hgen Hl) as Hfrom.
  destruct (coords_round_trip r c Hrc) as (He & Hdec & Hb).
  exists r, c, l. rewrite Hfrom.
  repeat split; try assumption. right. auto.
Qed.

Ltac wf_solve := repeat apply grid_wf_place; assumption.

Ltac cells :=
  repeat rewrite peek_place by wf_solve;
  repeat match goal with
         | |- context [if in_board ?a ?b && (?a =? ?r) && (?b =? ?c) then _ else _] =>
             let E := fresh "E" in
             destruct (in_board a b && (a =? r) && (b =? c)) eqn:E;
             [apply cell_cond in E; destruct E as (? & ? & ?); subst|]
         end.

Lemma generate_for_white_king (p : Board) (r c : Z) :
  _generate_moves_for_piece p r c Piece.WHITE_KING
  = Some (_generate_king_moves p r c (coords_to_square r c) true).
Proof. reflexivity. Qed.

Lemma generate_for_black_king (p : Board) (r c : Z) :
  _generate_moves_for_piece p r c Piece.BLACK_KING
  = Some (_generate_king_moves p r c (coords_to_square r c) false).
Proof. reflexivity. Qed.

Lemma castle_squares_located (cs : Castle) :
  In cs castles ->
  locates (c_from cs) (c_row cs) 4
  /\ locates (c_to cs) (c_row cs) (c_king_to cs)
  /\ is_empty_str (c_to cs) = false
  /\ _generate_moves_for_piece = _generate_moves_for_piece.
Proof.
  intros [<-|[<-|[<-|[<-|[]]]]]; repeat split; locate_const.
Qed.

(** C1 (corrected).  In a position where the game is not over, on an 8x8
    grid, whose castling rights and en passant target agree with the grid
    and whose memo is usable: if [make_move] on a move of the legal-move
    list returns, then [undo_move] on the state it leaves returns too and
    gives back the board, side to move, castling rights, en passant target,
    both counters and both histories, hence the same FEN text.  This covers
    castling, en passant captures and promotions. *)
Theorem make_then_undo_restores (p p0 q0 q : Board) (g : GameOver) (m : Move)
    (ms : list Move) (cl : bool) (res : MoveResult) :
  grid_wf (board p) = true ->
  cache_ok p ->
  castling_consistent p ->
  en_passant_consistent p ->
  is_game_over p = Some (p0, g) -> over g = false ->
  get_moves p = Some (q0, ms) -> In m ms ->
  make_move p m cl = Some (q, res) ->
  exists q', undo_move q = Some q'
             /\ same_position p q'
             /\ get_fen q' = get_fen p.
Proof.
  intros Hwf Hok Hcast Hep Hgo Hover Hgm Hin Hmm.
  assert (Hgoal : exists q', undo_move q = Some q' /\ same_position p q').
  2:{ destruct Hgoal as (q' & Hu & Hs). exists q'.
      split; [exact Hu | split; [exact Hs | apply get_fen_same; exact Hs]]. }
  pose proof (legal_move_applied _ _ _ _ _ _ cl Hgo Hover Hgm Hin) as Happ.
  destruct (make_move_applied _ _ _ _ _ Hmm Happ) as (k & Hap).
  destruct (legal_move_origin _ _ _ _ Hok Hgm Hin)
    as (r & c & l & Hrc & Lf & Hfne & Hpne & Hcol & Hgen & Hfrom & Hl).
  apply apply_move_inv in Hap.
  destruct Hap as (fp & tp & p1 & cm & p3 & epc & promo & p4 & final
                   & Hfp & Htp & Hc & He & Hp & Hb & Hfin & _).
  change (get_piece (with_cache p k) (from_sq m)) with (get_piece p (from_sq m)) in Hfp.
  change (get_piece (with_cache p k) (to_sq m)) with (get_piece p (to_sq m)) in Htp.
  rewrite (get_piece_locates _ _ _ _ Lf) in Hfp. injection Hfp as Hfp.
  destruct (get_piece_located _ _ _ Htp) as (tr & tc & Lt).
  rewrite (get_piece_locates _ _ _ _ Lt) in Htp. injection Htp as Htp.
  assert (Hfp' : fp = bd (board p) r c) by (unfold peek in Hfp; rewrite Hrc in Hfp; auto).
  pose proof (make_move_castling_frame _ _ _ _ _ Hc) as (U1 & _).
  pose proof (make_move_en_passant_frame _ _ _ _ _ _ He) as (U2 & _).
  pose proof (make_move_board_frame _ _ _ _ _ _ Hb) as (U3 & _).
  assert (U : untouched (with_cache p k) p4).
  { eapply untouched_trans; [|exact U3]. eapply untouched_trans; [exact U1|].
    eapply untouched_trans; [|exact U2]. repeat split. }
  apply is_game_over_state in Hfin.
  apply make_move_castling_cases in Hc.
  apply make_move_en_passant_cases in He.
  remember (moves_cache q) as kq eqn:Hkq. clear Hkq. subst q.
  destruct (make_move_board_cases _ _ _ _ _ _ _ _ _ _ Hb Lf Lt) as [(-> & ->)|(-> & x & Hb4)].
  - (* a castle *)
    destruct Hc as [(Habs & _)|(_ & cs & Hcs & Hking & Hcf & Hct & Hright & Hb1)];
      [discriminate|].
    destruct He as [(-> & Hb3)|(-> & _ & w & cap & er & ec & Hpawn & _)].
    2:{ exfalso. rewrite Hking in Hpawn.
        destruct Hcs as [<-|[<-|[<-|[<-|[]]]]], w; discriminate. }
    destruct (castle_squares_located cs Hcs) as (Lf' & Lt' & Hte & _).
    rewrite Hcf in Lf, Hfne. rewrite Hct in Lt.
    pose proof (locates_fun _ _ _ _ _ Lf Lf' Hfne) as Efrom. injection Efrom as -> ->.
    pose proof (locates_fun _ _ _ _ _ Lt Lt' Hte) as Eto. injection Eto as -> ->.
    assert (Hrook : bd (board p) (c_row cs) (c_rook_from cs) = c_rook cs).
    { destruct Hcast as (H1 & H2 & H4 & H8).
      destruct Hcs as [<-|[<-|[<-|[<-|[]]]]]; auto. }
    assert (Hempty : bd (board p) (c_row cs) (c_rook_to cs) = Piece.NONE).
    { apply (castle_rook_square_empty p m cs Hcs); [|exact Hct].
      rewrite <- Hfp', Hking in Hgen.
      destruct Hcs as [<-|[<-|[<-|[<-|[]]]]]; cbn [c_king c_row] in *;
        first [rewrite generate_for_white_king in Hgen
              |rewrite generate_for_black_king in Hgen];
        injection Hgen as <-; exact Hl. }
    clear Hmm Happ Hgm Hin Hgo Hgen Hl.
    match goal with
    | |- exists q', undo_move (with_cache (make_move_bookkeeping _ ?rec0) _) = _ /\ _ =>
        set (rec := rec0)
    end.
    set (Q := with_cache (make_move_bookkeeping p3 rec) kq).
    pose (P3 := set_at (set_at
                  (set_at (set_at (with_move_history Q (move_history p3))
                             (c_row cs) 4 fp) (c_row cs) (c_king_to cs) tp)
                  (c_row cs) (c_rook_from cs) (c_rook cs))
                  (c_row cs) (c_rook_to cs) Piece.NONE).
    assert (UP3 : untouched (with_move_history Q (move_history p3)) P3).
    { unfold P3.
      repeat (eapply untouched_trans; [|apply set_at_frame]). apply untouched_refl. }
    destruct (undo_move_spec Q P3 P3 (move_history p3) rec (position_history p3)
                (_get_position_hash
                   (with_white_to_play
                      (with_clocks
                         (with_move_history p3 (move_history p3 ++ [rec]))
                         (if is_pawn_piece fp || negb (tp =? Piece.NONE) || false
                          then 0 else halfmove p3 + 1)
                         (if negb (white_to_play p3) then fullmove p3 + 1
                          else fullmove p3))
                      (negb (white_to_play p3))))
                (c_row cs) 4 (c_row cs) (c_king_to cs)
                eq_refl eq_refl)
      as (q' & Hu & Hqb & Hqw & Hqc & Hqe & Hqh & Hqf & Hqp & Hqm).
    { cbn [rec u_move from_sq]. rewrite Hcf. exact Lf. }
    { cbn [rec u_move to_sq]. rewrite Hct. exact Lt. }
    { cbn [rec u_castling_move u_from_piece u_to_piece u_move].
      apply (undo_castling_spec _ _ cs Hcs); assumption. }
    { reflexivity. }
    { exact UP3. }
    exists q'. split; [exact Hu|].
    destruct U as (Uw & Uh & Uf & Uph & Umh & _).
    cbn [white_to_play halfmove fullmove position_history move_history with_cache]
      in Uw, Uh, Uf, Uph, Umh.
    unfold same_position.
    rewrite Hqb, Hqw, Hqc, Hqe, Hqh, Hqf, Hqp, Hqm.
    split; [|cbn; rewrite ?Uw, ?Uh, ?Uf, ?Uph, ?Umh, ?negb_involutive; repeat split].
    unfold P3. rewrite !board_set_at.
    change (board (with_move_history Q (move_history p3))) with (board p3).
    rewrite Hb3. cbn [board with_castling_rights]. rewrite Hb1.
    cbn [board with_cache]. unfold castled.
    apply grid_wf_ext; [wf_solve | exact Hwf |].
    intros r' c' Hin'. cells; try reflexivity;
      unfold peek; rewrite Hin'; congruence.
  - (* an ordinary move, a promotion or an en passant capture *)
    destruct Hc as [(_ & Hb1)|(Habs & _)]; [|discriminate].
    clear Hmm Happ Hgm Hin Hgo.
    destruct U as (Uw & Uh & Uf & Uph & Umh & _).
    cbn [white_to_play halfmove fullmove position_history move_history with_cache]
      in Uw, Uh, Uf, Uph, Umh.
    match goal with
    | |- exists q', undo_move (with_cache (make_move_bookkeeping _ ?rec0) _) = _ /\ _ =>
        set (rec := rec0)
    end.
    set (Q := with_cache (make_move_bookkeeping p4 rec) kq).
    pose (P3 := set_at (set_at (with_move_history Q (move_history p4)) r c fp)
                  tr tc tp).
    assert (UP3 : untouched (with_move_history Q (move_history p4)) P3).
    { unfold P3.
      repeat (eapply untouched_trans; [|apply set_at_frame]). apply untouched_refl. }
    destruct He as [(Hepc & Hb3)|(Hepc & Hprev & w & cap & er & ec & Hpawn & Hcap & Lc & Hb3)].
    + (* no capture en passant *)
      destruct (undo_move_spec Q P3 P3 (move_history p4) rec (position_history p4)
                  (_get_position_hash
                     (with_white_to_play
                        (with_clocks
                           (with_move_history p4 (move_history p4 ++ [rec]))
                           (if is_pawn_piece fp || negb (tp =? Piece.NONE) || epc
                            then 0 else halfmove p4 + 1)
                           (if negb (white_to_play p4) then fullmove p4 + 1
                            else fullmove p4))
                        (negb (white_to_play p4))))
                  r c tr tc eq_refl eq_refl)
        as (q' & Hu & Hqb & Hqw & Hqc & Hqe & Hqh & Hqf & Hqp & Hqm);
        try assumption.
      { cbn [rec u_castling_move]. reflexivity. }
      { cbn [rec u_en_passant_capture]. rewrite Hepc. reflexivity. }
      exists q'. split; [exact Hu|].
      unfold same_position.
      rewrite Hqb, Hqw, Hqc, Hqe, Hqh, Hqf, Hqp, Hqm.
      split; [|cbn; rewrite ?Uw, ?Uh, ?Uf, ?Uph, ?Umh, ?negb_involutive; repeat split].
      unfold P3. rewrite !board_set_at.
      change (board (with_move_history Q (move_history p4))) with (board p4).
      rewrite Hb4, Hb3. cbn [board with_castling_rights]. rewrite Hb1.
      cbn [board with_cache].
      apply grid_wf_ext; [wf_solve | exact Hwf |].
      intros r' c' Hin'. cells; reflexivity.
    + (* a capture en passant *)
      assert (Hw : w = white_to_play p).
      { rewrite <- Hcol, <- Hfp', Hpawn. destruct w; reflexivity. }
      assert (Hdec : square_to_coords cap = Some (er, ec)).
      { destruct Lc as [(He1 & _)|(_ & Hd)]; [|exact Hd].
        unfold captured_square in Hcap.
        repeat bind_inv Hcap. injection Hcap as <-. discriminate He1. }
      assert (Hpawn' : in_board er ec = true ->
                bd (board p) er ec
                = (if w then Piece.BLACK_PAWN else Piece.WHITE_PAWN)).
      { intros Hbrd. rewrite Hw. apply (Hep (to_sq m) cap); try assumption.
        rewrite <- Hw. exact Hcap. }
      pose (P4 := set_at P3 er ec (if w then Piece.BLACK_PAWN else Piece.WHITE_PAWN)).
      destruct (undo_move_spec Q P3 P4 (move_history p4) rec (position_history p4)
                  (_get_position_hash
                     (with_white_to_play
                        (with_clocks
                           (with_move_history p4 (move_history p4 ++ [rec]))
                           (if is_pawn_piece fp || negb (tp =? Piece.NONE) || epc
                            then 0 else halfmove p4 + 1)
                           (if negb (white_to_play p4) then fullmove p4 + 1
                            else fullmove p4))
                        (negb (white_to_play p4))))
                  r c tr tc eq_refl eq_refl)
        as (q' & Hu & Hqb & Hqw & Hqc & Hqe & Hqh & Hqf & Hqp & Hqm);
        try assumption.
      { cbn [rec u_castling_move]. reflexivity. }
      { cbn [rec u_en_passant_capture u_from_piece u_move]. rewrite Hepc, Hpawn.
        apply (undo_en_passant_spec _ _ _ cap); [exact Hcap | exact Lc]. }
      { unfold P4. eapply untouched_trans; [exact UP3 | apply set_at_frame]. }
      exists q'. split; [exact Hu|].
      unfold same_position.
      rewrite Hqb, Hqw, Hqc, Hqe, Hqh, Hqf, Hqp, Hqm.
      split; [|cbn; rewrite ?Uw, ?Uh, ?Uf, ?Uph, ?Umh, ?negb_involutive; repeat split].
      unfold P4, P3. rewrite !board_set_at.
      change (board (with_move_history Q (move_history p4))) with (board p4).
      rewrite Hb4, Hb3. cbn [board with_castling_rights]. rewrite Hb1.
      cbn [board with_cache].
      apply grid_wf_ext; [wf_solve | exact Hwf |].
      intros r' c' Hin'. cells; try reflexivity.
      unfold peek. rewrite Hin'. symmetry. apply Hpawn'. exact Hin'.
Qed.

Lemma make_then_undo_restores_witness :
  exists q res q',
    make_move en_passant_board (mkMove "E5" "D6" None) true = Some (q, res)
    /\ require_sync res = true
    /\ undo_move q = Some q'
    /\ get_fen q' = get_fen en_passant_board.
Proof.
  assert (Hex : exists q res,
             make_move en_passant_board (mkMove "E5" "D6" None) true = Some (q, res)
             /\ require_sync res = true)
    by (vm_compute; eauto).
  destruct Hex as (q & res & Hmm & Hsync). exists q, res.
  assert (Hgo : exists p0 g ms,
             is_game_over en_passant_board = Some (p0, g) /\ over g = false
             /\ get_moves en_passant_board = Some (p0, ms)
             /\ In (mkMove "E5" "D6" None) ms).
  { vm_compute. eexists. eexists. eexists.
    split; [reflexivity|]. split; [reflexivity|]. split; [reflexivity|].
    simpl. tauto. }
  destruct Hgo as (p0 & g & ms & Hgo & Hover & Hgm & Hin).
  destruct (make_then_undo_restores en_passant_board p0 p0 q g
              (mkMove "E5" "D6" None) ms true res)
    as (q' & Hu & _ & Hfen); try assumption.
  - reflexivity.
  - intros l Hl. injection Hl as <-. vm_compute. eauto.
  - repeat split; intros _; reflexivity.
  - intros target cap r c Ht Hc Hd _.
    injection Ht as <-. vm_compute in Hc. injection Hc as <-.
    vm_compute in Hd. injection Hd as <- <-. reflexivity.
  - exists q'. auto.
Defined.

(** Why the game must not be over: on a position drawn by the fifty-move
    rule [make_move] returns without moving although the mover has legal
    moves, and [undo_move] then takes back the move made before. *)
Example undo_after_refused_move :
  (p <- play (new_board (Some "4k3/8/8/8/8/8/4P3/4K3 w - - 99 60")) "E1" "D1" ;;
   from_e8 <- legal_moves_from p "E8" ;;
   '(q, res) <- make_move p (mkMove "E8" "D8" None) true ;;
   r <- undo_move q ;;
   Some (List.length from_e8, m_reason res, get_fen p, get_fen r))
  = Some (5%nat, Some "50-move rule",
          "4k3/8/8/8/8/8/4P3/3K4 b - - 100 60",
          "4k3/8/8/8/8/8/4P3/4K3 w - - 99 60").
Proof. vm_compute. reflexivity. Qed.

(** ** Queries are repeatable *)

Lemma same_but_memo_with_cache (p : Board) (k : option (string * list Move)) :
  same_but_memo p (with_cache p k).
Proof. repeat split. Qed.

(** [get_moves] changes nothing but the memo, and asking again returns the
    same list without changing anything at all. *)
Theorem get_moves_repeatable (p q : Board) (ms : list Move) :
  get_moves p = Some (q, ms) ->
  same_but_memo p q /\ get_moves q = Some (q, ms).
Proof.
  intros H. split; [|eapply get_moves_again; exact H].
  apply get_moves_state in H. subst q. apply same_but_memo_with_cache.
Qed.

Lemma get_moves_repeatable_witness :
  exists q ms,
    get_moves pinned_board = Some (q, ms)
    /\ board q = board pinned_board
    /\ get_moves q = Some (q, ms).
Proof.
  assert (Hex : exists q ms, get_moves pinned_board = Some (q, ms))
    by (vm_compute; eauto).
  destruct Hex as (q & ms & H). exists q, ms. split; [exact H|].
  destruct (get_moves_repeatable _ _ _ H) as (((Hb & _) & _) & Hagain).
  auto.
Defined.

Lemma is_game_over_again (p q : Board) (g : GameOver) :
  is_game_over p = Some (q, g) -> is_game_over q = Some (q, g).
Proof.
  intros H. pose proof H as H0. unfold is_game_over in H.
  destruct (if timers_enabled p then timeout_result p else None) eqn:E1.
  { injection H as <- _. exact H0. }
  destruct (100 <=? halfmove p) eqn:E2.
  { injection H as <- _. exact H0. }
  destruct (is_insufficient_material p) eqn:E3.
  { injection H as <- _. exact H0. }
  destruct (is_threefold_repetition p) eqn:E4.
  { injection H as <- _. exact H0. }
  destruct (get_moves p) as [[p1 moves]|] eqn:E; [|discriminate].
  cbn [bind] in H.
  assert (Hq : q = p1).
  { destruct moves; [destruct (is_king_attacked p1 (white_to_play p1))|];
      injection H as <- _; reflexivity. }
  subst p1. pose proof (get_moves_again _ _ _ E) as Hagain.
  pose proof (get_moves_state _ _ _ E) as Hp1.
  unfold is_game_over.
  assert (T1 : timers_enabled q = timers_enabled p) by (rewrite Hp1; reflexivity).
  assert (T2 : timeout_result q = timeout_result p) by (rewrite Hp1; reflexivity).
  assert (T3 : halfmove q = halfmove p) by (rewrite Hp1; reflexivity).
  assert (T4 : is_insufficient_material q = is_insufficient_material p)
    by (rewrite Hp1; reflexivity).
  assert (T5 : is_threefold_repetition q = is_threefold_repetition p)
    by (rewrite Hp1; reflexivity).
  rewrite T1, T2, E1, T3, E2, T4, E3, T5, E4, Hagain. cbn [bind]. exact H.
Qed.


(** [is_game_over] changes nothing but the memo, and asking again on the
    returned state gives the same verdict and the same state. *)
Theorem is_game_over_repeatable (p q : Board) (g : GameOver) :
  is_game_over p = Some (q, g) ->
  same_but_memo p q /\ is_game_over q = Some (q, g).
Proof.
  intros H. split; [|eapply is_game_over_again; exact H].
  rewrite (is_game_over_state _ _ _ H). apply same_but_memo_with_cache.
Qed.

Lemma is_game_over_repeatable_witness :
  exists q g,
    is_game_over pinned_board = Some (q, g)
    /\ over g = false
    /\ is_game_over q = Some (q, g).
Proof.
  assert (Hex : exists q g, is_game_over pinned_board = Some (q, g) /\ over g = false)
    by (vm_compute; eauto).
  destruct Hex as (q & g & H & Hover). exists q, g.
  split; [exact H|]. split; [exact Hover|].
  apply (is_game_over_repeatable _ _ _ H).
Defined.

(** ** What [make_move] reports *)

Lemma is_game_over_not_over (p q : Board) (g : GameOver) :
  is_game_over p = Some (q, g) -> over g = false ->
  g = mkGameOver false None None.
Proof.
  unfold is_game_over. intros H Hover.
  destruct (if timers_enabled p then timeout_result p else None).
  { injection H as _ <-. discriminate. }
  destruct (100 <=? halfmove p).
  { injection H as _ <-. discriminate. }
  destruct (is_insufficient_material p).
  { injection H as _ <-. discriminate. }
  destruct (is_threefold_repetition p).
  { injection H as _ <-. discriminate. }
  bind_inv H. destruct p0 as [p1 moves].
  destruct moves;
    [destruct (is_king_attacked p1 (white_to_play p1))|];
    injection H as _ <-; try discriminate; reflexivity.
Qed.

(** After an applied move, the status returned by [make_move] is the one
    [is_game_over] gives for the new position, and [require_sync] is set
    exactly when the pushed undo record is a castle, an en passant capture
    or a promotion. *)
Theorem make_move_reports_status (p q : Board) (m : Move) (cl : bool)
    (res : MoveResult) :
  make_move p m cl = Some (q, res) ->
  applied p m cl ->
  exists final record,
    is_game_over q = Some (q, final)
    /\ m_over res = over final
    /\ m_reason res = reason final
    /\ m_winner res = winner final
    /\ move_history q = move_history p ++ [record]
    /\ require_sync res
       = u_castling_move record || u_en_passant_capture record
         || truthy_int (u_promotion record).
Proof.
  intros Hmm Happ.
  destruct (make_move_applied _ _ _ _ _ Hmm Happ) as (k & Hap).
  pose proof (apply_move_frame _ _ _ _ Hap) as (rec0 & p4' & U & _).
  apply apply_move_inv in Hap.
  destruct Hap as (fp & tp & p1 & cm & p3 & epc & promo & p4 & final
                   & _ & _ & Hc & He & _ & Hb & Hgo & Hsync & Hov & Hrw).
  exists final.
  exists (mkUndo (mkMove (from_sq m) (to_sq m) None) fp tp cm epc
            (en_passant (with_cache p k)) (castling_rights (with_cache p k))
            (halfmove p4) (fullmove p4) promo).
  pose proof (is_game_over_again _ _ _ Hgo) as Hagain.
  split; [exact Hagain|]. split; [exact Hov|].
  assert (Hrw' : m_reason res = reason final /\ m_winner res = winner final).
  { destruct (over final) eqn:Hof; [exact Hrw|].
    rewrite (is_game_over_not_over _ _ _ Hgo Hof). exact Hrw. }
  destruct Hrw' as (Hr & Hw). split; [exact Hr|]. split; [exact Hw|].
  split; [|exact Hsync].
  apply make_move_castling_frame in Hc. destruct Hc as (U1 & _).
  apply make_move_en_passant_frame in He. destruct He as (U2 & _).
  apply make_move_board_frame in Hb. destruct Hb as (U3 & _).
  apply is_game_over_state in Hgo. rewrite Hgo. cbn.
  destruct U1 as (_ & _ & _ & _ & M1 & _).
  destruct U2 as (_ & _ & _ & _ & M2 & _).
  destruct U3 as (_ & _ & _ & _ & M3 & _).
  cbn in M1, M2. rewrite M3, M2, M1. reflexivity.
Qed.

Lemma make_move_reports_status_witness :
  exists q res,
    make_move en_passant_board (mkMove "E5" "D6" None) true = Some (q, res)
    /\ require_sync res = true
    /\ exists final, is_game_over q = Some (q, final) /\ m_over res = over final.
Proof.
  assert (Hex : exists q res,
             make_move en_passant_board (mkMove "E5" "D6" None) true = Some (q, res)
             /\ require_sync res = true)
    by (vm_compute; eauto).
  destruct Hex as (q & res & Hmm & Hsync). exists q, res.
  split; [exact Hmm|]. split; [exact Hsync|].
  destruct (make_move_reports_status _ _ _ _ _ Hmm)
    as (final & record & Hgo & Hov & _).
  { eexists. eexists. split; [vm_compute; reflexivity|].
    split; [reflexivity|]. intros _. eexists. eexists.
    split; [vm_compute; reflexivity|]. vm_compute. reflexivity. }
  exists final. auto.
Defined.

(** ** Squares and their text *)

Lemma in_board_all_coords (r c : Z) :
  in_board r c = true -> In (r, c) all_coords.
Proof.
  unfold in_board. intros H.
  assert (Hr : r = 0 \/ r = 1 \/ r = 2 \/ r = 3 \/ r = 4 \/ r = 5 \/ r = 6 \/ r = 7) by lia.
  assert (Hc : c = 0 \/ c = 1 \/ c = 2 \/ c = 3 \/ c = 4 \/ c = 5 \/ c = 6 \/ c = 7) by lia.
  clear H.
  repeat (destruct Hr as [->|Hr]); try subst r;
    repeat (destruct Hc as [->|Hc]); try subst c;
    vm_compute; tauto.
Qed.

Lemma ascii_of_ord (ch : ascii) : ch = ascii_of_N (Z.to_N (Py.ord ch)).
Proof.
  unfold Py.ord. rewrite N2Z.id. symmetry. apply ascii_N_embedding.
Qed.

Lemma square_to_coords_two (f d : ascii) :
  square_to_coords (String f (String d ""))
  = if Py.isdecimal d then Some (8 - (Py.ord d - 48), Py.ord f - 65) else None.
Proof.
  unfold square_to_coords, Py.int_char. cbn [Py.char_at String.get bind].
  destruct (Py.isdecimal d); reflexivity.
Qed.

(** On the board, [coords_to_square] and [square_to_coords] are inverse to
    each other: a cell's name decodes to the cell, and a two-character
    text whose second character is one of '0'..'9' and that decodes to a
    cell of the board is that cell's name. *)
Theorem square_codec_round_trip (r c : Z) :
  in_board r c = true ->
  square_to_coords (coords_to_square r c) = Some (r, c)
  /\ forall f d,
       Py.isdecimal d = true ->
       square_to_coords (String f (String d "")) = Some (r, c) ->
       coords_to_square r c = String f (String d "").
Proof.
  intros Hin. split.
  - apply coords_round_trip. apply in_board_all_coords. exact Hin.
  - intros f d Hd H. rewrite square_to_coords_two, Hd in H.
    assert (Hr : 8 - (Py.ord d - 48) = r) by congruence.
    assert (Hc : Py.ord f - 65 = c) by congruence.
    clear H.
    rewrite (ascii_of_ord f), (ascii_of_ord d).
    unfold in_board in Hin.
    assert (Ef : Py.ord f = c + 65) by lia.
    assert (Ed : Py.ord d = 56 - r) by lia.
    rewrite Ef, Ed.
    assert (Hr' : r = 0 \/ r = 1 \/ r = 2 \/ r = 3 \/ r = 4 \/ r = 5 \/ r = 6 \/ r = 7) by lia.
    assert (Hc' : c = 0 \/ c = 1 \/ c = 2 \/ c = 3 \/ c = 4 \/ c = 5 \/ c = 6 \/ c = 7) by lia.
    clear - Hr' Hc'.
    repeat (destruct Hr' as [->|Hr']); try subst r;
      repeat (destruct Hc' as [->|Hc']); try subst c;
      reflexivity.
Qed.

Lemma square_codec_round_trip_witness :
  square_to_coords (coords_to_square 4 4) = Some (4, 4)
  /\ coords_to_square 4 4 = "E4".
Proof.
  destruct (square_codec_round_trip 4 4 eq_refl) as (H1 & H2).
  split; [exact H1|]. apply (H2 "E"%char "4"%char); reflexivity.
Defined.

(** ** Writing and reading a square *)

(** On an 8x8 grid, [set_piece] on a decodable square never raises; a
    later [get_piece] returns the piece written when it reads the same
    cell of the board and the old content of any other cell; off the board
    [set_piece] changes nothing and [get_piece] returns NONE; the grid
    stays 8x8. *)
Theorem set_piece_then_get_piece (p : Board) (x : Z) (sq sq' : string)
    (r c r' c' : Z) :
  grid_wf (board p) = true ->
  square_to_coords sq = Some (r, c) ->
  square_to_coords sq' = Some (r', c') ->
  exists q,
    set_piece p x sq = Some q
    /\ grid_wf (board q) = true
    /\ get_piece q sq'
       = Some (if in_board r c && (r =? r') && (c =? c') then x
               else if in_board r' c' then bd (board p) r' c' else Piece.NONE)
    /\ (in_board r c = false -> q = p).
Proof.
  intros Hwf Hs Hs'.
  assert (Hne : forall s rc, square_to_coords s = Some rc -> is_empty_str s = false).
  { intros s rc H. destruct s; [discriminate | reflexivity]. }
  assert (L : locates sq r c) by (right; split; [eapply Hne; eauto | exact Hs]).
  assert (L' : locates sq' r' c') by (right; split; [eapply Hne; eauto | exact Hs']).
  exists (set_at p r c x).
  split; [apply set_piece_locates; exact L|].
  split; [rewrite board_set_at; apply grid_wf_place; exact Hwf|].
  split.
  - rewrite (get_piece_locates _ _ _ _ L'), board_set_at, peek_place by exact Hwf.
    reflexivity.
  - intros Hout. unfold set_at. rewrite Hout. reflexivity.
Qed.

Lemma set_piece_then_get_piece_witness :
  exists q,
    set_piece start_board Piece.WHITE_QUEEN "E4" = Some q
    /\ get_piece q "E4" = Some Piece.WHITE_QUEEN
    /\ get_piece q "E2" = Some Piece.WHITE_PAWN
    /\ get_piece q "E9" = Some Piece.NONE.
Proof.
  destruct (set_piece_then_get_piece start_board Piece.WHITE_QUEEN "E4" "E4"
              4 4 4 4 eq_refl eq_refl eq_refl) as (q & Hq & _ & Hg & _).
  destruct (set_piece_then_get_piece start_board Piece.WHITE_QUEEN "E4" "E2"
              4 4 6 4 eq_refl eq_refl eq_refl) as (q2 & Hq2 & _ & Hg2 & _).
  destruct (set_piece_then_get_piece start_board Piece.WHITE_QUEEN "E4" "E9"
              4 4 (-1) 4 eq_refl eq_refl eq_refl) as (q3 & Hq3 & _ & Hg3 & _).
  rewrite Hq in Hq2, Hq3. injection Hq2 as <-. injection Hq3 as <-.
  exists q. repeat split; assumption.
Defined.

(** ** Loading a position *)

Lemma grid_wf_upd (b : grid) (i j : nat) (x : Z) :
  grid_wf b = true -> grid_wf (upd b i j x) = true.
Proof.
  intros Hwf.
  pose proof (grid_wf_rows b Hwf) as Hrows.
  pose proof (upd_shape b i j x) as Hs. rewrite Hrows in Hs.
  unfold grid_wf. rewrite upd_length.
  unfold grid_wf in Hwf. apply andb_prop in Hwf. destruct Hwf as (-> & _).
  cbn [andb]. apply forallb_forall. intros row Hin.
  apply Nat.eqb_eq.
  assert (Hl : In (List.length row) (map (@List.length Z) (upd b i j x))).
  { apply in_map. exact Hin. }
  rewrite Hs in Hl. apply repeat_spec in Hl. exact Hl.
Qed.

Lemma forallb_lupd {A : Type} (f : A -> bool) (l : list A) (i : nat) (x : A) :
  forallb f l = true -> f x = true -> forallb f (lupd l i x) = true.
Proof.
  revert i; induction l as [|h t IH]; intros [|i] Hl Hx; simpl in *; auto;
    apply andb_prop in Hl; destruct Hl as (Hh & Ht);
    apply andb_true_intro; auto.
Qed.

Lemma forallb_nth_error {A : Type} (f : A -> bool) (l : list A) (i : nat) (x : A) :
  forallb f l = true -> nth_error l i = Some x -> f x = true.
Proof.
  intros Hl Hn. rewrite forallb_forall in Hl. apply Hl.
  eapply nth_error_In. exact Hn.
Qed.

Lemma grid_pieces_ok_upd (b : grid) (i j : nat) (x : Z) :
  grid_pieces_ok b = true -> 0 <= x <= 12 ->
  grid_pieces_ok (upd b i j x) = true.
Proof.
  intros Hok Hx. unfold grid_pieces_ok, upd in *.
  destruct (nth_error b i) as [row|] eqn:E; [|exact Hok].
  apply forallb_lupd; [exact Hok|].
  apply forallb_lupd; [eapply forallb_nth_error; eassumption|].
  apply andb_true_intro. split; lia.
Qed.

Lemma grid_pieces_ok_bd (b : grid) (r c : Z) :
  grid_pieces_ok b = true -> 0 <= bd b r c <= 12.
Proof.
  intros Hok. unfold bd, cell.
  destruct (nth_error b (Z.to_nat r)) as [row|] eqn:Er; [|unfold Piece.NONE; lia].
  destruct (nth_error row (Z.to_nat c)) as [x|] eqn:Ec; [|unfold Piece.NONE; lia].
  unfold grid_pieces_ok in Hok.
  pose proof (forallb_nth_error _ _ _ _ Hok Er) as Hrow.
  pose proof (forallb_nth_error _ _ _ _ Hrow Ec) as Hx. cbv beta in Hx.
  apply andb_prop in Hx. lia.
Qed.

Lemma piece_map_range (ch : ascii) : 0 <= piece_map ch <= 12.
Proof.
  unfold piece_map.
  repeat match goal with
         | |- context [if ?c then _ else _] => destruct c
         end;
    unfold Piece.WHITE_PAWN, Piece.WHITE_KNIGHT, Piece.WHITE_BISHOP,
      Piece.WHITE_ROOK, Piece.WHITE_QUEEN, Piece.WHITE_KING, Piece.BLACK_PAWN,
      Piece.BLACK_KNIGHT, Piece.BLACK_BISHOP, Piece.BLACK_ROOK,
      Piece.BLACK_QUEEN, Piece.BLACK_KING, Piece.NONE; lia.
Qed.

Lemma grid_write_inv (b b' : grid) (r c x : Z) :
  grid_write b r c x = Some b' -> exists i j, b' = upd b i j x.
Proof.
  unfold grid_write. intros H. bind_inv H. destruct p as [i j].
  injection H as <-. eauto.
Qed.

Lemma load_row_keeps (row : string) :
  forall b b' r c,
    load_row b r c row = Some b' ->
    grid_wf b = true -> grid_pieces_ok b = true ->
    grid_wf b' = true /\ grid_pieces_ok b' = true.
Proof.
  induction row as [|ch rest IH]; simpl; intros b b' r c H Hwf Hok.
  - injection H as <-. auto.
  - destruct (Py.isdigit ch).
    + bind_inv H. eapply IH; eassumption.
    + bind_inv H.
      match goal with
      | E : grid_write _ _ _ _ = Some _ |- _ =>
          apply grid_write_inv in E; destruct E as (i & j & ->)
      end.
      eapply IH; [exact H | apply grid_wf_upd; exact Hwf |].
      apply grid_pieces_ok_upd; [exact Hok | apply piece_map_range].
Qed.

Lemma load_rows_keeps (rows : list string) (rs : list Z) :
  forall b b',
    load_rows b rows rs = Some b' ->
    grid_wf b = true -> grid_pieces_ok b = true ->
    grid_wf b' = true /\ grid_pieces_ok b' = true.
Proof.
  induction rs as [|r more IH]; simpl; intros b b' H Hwf Hok.
  - injection H as <-. auto.
  - bind_inv H. bind_inv H.
    match goal with
    | E : load_row _ _ _ _ = Some _ |- _ =>
        destruct (load_row_keeps _ _ _ _ _ E Hwf Hok) as (Hwf1 & Hok1)
    end.
    eapply IH; eassumption.
Qed.

(** Clearing the 64 cells of an 8x8 grid gives the empty grid, whatever it
    held. *)
Lemma cleared_grid (b : grid) :
  grid_wf b = true ->
  fold_left (fun g '(r, c) => place g r c Piece.NONE) all_coords b = empty_grid.
Proof.
  intros Hwf.
  assert (Hgen : forall cs g,
            grid_wf g = true ->
            grid_wf (fold_left (fun g '(r, c) => place g r c Piece.NONE) cs g) = true
            /\ forall r c, in_board r c = true ->
                 (In (r, c) cs \/ peek g r c = Piece.NONE) ->
                 peek (fold_left (fun g '(r, c) => place g r c Piece.NONE) cs g) r c
                 = Piece.NONE).
  { induction cs as [|[r0 c0] cs IH]; simpl; intros g Hg.
    - split; [exact Hg|]. intros r c _ [[]|H]. exact H.
    - destruct (IH (place g r0 c0 Piece.NONE) (grid_wf_place _ _ _ _ Hg)) as (W & P).
      split; [exact W|]. intros r c Hin Hcase. apply P; [exact Hin|].
      rewrite peek_place by exact Hg.
      destruct (in_board r0 c0 && (r0 =? r) && (c0 =? c)) eqn:E; [right; reflexivity|].
      destruct Hcase as [[Heq|Hin']|Hp]; [|left; exact Hin'|right; exact Hp].
      injection Heq as -> ->. rewrite Hin, !Z.eqb_refl in E. discriminate. }
  destruct (Hgen all_coords b Hwf) as (W & P).
  apply grid_wf_ext; [exact W | reflexivity |].
  intros r c Hin. rewrite P; [|exact Hin | left; apply in_board_all_coords; exact Hin].
  pose proof (in_board_all_coords r c Hin) as Hrc. vm_compute in Hrc.
  repeat (destruct Hrc as [Hrc|Hrc]; [injection Hrc as <- <-; reflexivity|]).
  contradiction.
Qed.


Lemma update_king_positions_ok (p : Board) : king_cache_ok (_update_king_positions p).
Proof.
  set (step := fun (acc : option (Z * Z) * option (Z * Z)) '(r, c) =>
      let piece := bd (board p) r c in
      if piece =? Piece.WHITE_KING then (Some (r, c), snd acc)
      else if piece =? Piece.BLACK_KING then (fst acc, Some (r, c))
      else acc).
  set (inv := fun (k : Z) (o : option (Z * Z)) (done : list (Z * Z)) =>
      match o with
      | Some (r, c) => In (r, c) done /\ bd (board p) r c = k
      | None => forall r c, In (r, c) done -> bd (board p) r c <> k
      end).
  assert (Hgen : forall cs done acc,
            inv Piece.WHITE_KING (fst acc) done ->
            inv Piece.BLACK_KING (snd acc) done ->
            inv Piece.WHITE_KING (fst (fold_left step cs acc)) (done ++ cs)
            /\ inv Piece.BLACK_KING (snd (fold_left step cs acc)) (done ++ cs)).
  { induction cs as [|[r0 c0] cs IH]; intros done acc Hw Hb.
    - rewrite app_nil_r. auto.
    - cbn [fold_left].
      replace (done ++ (r0, c0) :: cs) with ((done ++ [(r0, c0)]) ++ cs)
        by (rewrite <- app_assoc; reflexivity).
      apply IH.
      + unfold step, inv in *.
        destruct (Z.eqb_spec (bd (board p) r0 c0) Piece.WHITE_KING) as [E|E];
          cbn [fst snd].
        * split; [apply in_or_app; right; left; reflexivity | exact E].
        * assert (Hkeep : match fst acc with
                          | Some (r, c) =>
                              In (r, c) (done ++ [(r0, c0)])
                              /\ bd (board p) r c = Piece.WHITE_KING
                          | None =>
                              forall r c, In (r, c) (done ++ [(r0, c0)]) ->
                                          bd (board p) r c <> Piece.WHITE_KING
                          end).
          { destruct (fst acc) as [[r c]|].
            - destruct Hw. split; [apply in_or_app; left|]; assumption.
            - intros r c Hin. apply in_app_or in Hin.
              destruct Hin as [Hin|[Heq|[]]]; [auto|]. injection Heq as <- <-. exact E. }
          destruct (bd (board p) r0 c0 =? Piece.BLACK_KING); exact Hkeep.
      + unfold step, inv in *.
        destruct (Z.eqb_spec (bd (board p) r0 c0) Piece.WHITE_KING) as [E|E];
          cbn [fst snd].
        * destruct (snd acc) as [[r c]|].
          -- destruct Hb. split; [apply in_or_app; left|]; assumption.
          -- intros r c Hin. apply in_app_or in Hin.
             destruct Hin as [Hin|[Heq|[]]]; [auto|]. injection Heq as <- <-.
             rewrite E. discriminate.
        * destruct (Z.eqb_spec (bd (board p) r0 c0) Piece.BLACK_KING) as [E'|E'];
            cbn [fst snd].
          -- split; [apply in_or_app; right; left; reflexivity | exact E'].
          -- destruct (snd acc) as [[r c]|].
             ++ destruct Hb. split; [apply in_or_app; left|]; assumption.
             ++ intros r c Hin. apply in_app_or in Hin.
                destruct Hin as [Hin|[Heq|[]]]; [auto|]. injection Heq as <- <-.
                exact E'. }
  destruct (Hgen all_coords [] (None, None)) as (Hw & Hb).
  { intros r c []. }
  { intros r c []. }
  cbn [app] in Hw, Hb.
  unfold king_cache_ok, _update_king_positions.
  cbn [king_white king_black board with_kings]. fold step.
  unfold inv in Hw, Hb. split.
  - destruct (fst (fold_left step all_coords (None, None))) as [[r c]|].
    + destruct Hw as (Hin & Hk). split; [apply coords_round_trip; exact Hin | exact Hk].
    + intros r c Hin. apply Hw. apply in_board_all_coords. exact Hin.
  - destruct (snd (fold_left step all_coords (None, None))) as [[r c]|].
    + destruct Hb as (Hin & Hk). split; [apply coords_round_trip; exact Hin | exact Hk].
    + intros r c Hin. apply Hb. apply in_board_all_coords. exact Hin.
Qed.

Lemma king_cache_ok_history (p : Board) (h : list string) :
  king_cache_ok p -> king_cache_ok (with_position_history p h).
Proof. destruct p. exact (fun H => H). Qed.

Lemma load_fen_inv (p q : Board) (fen : string) :
  load_fen p fen = Some q ->
  exists placement color castling ep rest hm fm b,
    Py.split " " fen = placement :: color :: castling :: ep :: rest
    /\ match rest with h :: _ => Py.int h | [] => Some 0 end = Some hm
    /\ match rest with _ :: f :: _ => Py.int f | _ => Some 1 end = Some fm
    /\ load_rows
         (fold_left (fun g '(r, c) => place g r c Piece.NONE) all_coords (board p))
         (Py.split "/" placement) range8 = Some b
    /\ board q = b
    /\ white_to_play q = String.eqb color "w"
    /\ castling_rights q
       = (let cr := 0 in
          let cr := if Py.contains "K" castling then Z.lor cr 1 else cr in
          let cr := if Py.contains "Q" castling then Z.lor cr 2 else cr in
          let cr := if Py.contains "k" castling then Z.lor cr 4 else cr in
          if Py.contains "q" castling then Z.lor cr 8 else cr)
    /\ en_passant q = (if String.eqb ep "-" then None else Some ep)
    /\ halfmove q = hm /\ fullmove q = fm
    /\ position_history q = [_get_position_hash q]
    /\ move_history q = move_history p
    /\ moves_cache q = moves_cache p
    /\ king_cache_ok q.
Proof.
  unfold load_fen. intros H.
  destruct (Py.split " " fen) as [|placement [|color [|castling [|ep rest]]]];
    try discriminate.
  destruct (match rest with h :: _ => Py.int h | [] => Some 0 end) as [hm|] eqn:Ehm;
    [|discriminate].
  cbn [bind] in H.
  destruct (match rest with _ :: f :: _ => Py.int f | _ => Some 1 end) as [fm|] eqn:Efm;
    [|discriminate].
  cbn [bind] in H.
  destruct (load_rows
              (fold_left (fun g '(r, c) => place g r c Piece.NONE) all_coords
                 (board p)) (Py.split "/" placement) range8) as [b|] eqn:Eb;
    [|discriminate].
  cbn [bind] in H. injection H as <-.
  exists placement, color, castling, ep, rest, hm, fm, b.
  split; [reflexivity|]. split; [exact Ehm|]. split; [exact Efm|].
  split; [exact Eb|].
  do 9 (split; [reflexivity|]).
  apply king_cache_ok_history, update_king_positions_ok.
Qed.

(** A successful [load_fen] on an 8x8 grid leaves an 8x8 grid holding only
    NONE and the twelve piece codes, a king cache that agrees with the
    grid, castling rights within 0..15, and a position history holding
    exactly the hash of the loaded position; the move history and the memo
    are kept as they were; and the loaded board, side, rights, target and
    counters do not depend on the state the text is loaded into. *)
Theorem load_fen_establishes (p q : Board) (fen : string) :
  grid_wf (board p) = true ->
  load_fen p fen = Some q ->
  grid_wf (board q) = true
  /\ grid_pieces_ok (board q) = true
  /\ king_cache_ok q
  /\ 0 <= castling_rights q <= 15
  /\ position_history q = [_get_position_hash q]
  /\ move_history q = move_history p
  /\ moves_cache q = moves_cache p
  /\ forall p', grid_wf (board p') = true ->
       exists q', load_fen p' fen = Some q'
                  /\ board q' = board q
                  /\ white_to_play q' = white_to_play q
                  /\ castling_rights q' = castling_rights q
                  /\ en_passant q' = en_passant q
                  /\ halfmove q' = halfmove q
                  /\ fullmove q' = fullmove q.
Proof.
  intros Hwf H. pose proof H as H0. apply load_fen_inv in H.
  destruct H as (placement & color & castling & ep & rest & hm & fm & b
                 & Hsplit & Hhm & Hfm & Hrows & Hb & Hw & Hcr & Hep & Hh & Hf
                 & Hph & Hmh & Hmc & Hk).
  rewrite (cleared_grid _ Hwf) in Hrows.
  destruct (load_rows_keeps _ _ _ _ Hrows eq_refl eq_refl) as (Hwfb & Hokb).
  rewrite Hb.
  repeat (split; [first [assumption | reflexivity]|]).
  split.
  { rewrite Hcr. cbv zeta.
    destruct (Py.contains "K" castling), (Py.contains "Q" castling),
      (Py.contains "k" castling), (Py.contains "q" castling); cbn; lia. }
  repeat (split; [assumption|]).
  intros p' Hwf'.
  unfold load_fen. rewrite Hsplit, Hhm, Hfm. cbn [bind].
  rewrite (cleared_grid _ Hwf'), Hrows. cbn [bind].
  eexists. split; [reflexivity|].
  cbn. rewrite Hw, Hcr, Hep, Hh, Hf. repeat split; reflexivity.
Qed.

Lemma load_fen_establishes_witness :
  exists q,
    load_fen pinned_board DefaultFEN = Some q
    /\ board q = board start_board
    /\ king_white q = Some (7, 4)
    /\ List.length (position_history q) = 1%nat.
Proof.
  assert (Hex : exists q, load_fen pinned_board DefaultFEN = Some q
                          /\ king_white q = Some (7, 4))
    by (vm_compute; eauto).
  destruct Hex as (q & Hq & Hking). exists q. split; [exact Hq|].
  destruct (load_fen_establishes pinned_board q DefaultFEN eq_refl Hq)
    as (_ & _ & _ & _ & Hph & _ & _ & Hindep).
  destruct (Hindep start_board eq_refl) as (q' & Hq' & Hb & _).
  assert (Hs : exists s, load_fen start_board DefaultFEN = Some s
                         /\ board s = board start_board)
    by (vm_compute; eauto).
  destruct Hs as (s & Hs & Hbs). rewrite Hs in Hq'. injection Hq' as <-.
  split; [congruence|]. split; [exact Hking|]. rewrite Hph. reflexivity.
Defined.

(** ** The ray scans leave the board *)

Lemma ray_leaves_board (nr nc dr dc : Z) (k : nat) :
  in_board nr nc = true -> dr <> 0 \/ dc <> 0 -> (8 <= k)%nat ->
  in_board (nr + Z.of_nat k * dr) (nc + Z.of_nat k * dc) = false.
Proof.
  unfold in_board. intros Hin Hd Hk.
  apply andb_true_iff in Hin. destruct Hin as (Hin & Hc2).
  apply andb_true_iff in Hin. destruct Hin as (Hin & Hc1).
  apply andb_true_iff in Hin. destruct Hin as (Hr1 & Hr2).
  apply Z.leb_le in Hr1, Hc1. apply Z.ltb_lt in Hr2, Hc2.
  apply not_true_is_false. intros H.
  apply andb_true_iff in H. destruct H as (H & Hc2').
  apply andb_true_iff in H. destruct H as (H & Hc1').
  apply andb_true_iff in H. destruct H as (Hr1' & Hr2').
  apply Z.leb_le in Hr1', Hc1'. apply Z.ltb_lt in Hr2', Hc2'.
  destruct Hd as [Hd|Hd]; nia.
Qed.

Lemma slide_ray_fuel (n : nat) :
  forall (m : nat) (b : grid) (from : string) (w : bool) (nr nc dr dc : Z),
    (forall k, (Nat.min n m <= k)%nat ->
               in_board (nr + Z.of_nat k * dr) (nc + Z.of_nat k * dc) = false) ->
    slide_ray n b from w nr nc dr dc = slide_ray m b from w nr nc dr dc.
Proof.
  induction n as [|n IH]; intros m b from w nr nc dr dc Hout.
  - assert (H0 : in_board nr nc = false).
    { specialize (Hout O (Nat.le_0_l _)). cbn in Hout.
      rewrite !Z.add_0_r in Hout. exact Hout. }
    destruct m as [|m]; [reflexivity|]. cbn [slide_ray]. rewrite H0. reflexivity.
  - destruct m as [|m].
    + assert (H0 : in_board nr nc = false).
      { specialize (Hout O (Nat.le_0_l _)). cbn in Hout.
        rewrite !Z.add_0_r in Hout. exact Hout. }
      cbn [slide_ray]. rewrite H0. reflexivity.
    + cbn [slide_ray].
      assert (Hnext : slide_ray n b from w (nr + dr) (nc + dc) dr dc
                      = slide_ray m b from w (nr + dr) (nc + dc) dr dc).
      { apply IH. intros k Hk.
        replace (nr + dr + Z.of_nat k * dr) with (nr + Z.of_nat (S k) * dr) by lia.
        replace (nc + dc + Z.of_nat k * dc) with (nc + Z.of_nat (S k) * dc) by lia.
        apply Hout. cbn [Nat.min]. lia. }
      rewrite Hnext. reflexivity.
Qed.

Lemma attack_ray_fuel (n : nat) :
  forall (m : nat) (b : grid) (w rook : bool) (nr nc dr dc : Z),
    (forall k, (Nat.min n m <= k)%nat ->
               in_board (nr + Z.of_nat k * dr) (nc + Z.of_nat k * dc) = false) ->
    attack_ray n b w rook nr nc dr dc = attack_ray m b w rook nr nc dr dc.
Proof.
  induction n as [|n IH]; intros m b w rook nr nc dr dc Hout.
  - assert (H0 : in_board nr nc = false).
    { specialize (Hout O (Nat.le_0_l _)). cbn in Hout.
      rewrite !Z.add_0_r in Hout. exact Hout. }
    destruct m as [|m]; [reflexivity|]. cbn [attack_ray]. rewrite H0. reflexivity.
  - destruct m as [|m].
    + assert (H0 : in_board nr nc = false).
      { specialize (Hout O (Nat.le_0_l _)). cbn in Hout.
        rewrite !Z.add_0_r in Hout. exact Hout. }
      cbn [attack_ray]. rewrite H0. reflexivity.
    + cbn [attack_ray].
      assert (Hnext : attack_ray n b w rook (nr + dr) (nc + dc) dr dc
                      = attack_ray m b w rook (nr + dr) (nc + dc) dr dc).
      { apply IH. intros k Hk.
        replace (nr + dr + Z.of_nat k * dr) with (nr + Z.of_nat (S k) * dr) by lia.
        replace (nc + dc + Z.of_nat k * dc) with (nc + Z.of_nat (S k) * dc) by lia.
        apply Hout. cbn [Nat.min]. lia. }
      rewrite Hnext. reflexivity.
Qed.

(** The [while 0<=nr<8 and 0<=nc<8] scans of [_generate_sliding_moves] and
    of [_is_square_attacked] end within eight squares whenever the direction
    is not [(0, 0)]: scanning for longer gives the same moves and the same
    verdict, wherever the scan starts. *)
Theorem ray_scans_end_within_eight (fuel : nat) (b : grid) (from : string)
    (w rook : bool) (nr nc dr dc : Z) :
  dr <> 0 \/ dc <> 0 -> (8 <= fuel)%nat ->
  slide_ray fuel b from w nr nc dr dc = slide_ray 8 b from w nr nc dr dc
  /\ attack_ray fuel b w rook nr nc dr dc = attack_ray 8 b w rook nr nc dr dc.
Proof.
  intros Hd Hfuel.
  destruct (in_board nr nc) eqn:Hin.
  - split; [apply slide_ray_fuel | apply attack_ray_fuel]; intros k Hk;
      apply ray_leaves_board; auto; lia.
  - destruct fuel as [|fuel]; [lia|].
    cbn [slide_ray attack_ray]. rewrite Hin. split; reflexivity.
Qed.

Lemma ray_scans_end_within_eight_witness :
  slide_ray 20 (board start_board) "A3" true 5 1 0 1
  = slide_ray 8 (board start_board) "A3" true 5 1 0 1
  /\ attack_ray 20 (board start_board) true true 5 1 0 1
     = attack_ray 8 (board start_board) true true 5 1 0 1.
Proof.
  apply (ray_scans_end_within_eight 20 (board start_board) "A3" true true 5 1 0 1).
  - right. lia.
  - lia.
Defined.

(** ** Where generated moves land *)

Lemma in_board_bounds (r c : Z) :
  in_board r c = true <-> 0 <= r < 8 /\ 0 <= c < 8.
Proof.
  unfold in_board. rewrite !andb_true_iff, !Z.leb_le, !Z.ltb_lt. lia.
Qed.

Lemma slide_ray_target (fuel : nat) (b : grid) (from : string) (w : bool)
    (dr dc : Z) (m : Move) :
  forall nr nc, In m (slide_ray fuel b from w nr nc dr dc) -> lands_on_board b w m.
Proof.
  induction fuel as [|k IH]; cbn [slide_ray]; intros nr nc H; [contradiction|].
  destruct (in_board nr nc) eqn:Hin; [|contradiction].
  destruct (Z.eqb_spec (bd b nr nc) Piece.NONE) as [E|E].
  { destruct H as [<-|H]; [|eauto].
    exists nr, nc. repeat split; [exact Hin|]. cbn [to_sq]. rewrite E.
    destruct w; reflexivity. }
  destruct (((if w then Piece.BLACK_PAWN else Piece.WHITE_PAWN) <=? bd b nr nc)
            && (bd b nr nc <=? (if w then Piece.BLACK_KING else Piece.WHITE_KING)))
    eqn:Hen.
  { destruct H as [<-|[]]. exists nr, nc. repeat split; [exact Hin|]. cbn [to_sq].
    apply andb_true_iff in Hen. destruct Hen as (H1 & H2).
    apply Z.leb_le in H1, H2. unfold is_friendly.
    apply andb_false_iff.
    destruct w; unfold Piece.WHITE_PAWN, Piece.WHITE_KING, Piece.BLACK_PAWN,
      Piece.BLACK_KING in *; [right | left]; lia. }
  match type of H with
  | In _ (if ?c then _ else _) => destruct c
  end; [contradiction | eauto].
Qed.

Lemma offset_moves_target (b : grid) (r c : Z) (from : string) (w : bool)
    (offs : list (Z * Z)) (m : Move) :
  In m (offset_moves b r c from w offs) -> lands_on_board b w m.
Proof.
  unfold offset_moves. intros H. apply in_flat_map in H.
  destruct H as ([dr dc] & _ & Hm).
  destruct (in_board (r + dr) (c + dc)) eqn:Hin; [|contradiction].
  match type of Hm with
  | In _ (if ?cond then _ else _) => destruct cond eqn:Hc
  end; [|contradiction].
  destruct Hm as [<-|[]]. exists (r + dr), (c + dc).
  repeat split; [exact Hin|]. cbn [to_sq]. unfold is_friendly.
  apply orb_true_iff in Hc. destruct Hc as [Hc|Hc].
  - apply Z.eqb_eq in Hc. rewrite Hc. destruct w; reflexivity.
  - apply negb_true_iff in Hc. exact Hc.
Qed.

Lemma castle_target (b : grid) (w : bool) (from to : string) (tr tc : Z) :
  in_board tr tc = true -> to = coords_to_square tr tc ->
  bd b tr tc = Piece.NONE ->
  lands_on_board b w (mkMove from to None).
Proof.
  intros Hin -> Hb. exists tr, tc. repeat split; [exact Hin|].
  rewrite Hb. destruct w; reflexivity.
Qed.

Lemma king_moves_target (p : Board) (r c : Z) (from : string) (w : bool) (m : Move) :
  In m (_generate_king_moves p r c from w) -> lands_on_board (board p) w m.
Proof.
  unfold _generate_king_moves. intros H. apply in_app_or in H.
  destruct H as [H|H]; [eapply offset_moves_target; exact H|].
  repeat match type of H with
         | In _ (if ?c then _ else _) => destruct c eqn:?
         | In _ (_ ++ _) => apply in_app_or in H; destruct H as [H|H]
         | In _ [] => contradiction
         end;
    destruct H as [<-|[]];
    repeat match goal with
           | E : _ && _ = true |- _ => apply andb_true_iff in E; destruct E
           | E : (_ =? _) = true |- _ => apply Z.eqb_eq in E
           end.
  - apply (castle_target _ _ _ _ 7 6); [reflexivity | reflexivity | assumption].
  - apply (castle_target _ _ _ _ 7 2); [reflexivity | reflexivity | assumption].
  - apply (castle_target _ _ _ _ 0 6); [reflexivity | reflexivity | assumption].
  - apply (castle_target _ _ _ _ 0 2); [reflexivity | reflexivity | assumption].
Qed.

Lemma sliding_moves_target (p : Board) (r c : Z) (from : string) (w : bool)
    (dirs : list (Z * Z)) (m : Move) :
  In m (_generate_sliding_moves p r c from w dirs) -> lands_on_board (board p) w m.
Proof.
  unfold _generate_sliding_moves. intros H. apply in_flat_map in H.
  destruct H as ([dr dc] & _ & H). eapply slide_ray_target. exact H.
Qed.

Ltac crack_in_eqn H :=
  repeat match type of H with
         | In _ (_ ++ _) => apply in_app_or in H; destruct H as [H|H]
         | In _ (if ?c then _ else _) => let C := fresh "C" in destruct c eqn:C
         | In _ (map _ _) =>
             let x := fresh "x" in
             apply in_map_iff in H; destruct H as (x & <- & _)
         | In _ (_ :: _) => destruct H as [<-|H]
         | In _ [] => contradiction
         end.

Ltac bool_facts :=
  repeat match goal with
         | E : _ && _ = true |- _ => apply andb_true_iff in E; destruct E
         | E : (_ =? _) = true |- _ => apply Z.eqb_eq in E
         | E : (_ <=? _) = true |- _ => apply Z.leb_le in E
         | E : (_ <? _) = true |- _ => apply Z.ltb_lt in E
         end.

Lemma not_friendly_none (w : bool) : is_friendly w Piece.NONE = false.
Proof. destruct w; reflexivity. Qed.

Lemma not_friendly_enemy (w : bool) (x : Z) :
  (if w then Piece.BLACK_PAWN else Piece.WHITE_PAWN) <= x ->
  x <= (if w then Piece.BLACK_KING else Piece.WHITE_KING) ->
  is_friendly w x = false.
Proof.
  intros H1 H2. unfold is_friendly. apply andb_false_iff.
  destruct w; unfold Piece.WHITE_PAWN, Piece.WHITE_KING, Piece.BLACK_PAWN,
    Piece.BLACK_KING in *; [right | left]; lia.
Qed.

Lemma pawn_moves_target (p : Board) (r c : Z) (l : list Move) (m : Move) :
  in_board r c = true ->
  is_pawn_piece (bd (board p) r c) = true ->
  _generate_pawn_moves p r c (coords_to_square r c) (white_to_play p) = Some l ->
  In m l ->
  lands_on_board (board p) (white_to_play p) m \/ en_passant_move p m.
Proof.
  unfold _generate_pawn_moves. intros Hrc Hpawn H Hin. bind_inv H. injection H as <-.
  cbn [flat_map] in Hin.
  apply in_board_bounds in Hrc.
  match goal with
  | E : (if truthy_str (en_passant p) then _ else _) = Some _ |- _ =>
      destruct (truthy_str (en_passant p));
      [destruct (en_passant p) as [eps|] eqn:Hep;
       [bind_inv E;
        match goal with
        | x : (Z * Z)%type |- _ => destruct x as [er ec]
        end;
        match type of E with
        | (if ?c then _ else _) = _ => destruct c eqn:Hrank
        end|]|];
      injection E as <-
  end;
  crack_in_eqn Hin; bool_facts;
    try (left;
         match goal with
         | |- lands_on_board _ _ (mkMove _ (coords_to_square ?x ?y) _) => exists x, y
         end;
         split; [apply in_board_bounds; destruct (white_to_play p); lia|];
         split; [reflexivity|];
         first [ match goal with
                 | E : bd _ _ _ = Piece.NONE |- _ => rewrite E; apply not_friendly_none
                 end
               | apply not_friendly_enemy; assumption ]).
  right. split; [exact Hep|]. split; [reflexivity|].
  exists r, c. split; [apply in_board_bounds; exact Hrc|].
  split; [reflexivity|]. split; [exact Hpawn|].
  destruct (white_to_play p); assumption.
Qed.

Lemma generated_moves_target (p : Board) (r c : Z) (l : list Move) (m : Move) :
  in_board r c = true ->
  (bd (board p) r c <=? Piece.WHITE_KING) = white_to_play p ->
  _generate_moves_for_piece p r c (bd (board p) r c) = Some l -> In m l ->
  lands_on_board (board p) (white_to_play p) m \/ en_passant_move p m.
Proof.
  unfold _generate_moves_for_piece. intros Hrc Hcol H Hin. rewrite Hcol in H.
  destruct ((bd (board p) r c =? Piece.WHITE_PAWN)
            || (bd (board p) r c =? Piece.BLACK_PAWN)) eqn:Hpawn.
  { eapply pawn_moves_target; eassumption. }
  left.
  repeat match type of H with
         | (if ?c then _ else _) = _ => destruct c
         end;
    injection H as <-;
    solve [ eapply sliding_moves_target; exact Hin
          | eapply offset_moves_target; exact Hin
          | eapply king_moves_target; exact Hin
          | contradiction ].
Qed.

(** With a usable memo, every move returned by [get_moves] either lands
    on a square of the board that holds no piece of the side to move, or is
    the en passant move of a pawn standing on row 3 (white) or 4 (black)
    onto the recorded target. *)
Theorem legal_move_destination (p q0 : Board) (m : Move) (ms : list Move) :
  cache_ok p -> get_moves p = Some (q0, ms) -> In m ms ->
  lands_on_board (board p) (white_to_play p) m \/ en_passant_move p m.
Proof.
  intros Hok Hgm Hin.
  destruct (legal_move_origin p q0 m ms Hok Hgm Hin)
    as (r & c & l & Hrc & _ & _ & _ & Hcol & Hgen & _ & Hl).
  eapply generated_moves_target; eassumption.
Qed.

Lemma legal_move_destination_witness :
  lands_on_board (board en_passant_board) (white_to_play en_passant_board)
    (mkMove "E5" "D6" None)
  \/ en_passant_move en_passant_board (mkMove "E5" "D6" None).
Proof.
  assert (Hex : exists q ms, get_moves en_passant_board = Some (q, ms)
                             /\ In (mkMove "E5" "D6" None) ms).
  { vm_compute. eexists. eexists. split; [reflexivity|]. simpl. tauto. }
  destruct Hex as (q & ms & Hgm & Hin).
  apply (legal_move_destination en_passant_board q (mkMove "E5" "D6" None) ms).
  - intros l Hl. injection Hl as <-. vm_compute. eauto.
  - exact Hgm.
  - exact Hin.
Defined.

(** ** Promotions *)

Lemma slide_ray_plain (fuel : nat) (b : grid) (from : string) (w : bool)
    (dr dc : Z) (m : Move) :
  forall nr nc, In m (slide_ray fuel b from w nr nc dr dc) -> promotion m = None.
Proof.
  induction fuel as [|k IH]; cbn [slide_ray]; intros nr nc H; [contradiction|].
  repeat match type of H with
         | In _ (if ?c then _ else _) => destruct c
         | In _ (_ :: _) => destruct H as [<-|H]
         | In _ [] => contradiction
         end; solve [reflexivity | eauto].
Qed.

Lemma non_pawn_moves_plain (p : Board) (r c piece : Z) (l : list Move) (m : Move) :
  is_pawn_piece piece = false ->
  _generate_moves_for_piece p r c piece = Some l -> In m l -> promotion m = None.
Proof.
  unfold _generate_moves_for_piece, is_pawn_piece. intros Hnp H Hin. rewrite Hnp in H.
  repeat match type of H with
         | (if ?c then _ else _) = _ => destruct c
         end;
    injection H as <-;
    try contradiction;
    try (apply offset_moves_in in Hin; destruct Hin as (dr & dc & _ & _ & ->); reflexivity);
    try (unfold _generate_rook_moves, _generate_bishop_moves, _generate_queen_moves,
           _generate_sliding_moves in Hin;
         apply in_flat_map in Hin; destruct Hin as ([dr dc] & _ & Hin);
         eapply slide_ray_plain; exact Hin).
  unfold _generate_king_moves in Hin. apply in_app_or in Hin.
  destruct Hin as [Hin|Hin].
  - apply offset_moves_in in Hin. destruct Hin as (dr & dc & _ & _ & ->). reflexivity.
  - crack_in Hin; reflexivity.
Qed.

Ltac crack_in_keep H :=
  repeat match type of H with
         | In _ (_ ++ _) => apply in_app_or in H; destruct H as [H|H]
         | In _ (if ?c then _ else _) => let C := fresh "C" in destruct c eqn:C
         | In _ (map _ _) =>
             let x := fresh "x" in
             let Hx := fresh "Hx" in
             apply in_map_iff in H; destruct H as (x & <- & Hx)
         | In _ (_ :: _) => destruct H as [<-|H]
         | In _ [] => contradiction
         end.

Ltac in_pick :=
  solve [ apply in_map_iff; eexists; split; [reflexivity | eassumption]
        | left; in_pick
        | right; in_pick ].

Lemma pawn_moves_promotion (p : Board) (r c : Z) (from : string) (w : bool)
    (l : list Move) (m : Move) :
  _generate_pawn_moves p r c from w = Some l -> In m l ->
  (promotion m <> None <-> r = (if w then 1 else 6))
  /\ forall pc, promotion m = Some pc ->
       In pc (Piece.get_promotion_pieces w)
       /\ forall pc', In pc' (Piece.get_promotion_pieces w) ->
                      In (mkMove (from_sq m) (to_sq m) (Some pc')) l.
Proof.
  unfold _generate_pawn_moves. intros H Hin. bind_inv H. injection H as <-.
  cbn [flat_map] in Hin |- *.
  match goal with
  | E : (if truthy_str (en_passant p) then _ else _) = Some _ |- _ =>
      destruct (truthy_str (en_passant p));
      [destruct (en_passant p) as [eps|] eqn:Hep;
       [bind_inv E;
        match goal with
        | x : (Z * Z)%type |- _ => destruct x as [er ec]
        end;
        match type of E with
        | (if ?c then _ else _) = _ => destruct c eqn:Hrank
        end|]|];
      injection E as <-
  end;
  crack_in_keep Hin; bool_facts; cbn [promotion from_sq to_sq].
  all: split.
  all: try solve [ split; [intros Hn | intros Hr];
       [ first [ exfalso; apply Hn; reflexivity | destruct w; lia ]
       | first [ discriminate
               | exfalso;
                 repeat match goal with
                        | E : (_ =? _) = false |- _ => apply Z.eqb_neq in E
                        end; destruct w; lia ] ] ].
  all: intros pc Hpc;
    first [ discriminate Hpc
          | injection Hpc as <-; split; [assumption|]; intros pc' Hpc';
            repeat rewrite in_app_iff; in_pick ].
Qed.

Lemma pseudo_moves_incl (p : Board) (r c : Z) (l : list Move) (cs : list (Z * Z)) :
  forall pm,
    In (r, c) cs ->
    bd (board p) r c <> Piece.NONE ->
    (bd (board p) r c <=? Piece.WHITE_KING) = white_to_play p ->
    _generate_moves_for_piece p r c (bd (board p) r c) = Some l ->
    pseudo_moves_over p cs = Some pm ->
    incl l pm.
Proof.
  induction cs as [|[r0 c0] rest IH]; cbn [pseudo_moves_over]; intros pm Hin Hne Hcol Hgen H.
  - contradiction.
  - bind_inv H. bind_inv H. injection H as <-.
    destruct Hin as [Heq|Hin].
    + injection Heq as -> ->.
      match goal with
      | E : (if bd (board p) r c =? Piece.NONE then _ else _) = Some _ |- _ =>
          destruct (Z.eqb_spec (bd (board p) r c) Piece.NONE) as [|_];
          [contradiction|];
          rewrite Hcol, Bool.eqb_reflx in E; cbn [negb] in E;
          rewrite Hgen in E; injection E as <-
      end.
      apply incl_appl, incl_refl.
    + apply incl_appr. eapply IH; eauto.
Qed.

(** With a usable memo, a move returned by [get_moves] carries a promotion
    piece exactly when it starts from a pawn one step from its last rank
    (row 1 for white, row 6 for black); the piece is then a queen, rook,
    bishop or knight of the side to move, and the same move with each of
    these four pieces is in the list as well. *)
Theorem legal_promotions (p q0 : Board) (m : Move) (ms : list Move) :
  cache_ok p -> get_moves p = Some (q0, ms) -> In m ms ->
  exists r c,
    in_board r c = true
    /\ from_sq m = coords_to_square r c
    /\ (promotion m <> None <->
        is_pawn_piece (bd (board p) r c) = true
        /\ r = (if white_to_play p then 1 else 6))
    /\ forall pc, promotion m = Some pc ->
         In pc (Piece.get_promotion_pieces (white_to_play p))
         /\ forall pc', In pc' (Piece.get_promotion_pieces (white_to_play p)) ->
                        In (mkMove (from_sq m) (to_sq m) (Some pc')) ms.
Proof.
  intros Hok Hgm Hin.
  destruct (legal_move_origin p q0 m ms Hok Hgm Hin)
    as (r & c & l & Hrc & _ & _ & Hne & Hcol & Hgen & Hfrom & Hl).
  destruct (get_moves_filter _ _ _ Hok Hgm) as (pseudo & Hps & Hms & _).
  exists r, c. split; [exact Hrc|]. split; [exact Hfrom|].
  destruct (is_pawn_piece (bd (board p) r c)) eqn:Hpawn.
  - pose proof Hgen as Hpg. unfold _generate_moves_for_piece in Hpg.
    unfold is_pawn_piece in Hpawn. rewrite Hpawn, Hcol in Hpg.
    destruct (pawn_moves_promotion _ _ _ _ _ _ _ Hpg Hl) as (Hiff & Hall).
    split; [tauto|].
    intros pc Hpc. destruct (Hall pc Hpc) as (Hpiece & Hfour).
    split; [exact Hpiece|]. intros pc' Hpc'.
    rewrite Hms in Hin |- *. apply filter_In in Hin. destruct Hin as (_ & Hprobe).
    apply filter_In. split; [|exact Hprobe].
    eapply pseudo_moves_incl; eauto.
    apply in_board_all_coords. exact Hrc.
  - rewrite (non_pawn_moves_plain _ _ _ _ _ _ Hpawn Hgen Hl).
    split; [|discriminate]. split; [congruence | intros (Hf & _); discriminate].
Qed.

Lemma legal_promotions_witness :
  exists q ms,
    get_moves promotion_board = Some (q, ms)
    /\ In (mkMove "A7" "A8" (Some Piece.WHITE_KNIGHT)) ms
    /\ In (mkMove "A7" "A8" (Some Piece.WHITE_ROOK)) ms.
Proof.
  assert (Hex : exists q ms, get_moves promotion_board = Some (q, ms)
                             /\ In (mkMove "A7" "A8" (Some Piece.WHITE_KNIGHT)) ms).
  { vm_compute. eexists. eexists. split; [reflexivity|]. simpl. tauto. }
  destruct Hex as (q & ms & Hgm & Hin). exists q, ms.
  split; [exact Hgm|]. split; [exact Hin|].
  assert (Hok : cache_ok promotion_board).
  { intros l Hl. vm_compute in Hl. discriminate. }
  destruct (legal_promotions promotion_board q _ ms Hok Hgm Hin)
    as (r & c & _ & _ & _ & Hall).
  destruct (Hall Piece.WHITE_KNIGHT eq_refl) as (_ & Hfour).
  apply (Hfour Piece.WHITE_ROOK). simpl. tauto.
Defined.

(** ** Decimal text *)

Ltac digit_step :=
  cbn [NilEmpty.string_of_uint Py.digits_value];
  match goal with
  | |- context [Ascii.eqb ?ch "_"] => change (Ascii.eqb ch "_") with false
  end;
  cbv iota;
  (change (Py.int_char _) with (Some 0)
   || change (Py.int_char _) with (Some 1)
   || change (Py.int_char _) with (Some 2)
   || change (Py.int_char _) with (Some 3)
   || change (Py.int_char _) with (Some 4)
   || change (Py.int_char _) with (Some 5)
   || change (Py.int_char _) with (Some 6)
   || change (Py.int_char _) with (Some 7)
   || change (Py.int_char _) with (Some 8)
   || change (Py.int_char _) with (Some 9));
  cbn [bind].

Lemma digits_value_acc (d : Decimal.uint) :
  forall acc : positive,
    Py.digits_value (Z.pos acc) true (NilEmpty.string_of_uint d)
    = Some (Z.pos (Pos.of_uint_acc d acc)).
Proof.
  induction d; intros acc; [reflexivity | ..];
    digit_step; cbn [Pos.of_uint_acc]; rewrite <- IHd; f_equal; lia.
Qed.

Lemma digits_value_uint (d : Decimal.uint) :
  Py.digits_value 0 true (NilEmpty.string_of_uint d) = Some (Z.of_N (Pos.of_uint d)).
Proof.
  induction d; [reflexivity | ..]; digit_step; cbn [Pos.of_uint];
    first [exact IHd | apply digits_value_acc].
Qed.

(** The text of a number that is not [Nil] starts with a digit, after which
    the digits are read as if a digit had been read before. *)
Lemma digits_value_start (d : Decimal.uint) :
  d <> Decimal.Nil ->
  Py.digits_value 0 false (NilEmpty.string_of_uint d)
  = Py.digits_value 0 true (NilEmpty.string_of_uint d).
Proof.
  destruct d; intros H; [contradiction H; reflexivity | ..];
    digit_step; reflexivity.
Qed.

Lemma uint_no_int_space (d : Decimal.uint) :
  Py.rstrip (NilEmpty.string_of_uint d) = NilEmpty.string_of_uint d.
Proof.
  induction d; cbn [NilEmpty.string_of_uint Py.rstrip]; [reflexivity | ..];
    rewrite IHd; destruct (NilEmpty.string_of_uint d); reflexivity.
Qed.

Lemma string_of_uint_head (d : Decimal.uint) :
  d <> Decimal.Nil ->
  exists ch r, NilEmpty.string_of_uint d = String ch r
               /\ Py.isdecimal ch = true /\ Py.int_space ch = false.
Proof.
  destruct d; intros H; [contradiction H; reflexivity | ..];
    cbn [NilEmpty.string_of_uint]; eexists; eexists; repeat split; reflexivity.
Qed.

Lemma int_digits (s : string) (ch : ascii) (r : string) :
  s = String ch r -> Py.isdecimal ch = true -> Py.int_space ch = false ->
  Py.rstrip s = s ->
  Py.int s = Py.digits_value 0 false s.
Proof.
  intros -> Hd Hs Hr. unfold Py.int. rewrite Hr. cbn [Py.lstrip]. rewrite Hs.
  destruct ch as [[] [] [] [] [] [] [] []]; try discriminate Hd; reflexivity.
Qed.

(** [int(str(n))] is [n]. *)
Lemma int_str (n : Z) : Py.int (Py.str n) = Some n.
Proof.
  unfold Py.str. destruct n as [|q|q]; [reflexivity | |];
    cbn [Z.to_int NilZero.string_of_int]; unfold NilZero.string_of_uint;
    pose proof (Unsigned.to_uint_nonnil q) as Hnn;
    destruct (string_of_uint_head _ Hnn) as (ch & r & Hs & Hd & Hsp);
    replace (match Pos.to_uint q with
             | Decimal.Nil => "0"
             | _ => NilEmpty.string_of_uint (Pos.to_uint q)
             end)
      with (NilEmpty.string_of_uint (Pos.to_uint q))
      by (destruct (Pos.to_uint q); [contradiction Hnn|..]; reflexivity).
  - rewrite (int_digits _ _ _ Hs Hd Hsp (uint_no_int_space _)).
    rewrite digits_value_start by exact Hnn.
    rewrite digits_value_uint, DecimalPos.Unsigned.of_to. reflexivity.
  - unfold Py.int. cbn [Py.rstrip]. rewrite uint_no_int_space.
    rewrite Hs. rewrite <- Hs. cbn [Py.lstrip].
    change (Py.int_space "-") with false. cbv iota.
    rewrite digits_value_start by exact Hnn.
    rewrite digits_value_uint, DecimalPos.Unsigned.of_to. reflexivity.
Qed.

(** ** Splitting and joining text *)

Lemma append_assoc (a b c : string) : ((a ++ b) ++ c = a ++ (b ++ c))%string.
Proof. induction a as [|ch a IH]; cbn; [reflexivity | rewrite IH; reflexivity]. Qed.

Lemma append_nil_r (a : string) : (a ++ "")%string = a.
Proof. induction a as [|ch a IH]; cbn; [reflexivity | rewrite IH; reflexivity]. Qed.

Lemma contains_append (ch : ascii) (a b : string) :
  Py.contains ch (a ++ b)%string = Py.contains ch a || Py.contains ch b.
Proof.
  induction a as [|x a IH]; cbn; [reflexivity|]. rewrite IH. apply orb_assoc.
Qed.

Lemma split_aux_plain (sep : ascii) (s : string) :
  forall cur, Py.contains sep s = false -> Py.split_aux sep cur s = [(cur ++ s)%string].
Proof.
  induction s as [|ch s IH]; intros cur H; cbn in *.
  - rewrite append_nil_r. reflexivity.
  - apply orb_false_iff in H. destruct H as (H1 & H2). rewrite H1.
    rewrite IH by exact H2. rewrite append_assoc. reflexivity.
Qed.

Lemma split_aux_field (sep : ascii) (s t : string) :
  forall cur,
    Py.contains sep s = false ->
    Py.split_aux sep cur (s ++ String sep t)%string
    = (cur ++ s)%string :: Py.split_aux sep "" t.
Proof.
  induction s as [|ch s IH]; intros cur H; cbn in *.
  - rewrite Ascii.eqb_refl, append_nil_r. reflexivity.
  - apply orb_false_iff in H. destruct H as (H1 & H2). rewrite H1.
    rewrite IH by exact H2. rewrite append_assoc. reflexivity.
Qed.

Lemma split_field (sep : ascii) (s t : string) :
  Py.contains sep s = false ->
  Py.split sep (s ++ String sep t)%string = s :: Py.split sep t.
Proof. intros H. unfold Py.split. rewrite split_aux_field by exact H. reflexivity. Qed.

Lemma split_plain (sep : ascii) (s : string) :
  Py.contains sep s = false -> Py.split sep s = [s].
Proof. intros H. unfold Py.split. rewrite split_aux_plain by exact H. reflexivity. Qed.

Lemma join_cons (sep x y : string) (l : list string) :
  join sep (x :: y :: l) = (x ++ sep ++ join sep (y :: l))%string.
Proof.
  cbn [join fold_left]. revert x y. induction l as [|z l IH]; intros x y.
  - reflexivity.
  - cbn [fold_left]. rewrite IH, IH. rewrite !append_assoc. reflexivity.
Qed.

Lemma split_join (sep : ascii) (l : list string) :
  l <> [] ->
  (forall s, In s l -> Py.contains sep s = false) ->
  Py.split sep (join (String sep "") l) = l.
Proof.
  induction l as [|x l IH]; intros Hne Hall; [contradiction Hne; reflexivity|].
  destruct l as [|y l].
  - cbn [join fold_left]. apply split_plain. apply Hall. left. reflexivity.
  - rewrite join_cons. cbn [append]. rewrite split_field by (apply Hall; left; reflexivity).
    rewrite IH; [reflexivity | discriminate | intros s Hs; apply Hall; right; exact Hs].
Qed.

(** ** Characters of the placement field *)

Lemma digit_not_separator (d : ascii) :
  Py.isdigit d = true -> Ascii.eqb d " " = false /\ Ascii.eqb d "/" = false.
Proof.
  destruct d as [[] [] [] [] [] [] [] []]; intros H; try discriminate H;
    split; reflexivity.
Qed.

Lemma str_digit (e : Z) :
  1 <= e <= 9 ->
  exists d, Py.str e = String d "" /\ Py.isdigit d = true /\ Py.int_char d = Some e.
Proof.
  intros H.
  assert (Hc : e = 1 \/ e = 2 \/ e = 3 \/ e = 4 \/ e = 5 \/ e = 6 \/ e = 7
               \/ e = 8 \/ e = 9) by lia.
  repeat (destruct Hc as [->|Hc]; [eexists; repeat split; reflexivity|]).
  subst e. eexists. repeat split; reflexivity.
Qed.

Lemma piece_letter (x : Z) :
  1 <= x <= 12 ->
  exists ch, Piece.get_fen x = String ch ""
             /\ Py.isdigit ch = false /\ piece_map ch = x
             /\ Ascii.eqb ch " " = false /\ Ascii.eqb ch "/" = false.
Proof.
  intros H.
  assert (Hc : x = 1 \/ x = 2 \/ x = 3 \/ x = 4 \/ x = 5 \/ x = 6 \/ x = 7
               \/ x = 8 \/ x = 9 \/ x = 10 \/ x = 11 \/ x = 12) by lia.
  repeat (destruct Hc as [->|Hc]; [eexists; repeat split; reflexivity|]).
  subst x. eexists. repeat split; reflexivity.
Qed.

Lemma piece_letter_cases (x : Z) :
  0 <= x <= 12 ->
  (x = 0 /\ is_empty_str (Piece.get_fen x) = true)
  \/ (1 <= x <= 12 /\ is_empty_str (Piece.get_fen x) = false).
Proof.
  intros H. destruct (Z.eq_dec x 0) as [->|Hx]; [left; split; reflexivity|].
  right. split; [lia|].
  destruct (piece_letter x) as (ch & -> & _); [lia | reflexivity].
Qed.

(** ** One rank: written by [get_fen], read by [load_fen] *)

Lemma fen_row_fold (b : grid) (r : Z) (cs : list Z) :
  forall fen empty,
    (let '(fen', empty') :=
       fold_left (fun (acc : string * Z) c =>
         let '(fen, empty) := acc in
         let ch := Piece.get_fen (bd b r c) in
         if is_empty_str ch then (fen, empty + 1)
         else
           let flushed := if 0 <? empty then (fen ++ Py.str empty)%string else fen in
           ((flushed ++ ch)%string, 0))
         cs (fen, empty) in
     if 0 <? empty' then (fen' ++ Py.str empty')%string else fen')
    = (fen ++ enc empty (map (bd b r) cs))%string.
Proof.
  induction cs as [|c cs IH]; intros fen empty; cbn [fold_left map enc].
  - unfold flush. destruct (0 <? empty); [reflexivity | rewrite append_nil_r; reflexivity].
  - destruct (is_empty_str (Piece.get_fen (bd b r c))).
    + apply IH.
    + rewrite IH. unfold flush.
      destruct (0 <? empty); cbn [append]; rewrite !append_assoc; reflexivity.
Qed.

Lemma fen_row_enc (b : grid) (r : Z) :
  fen_row b r = enc 0 (map (bd b r) range8).
Proof.
  unfold fen_row. exact (fen_row_fold b r range8 "" 0).
Qed.

Lemma grid_write_place (g : grid) (r c x : Z) :
  grid_wf g = true -> in_board r c = true ->
  grid_write g r c x = Some (place g r c x).
Proof.
  intros Hwf Hin. unfold grid_write, grid_pos, place. rewrite Hin.
  pose proof (grid_wf_rows g Hwf) as Hrows.
  apply in_board_bounds in Hin.
  assert (Hlen : List.length g = 8%nat).
  { unfold grid_wf in Hwf. apply andb_prop in Hwf. destruct Hwf as (H & _).
    apply Nat.eqb_eq in H. exact H. }
  rewrite Hlen. unfold Py.index at 1.
  replace ((0 <=? r) && (r <? Z.of_nat 8)) with true
    by (symmetry; apply andb_true_iff; split; [apply Z.leb_le | apply Z.ltb_lt]; lia).
  cbn [bind].
  assert (Hrow : option_map (@List.length Z) (nth_error g (Z.to_nat r)) = Some 8%nat).
  { rewrite <- nth_error_map, Hrows. apply nth_error_repeat. lia. }
  destruct (nth_error g (Z.to_nat r)) as [row|]; [|discriminate].
  injection Hrow as Hrow. cbn [bind]. rewrite Hrow. unfold Py.index.
  replace ((0 <=? c) && (c <? Z.of_nat 8)) with true
    by (symmetry; apply andb_true_iff; split; [apply Z.leb_le | apply Z.ltb_lt]; lia).
  reflexivity.
Qed.

Lemma grid_wf_write_cells (cells : list Z) :
  forall g r c, grid_wf g = true -> grid_wf (write_cells g r c cells) = true.
Proof.
  induction cells as [|x t IH]; intros g r c Hwf; cbn [write_cells]; [exact Hwf|].
  apply IH. destruct (is_empty_str (Piece.get_fen x)); [exact Hwf|].
  apply grid_wf_place. exact Hwf.
Qed.

(** Reading back the text of a run of cells writes those cells. *)
Lemma load_row_enc (r : Z) (cells : list Z) :
  forall g c e,
    grid_wf g = true -> 0 <= r < 8 -> 0 <= c -> 0 <= e ->
    c + e + Z.of_nat (List.length cells) <= 8 ->
    Forall (fun x => 0 <= x <= 12) cells ->
    load_row g r c (enc e cells) = Some (write_cells g r (c + e) cells).
Proof.
  induction cells as [|x t IH]; intros g c e Hwf Hr Hc He Hlen Hall;
    cbn [enc write_cells].
  - unfold flush. destruct (Z.ltb_spec 0 e) as [Hpos|_]; [|reflexivity].
    destruct (str_digit e) as (d & -> & Hd & Hv); [cbn [List.length] in Hlen; lia|].
    cbn [load_row]. rewrite Hd, Hv. reflexivity.
  - cbn [List.length] in Hlen. inversion Hall as [|? ? Hx Ht]; subst.
    destruct (piece_letter_cases x Hx) as [(-> & Hemp)|(Hxr & Hemp)].
    + rewrite Hemp. rewrite IH by (auto; lia).
      replace (c + (e + 1)) with (c + e + 1) by lia. reflexivity.
    + rewrite Hemp.
      destruct (piece_letter x Hxr) as (ch & Hch & Hnd & Hmap & _).
      rewrite Hch. cbn [append].
      assert (Hin : in_board r (c + e) = true) by (apply in_board_bounds; lia).
      assert (Hstep : load_row g r (c + e) (String ch (enc 0 t))
                      = Some (write_cells (place g r (c + e) x) r (c + e + 1) t)).
      { cbn [load_row]. rewrite Hnd, Hmap, (grid_write_place _ _ _ _ Hwf Hin).
        cbn [bind]. rewrite IH by (auto using grid_wf_place; lia).
        replace (c + e + 1 + 0) with (c + e + 1) by lia. reflexivity. }
      unfold flush. destruct (Z.ltb_spec 0 e) as [Hpos|Hz].
      * destruct (str_digit e) as (d & -> & Hd & Hv); [lia|].
        cbn [append load_row]. rewrite Hd, Hv. cbn [bind]. exact Hstep.
      * replace e with 0 in * by lia. cbn [append].
        replace (c + 0) with c in * by lia. exact Hstep.
Qed.

Lemma enc_no_separator (cells : list Z) :
  forall e,
    0 <= e -> e + Z.of_nat (List.length cells) <= 9 ->
    Forall (fun x => 0 <= x <= 12) cells ->
    Py.contains " " (enc e cells) = false /\ Py.contains "/" (enc e cells) = false.
Proof.
  assert (Hflush : forall e, 0 <= e <= 9 ->
            Py.contains " " (flush e) = false /\ Py.contains "/" (flush e) = false).
  { intros e He. unfold flush. destruct (Z.ltb_spec 0 e) as [Hpos|_]; [|split; reflexivity].
    destruct (str_digit e) as (d & -> & Hd & _); [lia|].
    destruct (digit_not_separator d Hd) as (H1 & H2).
    cbn [Py.contains]. rewrite H1, H2. split; reflexivity. }
  induction cells as [|x t IH]; intros e He Hlen Hall; cbn [enc].
  - apply Hflush. cbn [List.length] in Hlen. lia.
  - cbn [List.length] in Hlen. inversion Hall as [|? ? Hx Ht]; subst.
    destruct (piece_letter_cases x Hx) as [(-> & Hemp)|(Hxr & Hemp)]; rewrite Hemp.
    + apply IH; [lia | lia | exact Ht].
    + destruct (piece_letter x Hxr) as (ch & -> & _ & _ & H1 & H2).
      destruct (Hflush e) as (F1 & F2); [lia|].
      destruct (IH 0) as (I1 & I2); [lia | lia | exact Ht|].
      rewrite !contains_append, F1, F2. cbn [Py.contains orb].
      rewrite H1, H2, I1, I2. split; reflexivity.
Qed.

(** ** The whole placement *)

Lemma peek_write_cells (r : Z) (cells : list Z) :
  forall g c i j,
    grid_wf g = true -> 0 <= r < 8 -> 0 <= c ->
    c + Z.of_nat (List.length cells) <= 8 ->
    Forall (fun x => 0 <= x <= 12) cells ->
    in_board i j = true ->
    peek (write_cells g r c cells) i j
    = if (i =? r) && (c <=? j) && (j <? c + Z.of_nat (List.length cells))
         && negb (nth (Z.to_nat (j - c)) cells 0 =? 0)
      then nth (Z.to_nat (j - c)) cells 0
      else peek g i j.
Proof.
  induction cells as [|x t IH]; intros g c i j Hwf Hr Hc Hlen Hall Hin;
    cbn [write_cells List.length].
  - replace (j <? c + Z.of_nat 0) with (negb (c <=? j))
      by (destruct (Z.leb_spec c j), (Z.ltb_spec j (c + Z.of_nat 0)); cbn; lia || reflexivity).
    destruct (i =? r), (c <=? j); reflexivity.
  - cbn [List.length] in Hlen. inversion Hall as [|? ? Hx Ht]; subst.
    assert (Hwf' : grid_wf (if is_empty_str (Piece.get_fen x) then g
                            else place g r c x) = true).
    { destruct (is_empty_str (Piece.get_fen x)); [exact Hwf | apply grid_wf_place; exact Hwf]. }
    rewrite IH by (auto; lia).
    assert (Hhere : peek (if is_empty_str (Piece.get_fen x) then g else place g r c x) i j
                    = if (i =? r) && (j =? c) && negb (x =? 0) then x else peek g i j).
    { destruct (piece_letter_cases x Hx) as [(-> & Hemp)|(Hxr & Hemp)]; rewrite Hemp.
      - cbn [Z.eqb negb]. rewrite !andb_false_r. reflexivity.
      - rewrite peek_place by exact Hwf.
        assert (Hrc : in_board r c = true) by (apply in_board_bounds; lia).
        rewrite Hrc. cbn [andb].
        replace (x =? 0) with false by (symmetry; apply Z.eqb_neq; lia).
        cbn [negb]. rewrite andb_true_r, (Z.eqb_sym r i), (Z.eqb_sym c j). reflexivity. }
    rewrite Hhere.
    destruct (Z.eqb_spec i r) as [->|Hir]; cbn [andb]; [|reflexivity].
    destruct (Z.eqb_spec j c) as [->|Hjc].
    + replace (c + 1 <=? c) with false by (symmetry; apply Z.leb_gt; lia).
      replace (c <=? c) with true by (symmetry; apply Z.leb_le; lia).
      replace (c <? c + Z.of_nat (S (List.length t))) with true
        by (symmetry; apply Z.ltb_lt; lia).
      replace (c - c) with 0 by lia. cbn [andb Z.to_nat nth].
      destruct (x =? 0) eqn:Ex; cbn [negb]; [|reflexivity].
      apply in_board_bounds in Hin. unfold peek.
      reflexivity.
    + cbn [andb].
      destruct (Z.leb_spec (c + 1) j) as [Hle|Hgt].
      * replace (c <=? j) with true by (symmetry; apply Z.leb_le; lia).
        replace (j <? c + 1 + Z.of_nat (List.length t))
          with (j <? c + Z.of_nat (S (List.length t)))
          by (f_equal; lia).
        replace (Z.to_nat (j - c)) with (S (Z.to_nat (j - (c + 1)))) by lia.
        cbn [nth andb]. reflexivity.
      * replace (c <=? j) with false by (symmetry; apply Z.leb_gt; lia).
        cbn [andb]. reflexivity.
Qed.

Lemma nth_row (b : grid) (r j : Z) :
  0 <= j < 8 -> nth (Z.to_nat j) (map (bd b r) range8) 0 = bd b r j.
Proof.
  intros H.
  assert (Hc : j = 0 \/ j = 1 \/ j = 2 \/ j = 3 \/ j = 4 \/ j = 5 \/ j = 6 \/ j = 7) by lia.
  repeat (destruct Hc as [->|Hc]; [reflexivity|]). subst j. reflexivity.
Qed.

Lemma row_pieces_ok (b : grid) (r : Z) (cs : list Z) :
  grid_pieces_ok b = true -> Forall (fun x => 0 <= x <= 12) (map (bd b r) cs).
Proof.
  intros Hok. induction cs as [|c cs IH]; cbn [map]; constructor;
    [apply grid_pieces_ok_bd; exact Hok | exact IH].
Qed.

(** The cells of rank [r] after the text of that rank of [b] was read. *)
Lemma peek_written_row (b g : grid) (r i j : Z) :
  grid_wf g = true -> grid_pieces_ok b = true -> 0 <= r < 8 ->
  in_board i j = true ->
  peek (write_cells g r 0 (map (bd b r) range8)) i j
  = if (i =? r) && negb (bd b r j =? 0) then bd b r j else peek g i j.
Proof.
  intros Hwf Hok Hr Hin.
  rewrite peek_write_cells;
    [| exact Hwf | exact Hr | lia | cbn; lia | apply row_pieces_ok; exact Hok | exact Hin].
  apply in_board_bounds in Hin.
  replace (0 <=? j) with true by (symmetry; apply Z.leb_le; lia).
  replace (j <? 0 + Z.of_nat (List.length (map (bd b r) range8))) with true
    by (symmetry; apply Z.ltb_lt; cbn; lia).
  replace (j - 0) with j by lia. rewrite nth_row by lia.
  rewrite !andb_true_r. reflexivity.
Qed.

Lemma load_rows_fen (b : grid) (rows : list string) (rs : list Z) :
  forall g,
    grid_wf g = true -> grid_pieces_ok b = true ->
    (forall r, In r rs ->
       0 <= r < 8 /\ nth_error rows (Z.to_nat r) = Some (fen_row b r)) ->
    load_rows g rows rs
    = Some (fold_left (fun g r => write_cells g r 0 (map (bd b r) range8)) rs g).
Proof.
  induction rs as [|r rs IH]; intros g Hwf Hok Hrows; cbn [load_rows fold_left];
    [reflexivity|].
  destruct (Hrows r (or_introl eq_refl)) as (Hr & ->). cbn [bind].
  rewrite fen_row_enc.
  rewrite load_row_enc;
    [| exact Hwf | exact Hr | lia | lia | cbn; lia | apply row_pieces_ok; exact Hok].
  cbn [bind]. replace (0 + 0) with 0 by lia.
  apply IH; [apply grid_wf_write_cells; exact Hwf | exact Hok |].
  intros r' Hr'. apply Hrows. right. exact Hr'.
Qed.

Lemma peek_written_rows (b : grid) (rs : list Z) :
  forall g i j,
    grid_wf g = true -> grid_pieces_ok b = true ->
    (forall r, In r rs -> 0 <= r < 8) ->
    in_board i j = true ->
    grid_wf (fold_left (fun g r => write_cells g r 0 (map (bd b r) range8)) rs g) = true
    /\ peek (fold_left (fun g r => write_cells g r 0 (map (bd b r) range8)) rs g) i j
       = if existsb (Z.eqb i) rs && negb (bd b i j =? 0) then bd b i j else peek g i j.
Proof.
  induction rs as [|r rs IH]; intros g i j Hwf Hok Hrs Hin; cbn [fold_left existsb].
  - split; [exact Hwf | reflexivity].
  - destruct (IH (write_cells g r 0 (map (bd b r) range8)) i j) as (W & P);
      [apply grid_wf_write_cells; exact Hwf | exact Hok
      | intros r' Hr'; apply Hrs; right; exact Hr' | exact Hin |].
    split; [exact W|]. rewrite P.
    rewrite peek_written_row by (auto; apply Hrs; left; reflexivity).
    destruct (Z.eqb_spec i r) as [->|Hir]; cbn [orb andb]; [|reflexivity].
    destruct (existsb (Z.eqb r) rs); cbn [andb]; [|reflexivity].
    destruct (negb (bd b r j =? 0)); reflexivity.
Qed.

(** Reading the eight ranks written for [b] into the cleared grid gives
    [b] back. *)
Lemma placement_round_trip (b : grid) (rows : list string) :
  grid_wf b = true -> grid_pieces_ok b = true ->
  rows = map (fen_row b) range8 ->
  load_rows empty_grid rows range8 = Some b.
Proof.
  intros Hwf Hok ->.
  rewrite (load_rows_fen b _ range8 empty_grid); [| reflexivity | exact Hok |].
  - f_equal. apply grid_wf_ext.
    + destruct (peek_written_rows b range8 empty_grid 0 0) as (W & _);
        [reflexivity | exact Hok | intros r Hr; cbn in Hr; lia | reflexivity | exact W].
    + exact Hwf.
    + intros i j Hin.
      destruct (peek_written_rows b range8 empty_grid i j) as (_ & ->);
        [reflexivity | exact Hok | | exact Hin |].
      * intros r Hr. cbn in Hr. lia.
      * pose proof Hin as Hb. apply in_board_bounds in Hb.
        assert (Hex : existsb (Z.eqb i) range8 = true).
        { apply existsb_exists. exists i. split; [|apply Z.eqb_refl].
          cbn. lia. }
        rewrite Hex. cbn [andb]. unfold peek at 2. rewrite Hin.
        destruct (Z.eqb_spec (bd b i j) 0) as [E|E]; cbn [negb]; [|reflexivity].
        rewrite E.
        pose proof (in_board_all_coords i j Hin) as Hrc. vm_compute in Hrc.
        repeat (destruct Hrc as [Hrc|Hrc]; [injection Hrc as <- <-; reflexivity|]).
        contradiction.
  - intros r Hr. cbn in Hr.
    repeat (destruct Hr as [<-|Hr]; [split; [lia | reflexivity]|]). contradiction.
Qed.

(** ** The six fields of the text *)

Lemma uint_no_space (d : Decimal.uint) :
  Py.contains " " (NilEmpty.string_of_uint d) = false.
Proof. induction d; cbn; auto. Qed.

Lemma str_no_space (n : Z) : Py.contains " " (Py.str n) = false.
Proof.
  unfold Py.str.
  assert (Hu : forall d, Py.contains " " (NilZero.string_of_uint d) = false).
  { intros d. unfold NilZero.string_of_uint.
    destruct d; try reflexivity; apply uint_no_space. }
  destruct n as [|q|q]; cbn [Z.to_int NilZero.string_of_int]; [reflexivity | apply Hu |].
  cbn [Py.contains]. rewrite Hu. reflexivity.
Qed.

Lemma join_no_char (ch : ascii) (sep : string) (l : list string) :
  Py.contains ch sep = false ->
  (forall s, In s l -> Py.contains ch s = false) ->
  Py.contains ch (join sep l) = false.
Proof.
  intros Hsep. induction l as [|x l IH]; intros Hall; [reflexivity|].
  destruct l as [|y l].
  - cbn [join fold_left]. apply Hall. left. reflexivity.
  - rewrite join_cons, !contains_append, Hsep, IH, (Hall x (or_introl eq_refl));
      [reflexivity|]. intros s Hs. apply Hall. right. exact Hs.
Qed.

Lemma fen_row_no_separator (b : grid) (r : Z) :
  grid_pieces_ok b = true ->
  Py.contains " " (fen_row b r) = false /\ Py.contains "/" (fen_row b r) = false.
Proof.
  intros Hok. rewrite fen_row_enc.
  apply enc_no_separator; [lia | cbn; lia | apply row_pieces_ok; exact Hok].
Qed.

Lemma lower_char_space (ch : ascii) :
  Ascii.eqb (Py.lower_char ch) " " = Ascii.eqb ch " ".
Proof. destruct ch as [[] [] [] [] [] [] [] []]; reflexivity. Qed.

Lemma lower_char_dash (ch : ascii) : Py.lower_char ch = "-"%char -> ch = "-"%char.
Proof. destruct ch as [[] [] [] [] [] [] [] []]; intros H; try discriminate H; reflexivity. Qed.

Lemma lower_char_twice (ch : ascii) :
  Py.lower_char (Py.lower_char ch) = Py.lower_char ch.
Proof. destruct ch as [[] [] [] [] [] [] [] []]; reflexivity. Qed.

Lemma lower_no_space (s : string) :
  Py.contains " " (Py.lower s) = Py.contains " " s.
Proof.
  induction s as [|ch s IH]; cbn [Py.lower Py.contains]; [reflexivity|].
  rewrite lower_char_space, IH. reflexivity.
Qed.

Lemma lower_twice (s : string) : Py.lower (Py.lower s) = Py.lower s.
Proof.
  induction s as [|ch s IH]; cbn [Py.lower]; [reflexivity|].
  rewrite lower_char_twice, IH. reflexivity.
Qed.

Lemma lower_dash (s : string) : Py.lower s = "-" -> s = "-".
Proof.
  destruct s as [|ch [|ch' s]]; cbn [Py.lower]; intros H; try discriminate H.
  injection H as H. apply lower_char_dash in H. rewrite H. reflexivity.
Qed.

Lemma append_char (ch : ascii) (s : string) :
  (String ch "" ++ s)%string = String ch s.
Proof. reflexivity. Qed.

(** The four masks of [get_fen] and [load_fen] only see the four low bits
    of the rights. *)
Lemma rights_low_bits (cr : Z) :
  exists m, 0 <= m <= 15 /\ Z.land cr 15 = m
            /\ Z.land cr 1 = Z.land m 1 /\ Z.land cr 2 = Z.land m 2
            /\ Z.land cr 4 = Z.land m 4 /\ Z.land cr 8 = Z.land m 8.
Proof.
  exists (Z.land cr 15). split.
  - assert (H : Z.land cr 15 = cr mod 16) by (apply (Z.land_ones cr 4); lia).
    rewrite H. pose proof (Z.mod_pos_bound cr 16). lia.
  - split; [reflexivity|].
    rewrite <- !Z.land_assoc. repeat split; reflexivity.
Qed.

Lemma castling_field (h1 h2 h4 h8 : bool) :
  let text := ((if h1 then "K" else "") ++ (if h2 then "Q" else "")
               ++ (if h4 then "k" else "") ++ (if h8 then "q" else ""))%string in
  let field := if is_empty_str text then "-" else text in
  Py.contains " " field = false
  /\ Py.contains "K" field = h1 /\ Py.contains "Q" field = h2
  /\ Py.contains "k" field = h4 /\ Py.contains "q" field = h8.
Proof. destruct h1, h2, h4, h8; repeat split; reflexivity. Qed.

Lemma en_passant_field (p : Board) :
  en_passant_writable p ->
  let field := if truthy_str (en_passant p)
               then match en_passant p with Some s => Py.lower s | None => "-" end
               else "-" in
  Py.contains " " field = false
  /\ (if String.eqb field "-" then None else Some field) = lowered_en_passant p.
Proof.
  intros Hw. unfold lowered_en_passant.
  destruct (en_passant p) as [[|ch s]|] eqn:E; cbn [truthy_str option_map];
    try (split; reflexivity).
  destruct (Hw _ E) as (Hsp & Hne). split.
  - rewrite lower_no_space. exact Hsp.
  - destruct (String.eqb_spec (Py.lower (String ch s)) "-") as [Hd|_]; [|reflexivity].
    apply lower_dash in Hd. contradiction.
Qed.

(** [get_fen] writes six fields separated by single spaces, and splitting
    its text on spaces gives those six fields back. *)
Lemma get_fen_fields (p : Board) :
  grid_pieces_ok (board p) = true -> en_passant_writable p ->
  exists castling ep,
    Py.split " " (get_fen p)
    = [ join "/" (map (fen_row (board p)) range8);
        if white_to_play p then "w" else "b";
        castling; ep; Py.str (halfmove p); Py.str (fullmove p) ]
    /\ Py.contains "K" castling = has_right p 1
    /\ Py.contains "Q" castling = has_right p 2
    /\ Py.contains "k" castling = has_right p 4
    /\ Py.contains "q" castling = has_right p 8
    /\ (if String.eqb ep "-" then None else Some ep) = lowered_en_passant p.
Proof.
  intros Hok Hw.
  destruct (castling_field (has_right p 1) (has_right p 2) (has_right p 4)
              (has_right p 8)) as (Cs & CK & CQ & Ck & Cq).
  destruct (en_passant_field p Hw) as (Es & Ef).
  cbv zeta in Cs, CK, CQ, Ck, Cq, Es, Ef.
  eexists. eexists. split; [|repeat split; eassumption].
  unfold get_fen. rewrite !append_char.
  rewrite split_field.
  2:{ apply join_no_char; [reflexivity|]. intros s Hs.
      apply in_map_iff in Hs. destruct Hs as (r & <- & _).
      apply fen_row_no_separator. exact Hok. }
  rewrite split_field by (destruct (white_to_play p); reflexivity).
  rewrite split_field by exact Cs.
  rewrite split_field by exact Es.
  rewrite split_field by apply str_no_space.
  rewrite split_plain by apply str_no_space.
  reflexivity.
Qed.

Lemma rights_read_back (cr : Z) :
  (let c := 0 in
   let c := if negb (Z.land cr 1 =? 0) then Z.lor c 1 else c in
   let c := if negb (Z.land cr 2 =? 0) then Z.lor c 2 else c in
   let c := if negb (Z.land cr 4 =? 0) then Z.lor c 4 else c in
   if negb (Z.land cr 8 =? 0) then Z.lor c 8 else c)
  = Z.land cr 15.
Proof.
  destruct (rights_low_bits cr) as (m & Hm & -> & -> & -> & -> & ->).
  assert (Hc : m = 0 \/ m = 1 \/ m = 2 \/ m = 3 \/ m = 4 \/ m = 5 \/ m = 6 \/ m = 7
               \/ m = 8 \/ m = 9 \/ m = 10 \/ m = 11 \/ m = 12 \/ m = 13
               \/ m = 14 \/ m = 15) by lia.
  repeat (destruct Hc as [->|Hc]; [reflexivity|]). subst m. reflexivity.
Qed.

Lemma has_right_low_bits (p q : Board) (k : Z) :
  castling_rights q = Z.land (castling_rights p) 15 ->
  Z.land 15 k = k ->
  has_right q k = has_right p k.
Proof.
  intros Hq Hk. unfold has_right. rewrite Hq, <- Z.land_assoc, Hk. reflexivity.
Qed.

Lemma lowered_en_passant_field (p : Board) :
  (if truthy_str (lowered_en_passant p)
   then match lowered_en_passant p with Some s => Py.lower s | None => "-" end
   else "-")
  = (if truthy_str (en_passant p)
     then match en_passant p with Some s => Py.lower s | None => "-" end
     else "-").
Proof.
  unfold lowered_en_passant.
  destruct (en_passant p) as [[|ch s]|]; cbn [truthy_str option_map Py.lower];
    try reflexivity.
  rewrite lower_char_twice, lower_twice. reflexivity.
Qed.

(** What [load_fen] makes of the text of [get_fen]. *)
Lemma load_written (p p' : Board) :
  grid_wf (board p) = true -> grid_pieces_ok (board p) = true ->
  en_passant_writable p ->
  grid_wf (board p') = true ->
  exists q,
    load_fen p' (get_fen p) = Some q
    /\ board q = board p
    /\ white_to_play q = white_to_play p
    /\ castling_rights q = Z.land (castling_rights p) 15
    /\ en_passant q = lowered_en_passant p
    /\ halfmove q = halfmove p
    /\ fullmove q = fullmove p.
Proof.
  intros Hwf Hok Hw Hwf'.
  destruct (get_fen_fields p Hok Hw)
    as (castling & ep & Hsplit & HK & HQ & Hk & Hq & Hepf).
  unfold load_fen. rewrite Hsplit. cbv iota beta zeta.
  rewrite !int_str. cbn [bind].
  rewrite (cleared_grid _ Hwf').
  rewrite split_join.
  2:{ discriminate. }
  2:{ intros s Hs. apply in_map_iff in Hs. destruct Hs as (r & <- & _).
      apply fen_row_no_separator. exact Hok. }
  rewrite (placement_round_trip (board p) _ Hwf Hok eq_refl). cbn [bind].
  eexists. split; [reflexivity|].
  cbn [board white_to_play castling_rights en_passant halfmove fullmove
       with_position_history _update_king_positions with_kings with_clocks
       with_en_passant with_castling_rights with_white_to_play with_board].
  split; [reflexivity|].
  split; [destruct (white_to_play p); reflexivity|].
  split.
  { rewrite HK, HQ, Hk, Hq. unfold has_right.
    exact (rights_read_back (castling_rights p)). }
  split; [exact Hepf|].
  split; reflexivity.
Qed.

(** FEN round trip.  For a position whose grid is 8x8 and holds only piece
    codes, and whose en passant target (if any) can be written as one
    field, [load_fen] accepts the text of [get_fen], whatever state it is
    loaded into, and gives back the same board, side to move, half-move and
    full-move counters; the castling rights come back reduced to their four
    low bits and the en passant target in lower case; writing the loaded
    position gives the same text again. *)
Theorem fen_round_trip (p p' : Board) :
  grid_wf (board p) = true -> grid_pieces_ok (board p) = true ->
  en_passant_writable p ->
  grid_wf (board p') = true ->
  exists q,
    load_fen p' (get_fen p) = Some q
    /\ board q = board p
    /\ white_to_play q = white_to_play p
    /\ castling_rights q = Z.land (castling_rights p) 15
    /\ en_passant q = lowered_en_passant p
    /\ halfmove q = halfmove p
    /\ fullmove q = fullmove p
    /\ get_fen q = get_fen p.
Proof.
  intros Hwf Hok Hw Hwf'.
  destruct (load_written p p' Hwf Hok Hw Hwf')
    as (q & Hload & Hb & Hside & Hcr & Hep & Hhm & Hfm).
  exists q. repeat (split; [assumption|]).
  unfold get_fen.
  rewrite !(has_right_low_bits p q) by (exact Hcr || reflexivity).
  rewrite Hb, Hside, Hep, Hhm, Hfm, lowered_en_passant_field. reflexivity.
Qed.

Lemma fen_round_trip_witness :
  exists q,
    load_fen pinned_board (get_fen en_passant_board) = Some q
    /\ board q = board en_passant_board
    /\ castling_rights q = 15
    /\ en_passant q = Some "d6"
    /\ get_fen q = get_fen en_passant_board.
Proof.
  destruct (fen_round_trip en_passant_board pinned_board)
    as (q & Hload & Hb & _ & Hcr & Hep & _ & _ & Hfen).
  - reflexivity.
  - reflexivity.
  - intros s Hs. injection Hs as <-. split; [reflexivity | discriminate].
  - reflexivity.
  - exists q. split; [exact Hload|]. split; [exact Hb|].
    split; [exact Hcr|]. split; [exact Hep | exact Hfen].
Defined.

(** ** Where the claims stop holding *)


(** C1, counterexample.  Four positions with a move of the legal-move
    list after which [make_move] and [undo_move] give another FEN text:
    a position already drawn by the fifty-move rule, where [make_move]
    returns without moving and [undo_move] takes back the move made before;
    a kingside right without a rook on h1, where the castle puts a rook on
    f1 and undoing it leaves a rook on h1; an en passant target without a
    pawn behind it, where undoing the capture puts a pawn there; and a memo
    listing a castle across the occupied f1, where the rook replaces the
    bishop and undoing the castle leaves f1 empty. *)
Lemma make_then_undo_counterexample :
  (exists q0 ms q res r,
     get_moves fifty_move_board = Some (q0, ms)
     /\ In (mkMove "E8" "D8" None) ms
     /\ make_move fifty_move_board (mkMove "E8" "D8" None) true = Some (q, res)
     /\ m_reason res = Some "50-move rule"
     /\ undo_move q = Some r
     /\ get_fen fifty_move_board = "4k3/8/8/8/8/8/4P3/3K4 b - - 100 60"
     /\ get_fen r = "4k3/8/8/8/8/8/4P3/4K3 w - - 99 60")
  /\ (exists q0 ms q res r,
        get_moves rookless_board = Some (q0, ms)
        /\ In (mkMove "E1" "G1" None) ms
        /\ make_move rookless_board (mkMove "E1" "G1" None) true = Some (q, res)
        /\ m_over res = false
        /\ undo_move q = Some r
        /\ get_fen rookless_board = "4k3/p7/8/8/8/8/P7/4K3 w K - 0 1"
        /\ get_fen r = "4k3/p7/8/8/8/8/P7/4K2R w K - 0 1")
  /\ (exists q0 ms q res r,
        get_moves phantom_en_passant_board = Some (q0, ms)
        /\ In (mkMove "E4" "D3" None) ms
        /\ make_move phantom_en_passant_board (mkMove "E4" "D3" None) true
           = Some (q, res)
        /\ m_over res = false
        /\ undo_move q = Some r
        /\ get_fen phantom_en_passant_board = "4k3/8/8/8/4p3/8/8/4K3 b - d3 0 1"
        /\ get_fen r = "4k3/8/8/8/3Pp3/8/8/4K3 b - d3 0 1")
  /\ (exists q0 ms q res r,
        get_moves stale_castle_board = Some (q0, ms)
        /\ In (mkMove "E1" "G1" None) ms
        /\ make_move stale_castle_board (mkMove "E1" "G1" None) true = Some (q, res)
        /\ m_over res = false
        /\ undo_move q = Some r
        /\ get_fen stale_castle_board = "4k3/8/8/8/8/8/8/4KB1R w K - 0 1"
        /\ get_fen r = "4k3/8/8/8/8/8/8/4K2R w K - 0 1").
Proof.
  split; [|split; [|split]];
    (do 5 eexists;
     split; [vm_compute; reflexivity|];
     split; [simpl; tauto|];
     split; [vm_compute; reflexivity|];
     split; [reflexivity|];
     split; [vm_compute; reflexivity|];
     split; vm_compute; reflexivity).
Qed.




(** ** The memo stays usable *)

Lemma pseudo_moves_over_with_cache (p : Board) (k : option (string * list Move))
    (cs : list (Z * Z)) :
  pseudo_moves_over (with_cache p k) cs = pseudo_moves_over p cs.
Proof.
  destruct p. induction cs as [|[r c] cs IH]; [reflexivity|].
  cbn [pseudo_moves_over]. rewrite IH. reflexivity.
Qed.

Lemma compute_moves_with_cache (p : Board) (k : option (string * list Move)) :
  compute_moves (with_cache p k) = compute_moves p.
Proof.
  unfold compute_moves, pseudo_legal_moves.
  rewrite pseudo_moves_over_with_cache.
  destruct (pseudo_moves_over p all_coords) as [moves|]; [|reflexivity].
  cbn [bind]. unfold _filter_legal_moves. destruct p.
  cbn [with_cache board white_to_play king_white king_black].
  match goal with
  | |- context [filter_legal_loop ?b ?w ?kp ?l] =>
      destruct (filter_legal_loop b w kp l) as [[b' legal]|]; reflexivity
  end.
Qed.

Lemma hash_side (p q : Board) :
  _get_position_hash p = _get_position_hash q -> white_to_play p = white_to_play q.
Proof.
  unfold _get_position_hash.
  destruct (white_to_play p), (white_to_play q); cbn [append]; intros H;
    first [reflexivity | discriminate H].
Qed.

Lemma cache_ok_stored (p q' : Board) (ms : list Move) :
  compute_moves p = Some (q', ms) ->
  cache_ok (with_cache p (Some (_get_position_hash p, ms))).
Proof.
  intros H l Hl. cbn [moves_cache with_cache] in Hl. injection Hl as <-.
  rewrite compute_moves_with_cache. eauto.
Qed.

Lemma cache_ok_get_moves (p q : Board) (ms : list Move) :
  cache_ok p -> get_moves p = Some (q, ms) -> cache_ok q.
Proof.
  intros Hok H. destruct (get_moves_computed _ _ _ Hok H) as (q' & Hc).
  rewrite (get_moves_state _ _ _ H). eapply cache_ok_stored. exact Hc.
Qed.

Lemma cache_ok_is_game_over (p q : Board) (g : GameOver) :
  cache_ok p -> is_game_over p = Some (q, g) -> cache_ok q.
Proof.
  unfold is_game_over. intros Hok H.
  destruct (if timers_enabled p then timeout_result p else None).
  { injection H as <- _. exact Hok. }
  destruct (100 <=? halfmove p).
  { injection H as <- _. exact Hok. }
  destruct (is_insufficient_material p).
  { injection H as <- _. exact Hok. }
  destruct (is_threefold_repetition p).
  { injection H as <- _. exact Hok. }
  bind_inv H. destruct p0 as [p1 moves].
  assert (Hp1 : cache_ok p1) by (eapply cache_ok_get_moves; eassumption).
  destruct moves as [|m ms].
  - destruct (is_king_attacked _ _); injection H as <- _; exact Hp1.
  - injection H as <- _. exact Hp1.
Qed.

(** A memo stored for the other side to move is never a hit. *)
Lemma cache_ok_other_side (p q : Board) (ms : list Move) :
  moves_cache q = Some (_get_position_hash p, ms) ->
  white_to_play q = negb (white_to_play p) ->
  cache_ok q.
Proof.
  intros Hm Hside l Hl. rewrite Hm in Hl. injection Hl as Hh _.
  apply hash_side in Hh. rewrite Hside in Hh. destruct (white_to_play p); discriminate.
Qed.

Lemma apply_move_state (p q : Board) (m : Move) (res : MoveResult) :
  apply_move p m = Some (q, res) ->
  exists record p4 final,
    untouched p p4
    /\ is_game_over (make_move_bookkeeping p4 record) = Some (q, final).
Proof.
  intros H. apply apply_move_inv in H.
  destruct H as (fp & tp & p1 & cm & p3 & epc & promo & p4 & final
                 & Hfp & Htp & Hc & He & Hp & Hb & Hgo & _).
  apply make_move_castling_frame in Hc. destruct Hc as (U1 & _).
  apply make_move_en_passant_frame in He. destruct He as (U2 & _).
  apply make_move_board_frame in Hb. destruct Hb as (U3 & _).
  assert (U : untouched p p4).
  { eapply untouched_trans; [|exact U3]. eapply untouched_trans; [exact U1|].
    eapply untouched_trans; [|exact U2]. repeat split. }
  eauto.
Qed.

Lemma cache_ok_make_move (p q : Board) (m : Move) (cl : bool) (res : MoveResult) :
  cache_ok p -> make_move p m cl = Some (q, res) -> cache_ok q.
Proof.
  intros Hok Hmm. unfold make_move in Hmm.
  destruct (is_game_over p) as [[p0 g]|] eqn:Hgo; [|discriminate].
  cbn [bind] in Hmm.
  pose proof (cache_ok_is_game_over _ _ _ Hok Hgo) as Hp0.
  destruct (over g) eqn:Hover.
  { injection Hmm as <- _. exact Hp0. }
  destruct (is_game_over_continue _ _ _ Hgo Hover) as (m0 & ms0 & Hgm).
  pose proof (get_moves_state _ _ _ Hgm) as Hst.
  pose proof (get_moves_again _ _ _ Hgm) as Hagain.
  assert (Happ : (cl = true /\ existsb (same_squares m) (m0 :: ms0) = false /\ q = p0)
                 \/ apply_move p0 m = Some (q, res)).
  { destruct cl.
    - rewrite Hagain in Hmm. cbn [bind] in Hmm.
      destruct (existsb (same_squares m) (m0 :: ms0)) eqn:Hf; cbn [negb] in Hmm.
      + right. exact Hmm.
      + left. injection Hmm as <- _. auto.
    - cbn [bind negb] in Hmm. right. exact Hmm. }
  destruct Happ as [(_ & _ & ->)|Happ]; [exact Hp0|].
  destruct (apply_move_state _ _ _ _ Happ) as (record & p4 & final & U & Hfin).
  eapply cache_ok_is_game_over; [|exact Hfin].
  destruct U as (Uside & _ & _ & _ & _ & _ & _ & _ & _ & Umemo).
  eapply (cache_ok_other_side p _ (m0 :: ms0)).
  - unfold make_move_bookkeeping.
    cbn [moves_cache with_position_history with_white_to_play with_clocks
         with_move_history].
    rewrite Umemo, Hst. reflexivity.
  - unfold make_move_bookkeeping.
    cbn [white_to_play with_position_history with_white_to_play with_clocks
         with_move_history].
    rewrite Uside, Hst. reflexivity.
Qed.

Lemma cache_ok_with_timers (p : Board) (wt bt : option Z) (en : bool)
    (res : option Timeout) :
  cache_ok p -> cache_ok (with_timers p wt bt en res).
Proof.
  intros Hok l Hl.
  assert (Hc : forall q ms, compute_moves p = Some (q, ms) ->
               exists q', compute_moves (with_timers p wt bt en res) = Some (q', ms)).
  { clear. intros q ms H. unfold compute_moves, pseudo_legal_moves in *.
    assert (Hps : forall cs, pseudo_moves_over (with_timers p wt bt en res) cs
                             = pseudo_moves_over p cs).
    { destruct p. induction cs as [|[r c] cs IH]; [reflexivity|].
      cbn [pseudo_moves_over]. rewrite IH. reflexivity. }
    rewrite Hps.
    destruct (pseudo_moves_over p all_coords) as [moves|]; [|discriminate].
    cbn [bind] in *. unfold _filter_legal_moves in *. destruct p.
    cbn [with_timers board white_to_play king_white king_black] in *.
    match goal with
    | |- context [filter_legal_loop ?b ?w ?kp ?l] =>
        destruct (filter_legal_loop b w kp l) as [[b' legal]|]; [|discriminate]
    end.
    cbn [bind] in *. injection H as _ <-. eexists. reflexivity. }
  destruct (Hok l) as (q & Hq); [|eauto].
  destruct p. exact Hl.
Qed.

Lemma cache_ok_decrement (p : Board) (ms : Z) :
  cache_ok p -> cache_ok (fst (decrement_current_player_timer p ms)).
Proof.
  intros Hok. unfold decrement_current_player_timer.
  destruct (negb (timers_enabled p)); [exact Hok|].
  destruct (white_to_play p), (white_time p), (black_time p); cbn [fst];
    try exact Hok;
    match goal with
    | |- context [if ?c then _ else _] => destruct c
    end; cbn [fst]; apply cache_ok_with_timers; exact Hok.
Qed.

(** The memo of a game in play is usable.  A Board made by [Board(fen)]
    and then used through [get_moves], [is_game_over], [make_move],
    [set_timers] and [decrement_current_player_timer] never holds, under
    the hash of its position, a list other than the one a fresh computation
    returns: a stored list is the computed one, and the memo left by the
    position before a move is keyed for the other side to move. *)
Theorem memo_usable_in_play (p : Board) : in_play p -> cache_ok p.
Proof.
  induction 1 as [fen p Hnew | p q ms _ IH H | p q g _ IH H
                 | p q m cl res _ IH H | p w b _ IH | p ms _ IH].
  - unfold new_board in Hnew. apply load_fen_inv in Hnew.
    destruct Hnew as (? & ? & ? & ? & ? & ? & ? & ? & _ & _ & _ & _ & _ & _ & _
                      & _ & _ & _ & _ & _ & Hmemo & _).
    cbn [moves_cache] in Hmemo. intros l Hl. rewrite Hmemo in Hl. discriminate.
  - eapply cache_ok_get_moves; eassumption.
  - eapply cache_ok_is_game_over; eassumption.
  - eapply cache_ok_make_move; eassumption.
  - apply cache_ok_with_timers. exact IH.
  - apply cache_ok_decrement. exact IH.
Qed.

Lemma memo_usable_in_play_witness :
  exists q ms, get_moves start_board = Some (q, ms) /\ cache_ok q.
Proof.
  assert (Hex : exists q ms, get_moves start_board = Some (q, ms))
    by (vm_compute; eauto).
  destruct Hex as (q & ms & Hgm). exists q, ms. split; [exact Hgm|].
  apply memo_usable_in_play.
  apply (in_play_get_moves start_board q ms); [|exact Hgm].
  apply (in_play_new None). vm_compute. reflexivity.
Defined.

(** ** What [int] accepts *)

(** [int] strips the whitespace around a literal and accepts single
    underscores between digits: the clocks of a FEN text may be written
    "2" followed by a newline, "1_0" or "0" followed by a tab.  It rejects
    a literal without digits, a sign followed by a space, an underscore at
    either end or doubled, and a superscript digit. *)
Example int_literals :
  Py.int (String "2" (String (ascii_of_nat 10) "")) = Some 2
  /\ Py.int "1_0" = Some 10
  /\ Py.int (String "0" (String (ascii_of_nat 9) "")) = Some 0
  /\ Py.int " -007 " = Some (-7)
  /\ Py.int "+12" = Some 12
  /\ Py.int "" = None
  /\ Py.int "-" = None
  /\ Py.int "- 1" = None
  /\ Py.int "_1" = None
  /\ Py.int "1_" = None
  /\ Py.int "1__0" = None
  /\ Py.int "1 2" = None
  /\ Py.int (String (ascii_of_nat 178) "") = None
  /\ Py.isdigit (ascii_of_nat 178) = true.
Proof. repeat split; reflexivity. Qed.

(** A FEN text whose clocks are written with a trailing tab and with an
    underscore loads like the plain text. *)
Example load_fen_padded_clocks :
  load_fen start_board
    ("4k3/8/8/8/8/8/4P3/4K3 w - - "
     ++ String "7" (String (ascii_of_nat 9) " 1_2"))%string
  = load_fen start_board "4k3/8/8/8/8/8/4P3/4K3 w - - 7 12".
Proof. vm_compute. reflexivity. Qed.

(** ** Square names outside the board *)

Lemma index_eight (i : Z) :
  Py.index 8 i = if (-8 <=? i) && (i <? 8) then Some (Z.to_nat (i mod 8)) else None.
Proof.
  unfold Py.index. change (Z.of_nat 8) with 8. change (Z.opp 8) with (-8).
  destruct (Z.leb_spec 0 i), (Z.ltb_spec i 8), (Z.leb_spec (-8) i), (Z.ltb_spec i 0);
    cbn [andb]; try lia; try reflexivity;
    f_equal; f_equal;
    first [ symmetry; apply Z.mod_small; lia
          | apply (Z.mod_unique i 8 (-1) (i + 8)); lia ].
Qed.

(** [coords_to_square] for arbitrary integers: it returns the name of the
    cell when both coordinates are in 0..7, wraps a coordinate in -8..-1 to
    the cell eight further, and raises exactly when a coordinate is outside
    -8..7. *)
Theorem coords_to_square_bounds (r c : Z) :
  (in_board r c = true ->
   coords_to_square_unchecked r c = Some (coords_to_square r c))
  /\ (-8 <= r < 8 /\ -8 <= c < 8 ->
      coords_to_square_unchecked r c = Some (coords_to_square (r mod 8) (c mod 8)))
  /\ (coords_to_square_unchecked r c = None <-> ~ (-8 <= r < 8 /\ -8 <= c < 8)).
Proof.
  assert (Hin : -8 <= r < 8 /\ -8 <= c < 8 ->
                coords_to_square_unchecked r c
                = Some (coords_to_square (r mod 8) (c mod 8))).
  { intros (Hr & Hc). unfold coords_to_square_unchecked, coords_to_square.
    change (List.length FILES) with 8%nat. change (List.length RANKS) with 8%nat.
    rewrite !index_eight.
    replace ((-8 <=? c) && (c <? 8)) with true
      by (symmetry; apply andb_true_iff; split; [apply Z.leb_le | apply Z.ltb_lt]; lia).
    replace ((-8 <=? r) && (r <? 8)) with true
      by (symmetry; apply andb_true_iff; split; [apply Z.leb_le | apply Z.ltb_lt]; lia).
    reflexivity. }
  split; [|split; [exact Hin|]].
  - intros Hb. apply in_board_bounds in Hb. rewrite Hin by lia.
    rewrite !Z.mod_small by lia. reflexivity.
  - split.
    + intros Hnone Hb. rewrite (Hin Hb) in Hnone. discriminate.
    + intros Hout. unfold coords_to_square_unchecked.
      change (List.length FILES) with 8%nat. change (List.length RANKS) with 8%nat.
      rewrite !index_eight.
      destruct (Z.leb_spec (-8) c), (Z.ltb_spec c 8); cbn [andb bind]; try reflexivity.
      destruct (Z.leb_spec (-8) r), (Z.ltb_spec r 8); cbn [andb bind]; try reflexivity.
      exfalso. apply Hout. lia.
Qed.

Example coords_to_square_wraps :
  coords_to_square_unchecked (-1) (-8) = Some "A1"
  /\ coords_to_square_unchecked 4 4 = Some "E4"
  /\ coords_to_square_unchecked 8 0 = None
  /\ coords_to_square_unchecked 0 (-9) = None.
Proof. repeat split; reflexivity. Qed.
